(** * GarbledCct3: the garbling engine of pcflib/betteryao

    A shallow embedding of [src/pcflib/betteryao/GarbledCct3.cpp] and the
    properties its specification states about it.

    - 128-bit vectors ([__m128i]) are integers in [0, 2^128); the SSE
      intrinsics are the corresponding bit operations on [Z].
    - Byte strings ([Bytes]) are lists of bytes, read little-endian when they
      are loaded into a 128-bit vector.
    - The object state is a record with one field per data member; every
      member function is a function from states to states.
    - The collaborators that live outside the file (PRNG, KDF, hash of a
      byte string, the free-XOR test of the header, the environment) are
      operations of a type class, so every statement holds for all of them. *)

From Stdlib Require Import ZArith List Bool Lia.
From Stdlib Require Strings.Byte.
From stdpp Require Import base numbers list.
From coqutil Require Import Byte Word.LittleEndianList.

(** ** Byte strings *)

(** [Bytes]: a vector of bytes. *)
Abbreviation Bytes := (list byte).

Module BytesOps.

(** Modelled from the spec: the byte-string container [Bytes] is outside
  [src/]. Bit [ix] of a byte string is bit [ix mod 8] of byte [ix / 8],
  the numbering under which bit 0 of [R] is the permutation bit that the
  kernels extract from byte 0 of a label. Reading past the end, which
  the container forbids, yields 0 here. *)
Definition get_ith_bit (b : Bytes) (ix : nat) : bool :=
  Z.testbit (le_combine b) (Z.of_nat ix).

(** Modelled from the spec: writes bit [ix]; the length never changes, and
  a position past the end, which the container forbids, changes
  nothing. *)
Definition set_ith_bit (b : Bytes) (ix : nat) (bit : bool) : Bytes :=
  le_split (length b)
    ((if bit then Z.setbit else Z.clearbit) (le_combine b) (Z.of_nat ix)).

(** [std::vector::resize(n, 0)]: truncate, or pad with zero bytes. *)
Definition resize (n : nat) (b : Bytes) : Bytes :=
  take n b ++ repeat Byte.x00 (n - length b).

(** [Bytes(n)] and [assign(n, 0)]: [n] zero bytes. *)
Definition zeros (n : nat) : Bytes := repeat Byte.x00 n.

(** [Bytes(it, it + n)] and [assign(it, it + n)] for an iterator [it] at
  offset [off] of [b]. A range that runs past the end of [b] is undefined
  in the source; here it is cut at the end. *)
Definition slice (b : Bytes) (off n : nat) : Bytes := take n (drop off b).

(** Modelled from the spec: [lhs ^= rhs], the bytewise XOR of two byte
  strings of one size; the result keeps the size of [lhs]. *)
Definition xor_assign (lhs rhs : Bytes) : Bytes :=
  le_split (length lhs) (Z.lxor (le_combine lhs) (le_combine rhs)).

End BytesOps.
Import BytesOps.

(** ** 128-bit vectors *)

Module Simd.

(** [_mm_loadu_si128(&tmp[0])]: the first 16 bytes, little-endian. *)
Definition loadu (tmp : Bytes) : Z := le_combine (take 16 tmp).

(** [_mm_storeu_si128(&tmp[0], x)] on a 16-byte [tmp]: the new [tmp]. *)
Definition storeu (x : Z) : Bytes := le_split 16 x.

Definition xor_si128 (a b : Z) : Z := Z.lxor a b.
Definition and_si128 (a b : Z) : Z := Z.land a b.

(** [_mm_extract_epi8(x, 0) & 0x01]. *)
Definition perm_bit (x : Z) : bool := Z.testbit (Z.land x 255) 0.

(** [_mm_set1_epi64x(a)]: both 64-bit halves hold [a]. *)
Definition set1_epi64x (a : Z) : Z :=
  Z.lor (a mod 2 ^ 64) (Z.shiftl (a mod 2 ^ 64) 64).

End Simd.
Import Simd.

(** A two-element array [a[2]] indexed by a bit. *)
Definition arr2 {A : Type} (a0 a1 : A) (i : bool) : A := if i then a1 else a0.

(** [a[bit] = v; a[1-bit] = w;] read back at [i]. *)
Definition arr2_at {A : Type} (bit : bool) (v w : A) (i : bool) : A :=
  if Bool.eqb i bit then v else w.

Definition b2n (b : bool) : nat := if b then 1 else 0.

(** ** Circuits *)

Inductive Tag : Type := GEN_INP | EVL_INP | GEN_OUT | EVL_OUT | INTERNAL.

Record Gate : Type := {
  m_tag : Tag;
  m_idx : nat;
  m_input_idx : list nat;
  m_table : list bool
}.

Definition Tag_eqb (a b : Tag) : bool :=
  match a, b with
  | GEN_INP, GEN_INP | EVL_INP, EVL_INP | GEN_OUT, GEN_OUT
  | EVL_OUT, EVL_OUT | INTERNAL, INTERNAL => true
  | _, _ => false
  end.

(** [g.m_table[ix]]. *)
Definition table_at (g : Gate) (ix : nat) : bool := nth ix (m_table g) false.

(** ** Environment, build options and collaborators *)

(** The preprocessor switches of the build. *)
Class Config : Type := {
  FREE_XOR : bool;
  GRR : bool;
  RAND_SEED : bool
}.

(** [Env]: the security parameter and the sizes of the loaded circuit. *)
Class Env : Type := {
  Env_k : nat;
  m_cnt : nat;
  gen_inp_cnt : nat;
  evl_out_cnt : nat;
  gen_out_cnt : nat
}.

Definition key_size_in_bytes `{Env} : nat := (Env_k + 7) / 8.

(** The operations the engine calls and does not define. *)
Class Collab : Type := {
  Prng : Type;
  Prng_srand : Prng -> Bytes -> Prng;
  Prng_rand : Prng -> nat -> Bytes * Prng;
  Bytes_hash : Bytes -> nat -> Bytes;
  KDF128 : Z -> Z -> Z;
  KDF256 : Z -> Z -> Z -> Z;
  is_xor : Gate -> bool;
  indeterminate_m128i : Z
}.

Definition CIRCUIT_HASH_BUFFER_SIZE : Z := 10 * 1024 * 1024.

#[global] Instance byte_inhabited : Inhabited byte := populate Byte.x00.

#[global] Instance byte_eq_dec : EqDecision byte.
Proof.
  intros x y. destruct (Byte.eqb x y) eqn:E.
  - left. apply Byte.byte_dec_bl, E.
  - right. apply Byte.eqb_false, E.
Defined.

(** [std::vector<T>::resize(n)] with value-initialised new elements. *)
Definition vec_resize {A : Type} (d : A) (n : nat) (v : list A) : list A :=
  take n v ++ replicate (n - length v) d.

Notation "st |> f" := (f st) (at level 45, left associativity, only parsing).

(** ** The engine *)

Section Engine.

Context {config : Config} {env : Env} {collab : Collab}.

(** The data members of [GarbledCct3]. [m_i_bufr_ix] is the offset of the
    read iterator in [m_i_bufr]. A null [m_w] is the empty table. [m_hash]
    is the byte sequence the incremental hash has absorbed since its
    [init()], which is all that its digest depends on. *)
Record GarbledCct3 : Type := {
  m_R : Z;
  m_ot_keys : list Bytes;
  m_gen_inp_mask : Bytes;
  m_evl_inp : Bytes;
  m_prng : Prng;
  m_gate_ix : Z;
  m_gen_inp_hash_ix : nat;
  m_gen_inp_ix : nat;
  m_evl_inp_ix : nat;
  m_gen_out_ix : nat;
  m_evl_out_ix : nat;
  m_o_bufr : Bytes;
  m_i_bufr : Bytes;
  m_i_bufr_ix : nat;
  m_gen_inp_hash : Bytes;
  m_clear_mask : Z;
  m_w : list Z;
  m_gen_inp_decom : list Bytes;
  m_gen_inp_com : list Bytes;
  m_evl_out : Bytes;
  m_gen_out : Bytes;
  m_bufr : Bytes;
  m_hash : Bytes
}.

(** Assignment to one data member. *)
Definition set_m_R (v : Z) (st : GarbledCct3) : GarbledCct3 :=
  {| m_R := v; m_ot_keys := m_ot_keys st; m_gen_inp_mask := m_gen_inp_mask st;
     m_evl_inp := m_evl_inp st; m_prng := m_prng st; m_gate_ix := m_gate_ix st;
     m_gen_inp_hash_ix := m_gen_inp_hash_ix st; m_gen_inp_ix := m_gen_inp_ix st;
     m_evl_inp_ix := m_evl_inp_ix st; m_gen_out_ix := m_gen_out_ix st;
     m_evl_out_ix := m_evl_out_ix st; m_o_bufr := m_o_bufr st; m_i_bufr := m_i_bufr st;
     m_i_bufr_ix := m_i_bufr_ix st; m_gen_inp_hash := m_gen_inp_hash st;
     m_clear_mask := m_clear_mask st; m_w := m_w st; m_gen_inp_decom := m_gen_inp_decom st;
     m_gen_inp_com := m_gen_inp_com st; m_evl_out := m_evl_out st;
     m_gen_out := m_gen_out st; m_bufr := m_bufr st; m_hash := m_hash st |}.

Definition set_m_ot_keys (v : list Bytes) (st : GarbledCct3) : GarbledCct3 :=
  {| m_R := m_R st; m_ot_keys := v; m_gen_inp_mask := m_gen_inp_mask st;
     m_evl_inp := m_evl_inp st; m_prng := m_prng st; m_gate_ix := m_gate_ix st;
     m_gen_inp_hash_ix := m_gen_inp_hash_ix st; m_gen_inp_ix := m_gen_inp_ix st;
     m_evl_inp_ix := m_evl_inp_ix st; m_gen_out_ix := m_gen_out_ix st;
     m_evl_out_ix := m_evl_out_ix st; m_o_bufr := m_o_bufr st; m_i_bufr := m_i_bufr st;
     m_i_bufr_ix := m_i_bufr_ix st; m_gen_inp_hash := m_gen_inp_hash st;
     m_clear_mask := m_clear_mask st; m_w := m_w st; m_gen_inp_decom := m_gen_inp_decom st;
     m_gen_inp_com := m_gen_inp_com st; m_evl_out := m_evl_out st;
     m_gen_out := m_gen_out st; m_bufr := m_bufr st; m_hash := m_hash st |}.

Definition set_m_gen_inp_mask (v : Bytes) (st : GarbledCct3) : GarbledCct3 :=
  {| m_R := m_R st; m_ot_keys := m_ot_keys st; m_gen_inp_mask := v;
     m_evl_inp := m_evl_inp st; m_prng := m_prng st; m_gate_ix := m_gate_ix st;
     m_gen_inp_hash_ix := m_gen_inp_hash_ix st; m_gen_inp_ix := m_gen_inp_ix st;
     m_evl_inp_ix := m_evl_inp_ix st; m_gen_out_ix := m_gen_out_ix st;
     m_evl_out_ix := m_evl_out_ix st; m_o_bufr := m_o_bufr st; m_i_bufr := m_i_bufr st;
     m_i_bufr_ix := m_i_bufr_ix st; m_gen_inp_hash := m_gen_inp_hash st;
     m_clear_mask := m_clear_mask st; m_w := m_w st; m_gen_inp_decom := m_gen_inp_decom st;
     m_gen_inp_com := m_gen_inp_com st; m_evl_out := m_evl_out st;
     m_gen_out := m_gen_out st; m_bufr := m_bufr st; m_hash := m_hash st |}.

Definition set_m_evl_inp (v : Bytes) (st : GarbledCct3) : GarbledCct3 :=
  {| m_R := m_R st; m_ot_keys := m_ot_keys st; m_gen_inp_mask := m_gen_inp_mask st;
     m_evl_inp := v; m_prng := m_prng st; m_gate_ix := m_gate_ix st;
     m_gen_inp_hash_ix := m_gen_inp_hash_ix st; m_gen_inp_ix := m_gen_inp_ix st;
     m_evl_inp_ix := m_evl_inp_ix st; m_gen_out_ix := m_gen_out_ix st;
     m_evl_out_ix := m_evl_out_ix st; m_o_bufr := m_o_bufr st; m_i_bufr := m_i_bufr st;
     m_i_bufr_ix := m_i_bufr_ix st; m_gen_inp_hash := m_gen_inp_hash st;
     m_clear_mask := m_clear_mask st; m_w := m_w st; m_gen_inp_decom := m_gen_inp_decom st;
     m_gen_inp_com := m_gen_inp_com st; m_evl_out := m_evl_out st;
     m_gen_out := m_gen_out st; m_bufr := m_bufr st; m_hash := m_hash st |}.

Definition set_m_prng (v : Prng) (st : GarbledCct3) : GarbledCct3 :=
  {| m_R := m_R st; m_ot_keys := m_ot_keys st; m_gen_inp_mask := m_gen_inp_mask st;
     m_evl_inp := m_evl_inp st; m_prng := v; m_gate_ix := m_gate_ix st;
     m_gen_inp_hash_ix := m_gen_inp_hash_ix st; m_gen_inp_ix := m_gen_inp_ix st;
     m_evl_inp_ix := m_evl_inp_ix st; m_gen_out_ix := m_gen_out_ix st;
     m_evl_out_ix := m_evl_out_ix st; m_o_bufr := m_o_bufr st; m_i_bufr := m_i_bufr st;
     m_i_bufr_ix := m_i_bufr_ix st; m_gen_inp_hash := m_gen_inp_hash st;
     m_clear_mask := m_clear_mask st; m_w := m_w st; m_gen_inp_decom := m_gen_inp_decom st;
     m_gen_inp_com := m_gen_inp_com st; m_evl_out := m_evl_out st;
     m_gen_out := m_gen_out st; m_bufr := m_bufr st; m_hash := m_hash st |}.

Definition set_m_gate_ix (v : Z) (st : GarbledCct3) : GarbledCct3 :=
  {| m_R := m_R st; m_ot_keys := m_ot_keys st; m_gen_inp_mask := m_gen_inp_mask st;
     m_evl_inp := m_evl_inp st; m_prng := m_prng st; m_gate_ix := v;
     m_gen_inp_hash_ix := m_gen_inp_hash_ix st; m_gen_inp_ix := m_gen_inp_ix st;
     m_evl_inp_ix := m_evl_inp_ix st; m_gen_out_ix := m_gen_out_ix st;
     m_evl_out_ix := m_evl_out_ix st; m_o_bufr := m_o_bufr st; m_i_bufr := m_i_bufr st;
     m_i_bufr_ix := m_i_bufr_ix st; m_gen_inp_hash := m_gen_inp_hash st;
     m_clear_mask := m_clear_mask st; m_w := m_w st; m_gen_inp_decom := m_gen_inp_decom st;
     m_gen_inp_com := m_gen_inp_com st; m_evl_out := m_evl_out st;
     m_gen_out := m_gen_out st; m_bufr := m_bufr st; m_hash := m_hash st |}.

Definition set_m_gen_inp_hash_ix (v : nat) (st : GarbledCct3) : GarbledCct3 :=
  {| m_R := m_R st; m_ot_keys := m_ot_keys st; m_gen_inp_mask := m_gen_inp_mask st;
     m_evl_inp := m_evl_inp st; m_prng := m_prng st; m_gate_ix := m_gate_ix st;
     m_gen_inp_hash_ix := v; m_gen_inp_ix := m_gen_inp_ix st;
     m_evl_inp_ix := m_evl_inp_ix st; m_gen_out_ix := m_gen_out_ix st;
     m_evl_out_ix := m_evl_out_ix st; m_o_bufr := m_o_bufr st; m_i_bufr := m_i_bufr st;
     m_i_bufr_ix := m_i_bufr_ix st; m_gen_inp_hash := m_gen_inp_hash st;
     m_clear_mask := m_clear_mask st; m_w := m_w st; m_gen_inp_decom := m_gen_inp_decom st;
     m_gen_inp_com := m_gen_inp_com st; m_evl_out := m_evl_out st;
     m_gen_out := m_gen_out st; m_bufr := m_bufr st; m_hash := m_hash st |}.

Definition set_m_gen_inp_ix (v : nat) (st : GarbledCct3) : GarbledCct3 :=
  {| m_R := m_R st; m_ot_keys := m_ot_keys st; m_gen_inp_mask := m_gen_inp_mask st;
     m_evl_inp := m_evl_inp st; m_prng := m_prng st; m_gate_ix := m_gate_ix st;
     m_gen_inp_hash_ix := m_gen_inp_hash_ix st; m_gen_inp_ix := v;
     m_evl_inp_ix := m_evl_inp_ix st; m_gen_out_ix := m_gen_out_ix st;
     m_evl_out_ix := m_evl_out_ix st; m_o_bufr := m_o_bufr st; m_i_bufr := m_i_bufr st;
     m_i_bufr_ix := m_i_bufr_ix st; m_gen_inp_hash := m_gen_inp_hash st;
     m_clear_mask := m_clear_mask st; m_w := m_w st; m_gen_inp_decom := m_gen_inp_decom st;
     m_gen_inp_com := m_gen_inp_com st; m_evl_out := m_evl_out st;
     m_gen_out := m_gen_out st; m_bufr := m_bufr st; m_hash := m_hash st |}.

Definition set_m_evl_inp_ix (v : nat) (st : GarbledCct3) : GarbledCct3 :=
  {| m_R := m_R st; m_ot_keys := m_ot_keys st; m_gen_inp_mask := m_gen_inp_mask st;
     m_evl_inp := m_evl_inp st; m_prng := m_prng st; m_gate_ix := m_gate_ix st;
     m_gen_inp_hash_ix := m_gen_inp_hash_ix st; m_gen_inp_ix := m_gen_inp_ix st;
     m_evl_inp_ix := v; m_gen_out_ix := m_gen_out_ix st; m_evl_out_ix := m_evl_out_ix st;
     m_o_bufr := m_o_bufr st; m_i_bufr := m_i_bufr st; m_i_bufr_ix := m_i_bufr_ix st;
     m_gen_inp_hash := m_gen_inp_hash st; m_clear_mask := m_clear_mask st; m_w := m_w st;
     m_gen_inp_decom := m_gen_inp_decom st; m_gen_inp_com := m_gen_inp_com st;
     m_evl_out := m_evl_out st; m_gen_out := m_gen_out st; m_bufr := m_bufr st;
     m_hash := m_hash st |}.

Definition set_m_gen_out_ix (v : nat) (st : GarbledCct3) : GarbledCct3 :=
  {| m_R := m_R st; m_ot_keys := m_ot_keys st; m_gen_inp_mask := m_gen_inp_mask st;
     m_evl_inp := m_evl_inp st; m_prng := m_prng st; m_gate_ix := m_gate_ix st;
     m_gen_inp_hash_ix := m_gen_inp_hash_ix st; m_gen_inp_ix := m_gen_inp_ix st;
     m_evl_inp_ix := m_evl_inp_ix st; m_gen_out_ix := v; m_evl_out_ix := m_evl_out_ix st;
     m_o_bufr := m_o_bufr st; m_i_bufr := m_i_bufr st; m_i_bufr_ix := m_i_bufr_ix st;
     m_gen_inp_hash := m_gen_inp_hash st; m_clear_mask := m_clear_mask st; m_w := m_w st;
     m_gen_inp_decom := m_gen_inp_decom st; m_gen_inp_com := m_gen_inp_com st;
     m_evl_out := m_evl_out st; m_gen_out := m_gen_out st; m_bufr := m_bufr st;
     m_hash := m_hash st |}.

Definition set_m_evl_out_ix (v : nat) (st : GarbledCct3) : GarbledCct3 :=
  {| m_R := m_R st; m_ot_keys := m_ot_keys st; m_gen_inp_mask := m_gen_inp_mask st;
     m_evl_inp := m_evl_inp st; m_prng := m_prng st; m_gate_ix := m_gate_ix st;
     m_gen_inp_hash_ix := m_gen_inp_hash_ix st; m_gen_inp_ix := m_gen_inp_ix st;
     m_evl_inp_ix := m_evl_inp_ix st; m_gen_out_ix := m_gen_out_ix st; m_evl_out_ix := v;
     m_o_bufr := m_o_bufr st; m_i_bufr := m_i_bufr st; m_i_bufr_ix := m_i_bufr_ix st;
     m_gen_inp_hash := m_gen_inp_hash st; m_clear_mask := m_clear_mask st; m_w := m_w st;
     m_gen_inp_decom := m_gen_inp_decom st; m_gen_inp_com := m_gen_inp_com st;
     m_evl_out := m_evl_out st; m_gen_out := m_gen_out st; m_bufr := m_bufr st;
     m_hash := m_hash st |}.

Definition set_m_o_bufr (v : Bytes) (st : GarbledCct3) : GarbledCct3 :=
  {| m_R := m_R st; m_ot_keys := m_ot_keys st; m_gen_inp_mask := m_gen_inp_mask st;
     m_evl_inp := m_evl_inp st; m_prng := m_prng st; m_gate_ix := m_gate_ix st;
     m_gen_inp_hash_ix := m_gen_inp_hash_ix st; m_gen_inp_ix := m_gen_inp_ix st;
     m_evl_inp_ix := m_evl_inp_ix st; m_gen_out_ix := m_gen_out_ix st;
     m_evl_out_ix := m_evl_out_ix st; m_o_bufr := v; m_i_bufr := m_i_bufr st;
     m_i_bufr_ix := m_i_bufr_ix st; m_gen_inp_hash := m_gen_inp_hash st;
     m_clear_mask := m_clear_mask st; m_w := m_w st; m_gen_inp_decom := m_gen_inp_decom st;
     m_gen_inp_com := m_gen_inp_com st; m_evl_out := m_evl_out st;
     m_gen_out := m_gen_out st; m_bufr := m_bufr st; m_hash := m_hash st |}.

Definition set_m_i_bufr (v : Bytes) (st : GarbledCct3) : GarbledCct3 :=
  {| m_R := m_R st; m_ot_keys := m_ot_keys st; m_gen_inp_mask := m_gen_inp_mask st;
     m_evl_inp := m_evl_inp st; m_prng := m_prng st; m_gate_ix := m_gate_ix st;
     m_gen_inp_hash_ix := m_gen_inp_hash_ix st; m_gen_inp_ix := m_gen_inp_ix st;
     m_evl_inp_ix := m_evl_inp_ix st; m_gen_out_ix := m_gen_out_ix st;
     m_evl_out_ix := m_evl_out_ix st; m_o_bufr := m_o_bufr st; m_i_bufr := v;
     m_i_bufr_ix := m_i_bufr_ix st; m_gen_inp_hash := m_gen_inp_hash st;
     m_clear_mask := m_clear_mask st; m_w := m_w st; m_gen_inp_decom := m_gen_inp_decom st;
     m_gen_inp_com := m_gen_inp_com st; m_evl_out := m_evl_out st;
     m_gen_out := m_gen_out st; m_bufr := m_bufr st; m_hash := m_hash st |}.

Definition set_m_i_bufr_ix (v : nat) (st : GarbledCct3) : GarbledCct3 :=
  {| m_R := m_R st; m_ot_keys := m_ot_keys st; m_gen_inp_mask := m_gen_inp_mask st;
     m_evl_inp := m_evl_inp st; m_prng := m_prng st; m_gate_ix := m_gate_ix st;
     m_gen_inp_hash_ix := m_gen_inp_hash_ix st; m_gen_inp_ix := m_gen_inp_ix st;
     m_evl_inp_ix := m_evl_inp_ix st; m_gen_out_ix := m_gen_out_ix st;
     m_evl_out_ix := m_evl_out_ix st; m_o_bufr := m_o_bufr st; m_i_bufr := m_i_bufr st;
     m_i_bufr_ix := v; m_gen_inp_hash := m_gen_inp_hash st;
     m_clear_mask := m_clear_mask st; m_w := m_w st; m_gen_inp_decom := m_gen_inp_decom st;
     m_gen_inp_com := m_gen_inp_com st; m_evl_out := m_evl_out st;
     m_gen_out := m_gen_out st; m_bufr := m_bufr st; m_hash := m_hash st |}.

Definition set_m_gen_inp_hash (v : Bytes) (st : GarbledCct3) : GarbledCct3 :=
  {| m_R := m_R st; m_ot_keys := m_ot_keys st; m_gen_inp_mask := m_gen_inp_mask st;
     m_evl_inp := m_evl_inp st; m_prng := m_prng st; m_gate_ix := m_gate_ix st;
     m_gen_inp_hash_ix := m_gen_inp_hash_ix st; m_gen_inp_ix := m_gen_inp_ix st;
     m_evl_inp_ix := m_evl_inp_ix st; m_gen_out_ix := m_gen_out_ix st;
     m_evl_out_ix := m_evl_out_ix st; m_o_bufr := m_o_bufr st; m_i_bufr := m_i_bufr st;
     m_i_bufr_ix := m_i_bufr_ix st; m_gen_inp_hash := v; m_clear_mask := m_clear_mask st;
     m_w := m_w st; m_gen_inp_decom := m_gen_inp_decom st;
     m_gen_inp_com := m_gen_inp_com st; m_evl_out := m_evl_out st;
     m_gen_out := m_gen_out st; m_bufr := m_bufr st; m_hash := m_hash st |}.

Definition set_m_clear_mask (v : Z) (st : GarbledCct3) : GarbledCct3 :=
  {| m_R := m_R st; m_ot_keys := m_ot_keys st; m_gen_inp_mask := m_gen_inp_mask st;
     m_evl_inp := m_evl_inp st; m_prng := m_prng st; m_gate_ix := m_gate_ix st;
     m_gen_inp_hash_ix := m_gen_inp_hash_ix st; m_gen_inp_ix := m_gen_inp_ix st;
     m_evl_inp_ix := m_evl_inp_ix st; m_gen_out_ix := m_gen_out_ix st;
     m_evl_out_ix := m_evl_out_ix st; m_o_bufr := m_o_bufr st; m_i_bufr := m_i_bufr st;
     m_i_bufr_ix := m_i_bufr_ix st; m_gen_inp_hash := m_gen_inp_hash st; m_clear_mask := v;
     m_w := m_w st; m_gen_inp_decom := m_gen_inp_decom st;
     m_gen_inp_com := m_gen_inp_com st; m_evl_out := m_evl_out st;
     m_gen_out := m_gen_out st; m_bufr := m_bufr st; m_hash := m_hash st |}.

Definition set_m_w (v : list Z) (st : GarbledCct3) : GarbledCct3 :=
  {| m_R := m_R st; m_ot_keys := m_ot_keys st; m_gen_inp_mask := m_gen_inp_mask st;
     m_evl_inp := m_evl_inp st; m_prng := m_prng st; m_gate_ix := m_gate_ix st;
     m_gen_inp_hash_ix := m_gen_inp_hash_ix st; m_gen_inp_ix := m_gen_inp_ix st;
     m_evl_inp_ix := m_evl_inp_ix st; m_gen_out_ix := m_gen_out_ix st;
     m_evl_out_ix := m_evl_out_ix st; m_o_bufr := m_o_bufr st; m_i_bufr := m_i_bufr st;
     m_i_bufr_ix := m_i_bufr_ix st; m_gen_inp_hash := m_gen_inp_hash st;
     m_clear_mask := m_clear_mask st; m_w := v; m_gen_inp_decom := m_gen_inp_decom st;
     m_gen_inp_com := m_gen_inp_com st; m_evl_out := m_evl_out st;
     m_gen_out := m_gen_out st; m_bufr := m_bufr st; m_hash := m_hash st |}.

Definition set_m_gen_inp_decom (v : list Bytes) (st : GarbledCct3) : GarbledCct3 :=
  {| m_R := m_R st; m_ot_keys := m_ot_keys st; m_gen_inp_mask := m_gen_inp_mask st;
     m_evl_inp := m_evl_inp st; m_prng := m_prng st; m_gate_ix := m_gate_ix st;
     m_gen_inp_hash_ix := m_gen_inp_hash_ix st; m_gen_inp_ix := m_gen_inp_ix st;
     m_evl_inp_ix := m_evl_inp_ix st; m_gen_out_ix := m_gen_out_ix st;
     m_evl_out_ix := m_evl_out_ix st; m_o_bufr := m_o_bufr st; m_i_bufr := m_i_bufr st;
     m_i_bufr_ix := m_i_bufr_ix st; m_gen_inp_hash := m_gen_inp_hash st;
     m_clear_mask := m_clear_mask st; m_w := m_w st; m_gen_inp_decom := v;
     m_gen_inp_com := m_gen_inp_com st; m_evl_out := m_evl_out st;
     m_gen_out := m_gen_out st; m_bufr := m_bufr st; m_hash := m_hash st |}.

Definition set_m_gen_inp_com (v : list Bytes) (st : GarbledCct3) : GarbledCct3 :=
  {| m_R := m_R st; m_ot_keys := m_ot_keys st; m_gen_inp_mask := m_gen_inp_mask st;
     m_evl_inp := m_evl_inp st; m_prng := m_prng st; m_gate_ix := m_gate_ix st;
     m_gen_inp_hash_ix := m_gen_inp_hash_ix st; m_gen_inp_ix := m_gen_inp_ix st;
     m_evl_inp_ix := m_evl_inp_ix st; m_gen_out_ix := m_gen_out_ix st;
     m_evl_out_ix := m_evl_out_ix st; m_o_bufr := m_o_bufr st; m_i_bufr := m_i_bufr st;
     m_i_bufr_ix := m_i_bufr_ix st; m_gen_inp_hash := m_gen_inp_hash st;
     m_clear_mask := m_clear_mask st; m_w := m_w st; m_gen_inp_decom := m_gen_inp_decom st;
     m_gen_inp_com := v; m_evl_out := m_evl_out st; m_gen_out := m_gen_out st;
     m_bufr := m_bufr st; m_hash := m_hash st |}.

Definition set_m_evl_out (v : Bytes) (st : GarbledCct3) : GarbledCct3 :=
  {| m_R := m_R st; m_ot_keys := m_ot_keys st; m_gen_inp_mask := m_gen_inp_mask st;
     m_evl_inp := m_evl_inp st; m_prng := m_prng st; m_gate_ix := m_gate_ix st;
     m_gen_inp_hash_ix := m_gen_inp_hash_ix st; m_gen_inp_ix := m_gen_inp_ix st;
     m_evl_inp_ix := m_evl_inp_ix st; m_gen_out_ix := m_gen_out_ix st;
     m_evl_out_ix := m_evl_out_ix st; m_o_bufr := m_o_bufr st; m_i_bufr := m_i_bufr st;
     m_i_bufr_ix := m_i_bufr_ix st; m_gen_inp_hash := m_gen_inp_hash st;
     m_clear_mask := m_clear_mask st; m_w := m_w st; m_gen_inp_decom := m_gen_inp_decom st;
     m_gen_inp_com := m_gen_inp_com st; m_evl_out := v; m_gen_out := m_gen_out st;
     m_bufr := m_bufr st; m_hash := m_hash st |}.

Definition set_m_gen_out (v : Bytes) (st : GarbledCct3) : GarbledCct3 :=
  {| m_R := m_R st; m_ot_keys := m_ot_keys st; m_gen_inp_mask := m_gen_inp_mask st;
     m_evl_inp := m_evl_inp st; m_prng := m_prng st; m_gate_ix := m_gate_ix st;
     m_gen_inp_hash_ix := m_gen_inp_hash_ix st; m_gen_inp_ix := m_gen_inp_ix st;
     m_evl_inp_ix := m_evl_inp_ix st; m_gen_out_ix := m_gen_out_ix st;
     m_evl_out_ix := m_evl_out_ix st; m_o_bufr := m_o_bufr st; m_i_bufr := m_i_bufr st;
     m_i_bufr_ix := m_i_bufr_ix st; m_gen_inp_hash := m_gen_inp_hash st;
     m_clear_mask := m_clear_mask st; m_w := m_w st; m_gen_inp_decom := m_gen_inp_decom st;
     m_gen_inp_com := m_gen_inp_com st; m_evl_out := m_evl_out st; m_gen_out := v;
     m_bufr := m_bufr st; m_hash := m_hash st |}.

Definition set_m_bufr (v : Bytes) (st : GarbledCct3) : GarbledCct3 :=
  {| m_R := m_R st; m_ot_keys := m_ot_keys st; m_gen_inp_mask := m_gen_inp_mask st;
     m_evl_inp := m_evl_inp st; m_prng := m_prng st; m_gate_ix := m_gate_ix st;
     m_gen_inp_hash_ix := m_gen_inp_hash_ix st; m_gen_inp_ix := m_gen_inp_ix st;
     m_evl_inp_ix := m_evl_inp_ix st; m_gen_out_ix := m_gen_out_ix st;
     m_evl_out_ix := m_evl_out_ix st; m_o_bufr := m_o_bufr st; m_i_bufr := m_i_bufr st;
     m_i_bufr_ix := m_i_bufr_ix st; m_gen_inp_hash := m_gen_inp_hash st;
     m_clear_mask := m_clear_mask st; m_w := m_w st; m_gen_inp_decom := m_gen_inp_decom st;
     m_gen_inp_com := m_gen_inp_com st; m_evl_out := m_evl_out st;
     m_gen_out := m_gen_out st; m_bufr := v; m_hash := m_hash st |}.

Definition set_m_hash (v : Bytes) (st : GarbledCct3) : GarbledCct3 :=
  {| m_R := m_R st; m_ot_keys := m_ot_keys st; m_gen_inp_mask := m_gen_inp_mask st;
     m_evl_inp := m_evl_inp st; m_prng := m_prng st; m_gate_ix := m_gate_ix st;
     m_gen_inp_hash_ix := m_gen_inp_hash_ix st; m_gen_inp_ix := m_gen_inp_ix st;
     m_evl_inp_ix := m_evl_inp_ix st; m_gen_out_ix := m_gen_out_ix st;
     m_evl_out_ix := m_evl_out_ix st; m_o_bufr := m_o_bufr st; m_i_bufr := m_i_bufr st;
     m_i_bufr_ix := m_i_bufr_ix st; m_gen_inp_hash := m_gen_inp_hash st;
     m_clear_mask := m_clear_mask st; m_w := m_w st; m_gen_inp_decom := m_gen_inp_decom st;
     m_gen_inp_com := m_gen_inp_com st; m_evl_out := m_evl_out st;
     m_gen_out := m_gen_out st; m_bufr := m_bufr st; m_hash := v |}.


(** [init()]. *)
Definition init (st : GarbledCct3) : GarbledCct3 :=
  let tmp := fold_left (fun tmp ix => set_ith_bit tmp ix true) (seq 0 Env_k) (zeros 16) in
  st |> set_m_gate_ix 0%Z
     |> set_m_gen_inp_hash_ix 0
     |> set_m_gen_inp_ix 0
     |> set_m_evl_inp_ix 0
     |> set_m_gen_out_ix 0
     |> set_m_evl_out_ix 0
     |> set_m_o_bufr []
     |> set_m_i_bufr []
     |> set_m_gen_inp_hash (resize key_size_in_bytes (m_gen_inp_hash st))
     |> set_m_clear_mask (loadu tmp).

(** [new __m128i[Env::circuit().m_cnt]] when [m_w] is null; [alloc] is the
    array the allocator returns: [m_cnt] vectors of indeterminate contents. *)
Definition alloc_w (alloc : list Z) (st : GarbledCct3) : GarbledCct3 :=
  match m_w st with
  | [] => set_m_w alloc st
  | _ => st
  end.

Definition gen_init (alloc : list Z) (st : GarbledCct3)
    (ot_keys : list Bytes) (gen_inp_mask seed : Bytes) : GarbledCct3 :=
  (* R is a random k-bit string whose 0-th bit has to be 1 *)
  let r := Prng_rand (Prng_srand (m_prng st) seed) Env_k in
  let tmp := r.1 in
  let tmp := set_ith_bit tmp 0 true in
  let tmp := resize 16 tmp in
  let st := st |> set_m_ot_keys ot_keys
               |> set_m_gen_inp_mask gen_inp_mask
               |> set_m_prng r.2
               |> set_m_R (loadu tmp) in
  let st := alloc_w alloc (init st) in
  set_m_gen_inp_decom (vec_resize [] (gen_inp_cnt * 2) (m_gen_inp_decom st)) st.

Definition com_init (alloc : list Z) (st : GarbledCct3)
    (ot_keys : list Bytes) (gen_inp_mask seed : Bytes) : GarbledCct3 :=
  gen_init alloc st ot_keys gen_inp_mask seed
    |> set_m_bufr []
    |> set_m_hash [].

Definition evl_init (alloc : list Z) (st : GarbledCct3)
    (ot_keys : list Bytes) (masked_gen_inp evl_inp : Bytes) : GarbledCct3 :=
  let st := init st in
  let st := st |> set_m_ot_keys ot_keys
               |> set_m_gen_inp_mask masked_gen_inp
               |> set_m_evl_inp evl_inp
               |> set_m_evl_out (resize ((evl_out_cnt + 7) / 8) (m_evl_out st))
               |> set_m_gen_out (resize ((gen_out_cnt + 7) / 8) (m_gen_out st)) in
  let st := alloc_w alloc st in
  st |> set_m_bufr []
     |> set_m_hash []
     |> set_m_gen_inp_com (vec_resize [] gen_inp_cnt (m_gen_inp_com st))
     |> set_m_gen_inp_decom (vec_resize [] gen_inp_cnt (m_gen_inp_decom st)).

(** *** Generator

    A kernel reads the members it needs, computes the new values of the
    members it assigns in the order of the source, and writes them back. *)

(** What a generator kernel leaves behind: the label array it built ([a] for
    an input gate, [Z] for an internal gate), the local [current_zero_key]
    and the object. *)
Record GenOut : Type := {
  out_Z : bool -> Z;
  out_key : Z;
  out_st : GarbledCct3
}.

(** [storeu(tmp, x)] followed by
    [m_o_bufr.insert(m_o_bufr.end(), tmp.begin(), tmp.begin()+Env::key_size_in_bytes())]:
    the bytes appended. *)
Definition key_bytes (x : Z) : Bytes := take key_size_in_bytes (storeu x).

Definition gen_GEN_INP (st : GarbledCct3) : GenOut :=
  let ix := m_gen_inp_ix st in
  let r := Prng_rand (m_prng st) Env_k in
  let tmp := resize 16 r.1 in
  let current_zero_key := loadu tmp in
  let a := arr2 current_zero_key (xor_si128 current_zero_key (m_R st)) in
  let bit := get_ith_bit (m_gen_inp_mask st) ix in
  let tmp := storeu (a bit) in
  let r := Prng_rand r.2 Env_k in
  let decom := <[2 * ix + 0 := take key_size_in_bytes tmp ++ r.1]> (m_gen_inp_decom st) in
  let tmp := storeu (a (negb bit)) in
  let r := Prng_rand r.2 Env_k in
  let decom := <[2 * ix + 1 := take key_size_in_bytes tmp ++ r.1]> decom in
  let o_bufr := m_o_bufr st ++ Bytes_hash (decom !!! (2 * ix + 0)) Env_k in
  let o_bufr := o_bufr ++ Bytes_hash (decom !!! (2 * ix + 1)) Env_k in
  {| out_Z := a; out_key := current_zero_key;
     out_st := st |> set_m_prng r.2
                  |> set_m_gen_inp_decom decom
                  |> set_m_o_bufr o_bufr
                  |> set_m_gen_inp_ix (ix + 1) |}.

Definition gen_EVL_INP (st : GarbledCct3) : GenOut :=
  let ix := m_evl_inp_ix st in
  let r := Prng_rand (m_prng st) Env_k in
  let tmp := resize 16 r.1 in
  let current_zero_key := loadu tmp in
  let tmp := resize 16 (m_ot_keys st !!! (2 * ix + 0)) in
  let a0 := loadu tmp in
  let tmp := resize 16 (m_ot_keys st !!! (2 * ix + 1)) in
  let a1 := loadu tmp in
  let a0 := xor_si128 a0 current_zero_key in
  let a1 := xor_si128 a1 (xor_si128 current_zero_key (m_R st)) in
  let o_bufr := m_o_bufr st ++ key_bytes a0 in
  let o_bufr := o_bufr ++ key_bytes a1 in
  {| out_Z := arr2 a0 a1; out_key := current_zero_key;
     out_st := st |> set_m_prng r.2
                  |> set_m_o_bufr o_bufr
                  |> set_m_evl_inp_ix (ix + 1) |}.

(** The 0-th entry of an internal gate: [C] is its masked KDF output and
    [bit] the table entry at the de-garbled index. The result is the array
    [Z], the local [current_zero_key], the PRNG and the bytes appended. With
    [GRR] the entry becomes the output label [Z[bit]] and nothing is
    appended; without, [Z[0]] is sampled and the entry is appended. The
    [#else] part never assigns [current_zero_key], which then is whatever
    the uninitialised local holds. *)
Definition gen_entry0 (C : Z) (bit : bool) (st : GarbledCct3)
    : (bool -> Z) * Z * Prng * Bytes :=
  if GRR then
    let Z := arr2_at bit C (xor_si128 C (m_R st)) in
    (Z, Z false, m_prng st, [])
  else
    let r := Prng_rand (m_prng st) Env_k in
    let tmp := resize 16 r.1 in
    let Z0 := loadu tmp in
    let Z := arr2 Z0 (xor_si128 Z0 (m_R st)) in
    (Z, indeterminate_m128i, r.2, key_bytes (xor_si128 C (Z bit))).

Definition gen_arity2 (current_gate : Gate) (st : GarbledCct3) : GenOut :=
  let inputs := m_input_idx current_gate in
  let R := m_R st in
  let aes_plaintext := set1_epi64x (m_gate_ix st) in
  let X0 := m_w st !!! (inputs !!! 0) in
  let Y0 := m_w st !!! (inputs !!! 1) in
  let X := arr2 X0 (xor_si128 X0 R) in
  let Y := arr2 Y0 (xor_si128 Y0 R) in
  let perm_x := perm_bit (X false) in
  let perm_y := perm_bit (Y false) in
  let de_garbled_ix := 2 * b2n perm_y + b2n perm_x in
  (* encrypt the 0-th entry : (X[x], Y[y]) *)
  let aes_key0 := X perm_x in
  let aes_key1 := Y perm_y in
  let C := and_si128 (KDF256 aes_plaintext aes_key0 aes_key1) (m_clear_mask st) in
  let bit := table_at current_gate de_garbled_ix in
  let e0 := gen_entry0 C bit st in
  let Z := e0.1.1.1 in
  let o_bufr := m_o_bufr st ++ e0.2 in
  (* encrypt the 1st entry : (X[1-x], Y[y]) *)
  let aes_key0 := xor_si128 aes_key0 R in
  let C := and_si128 (KDF256 aes_plaintext aes_key0 aes_key1) (m_clear_mask st) in
  let bit := table_at current_gate (Nat.lxor 1 de_garbled_ix) in
  let o_bufr := o_bufr ++ key_bytes (xor_si128 C (Z bit)) in
  (* encrypt the 2nd entry : (X[x], Y[1-y]) *)
  let aes_key0 := xor_si128 aes_key0 R in
  let aes_key1 := xor_si128 aes_key1 R in
  let C := and_si128 (KDF256 aes_plaintext aes_key0 aes_key1) (m_clear_mask st) in
  let bit := table_at current_gate (Nat.lxor 2 de_garbled_ix) in
  let o_bufr := o_bufr ++ key_bytes (xor_si128 C (Z bit)) in
  (* encrypt the 3rd entry : (X[1-x], Y[1-y]) *)
  let aes_key0 := xor_si128 aes_key0 R in
  let C := and_si128 (KDF256 aes_plaintext aes_key0 aes_key1) (m_clear_mask st) in
  let bit := table_at current_gate (Nat.lxor 3 de_garbled_ix) in
  let o_bufr := o_bufr ++ key_bytes (xor_si128 C (Z bit)) in
  {| out_Z := Z; out_key := e0.1.1.2;
     out_st := st |> set_m_prng e0.1.2 |> set_m_o_bufr o_bufr |}.

Definition gen_arity1 (current_gate : Gate) (st : GarbledCct3) : GenOut :=
  let inputs := m_input_idx current_gate in
  let R := m_R st in
  let aes_plaintext := set1_epi64x (m_gate_ix st) in
  let X0 := m_w st !!! (inputs !!! 0) in
  let X := arr2 X0 (xor_si128 X0 R) in
  let perm_x := perm_bit (X false) in
  (* 0-th entry : X[x] *)
  let aes_key := X perm_x in
  let C := and_si128 (KDF128 aes_plaintext aes_key) (m_clear_mask st) in
  let bit := table_at current_gate (b2n perm_x) in
  let e0 := gen_entry0 C bit st in
  let Z := e0.1.1.1 in
  let o_bufr := m_o_bufr st ++ e0.2 in
  (* 1-st entry : X[1-x] *)
  let aes_key := xor_si128 aes_key R in
  let C := and_si128 (KDF128 aes_plaintext aes_key) (m_clear_mask st) in
  let bit := table_at current_gate (Nat.lxor 1 (b2n perm_x)) in
  let o_bufr := o_bufr ++ key_bytes (xor_si128 C (Z bit)) in
  {| out_Z := Z; out_key := e0.1.1.2;
     out_st := st |> set_m_prng e0.1.2 |> set_m_o_bufr o_bufr |}.

(** The free-XOR case of both parties:
    [inputs.size() == 2 ? xor(m_w[inputs[0]], m_w[inputs[1]]) : m_w[inputs[0]]]. *)
Definition free_xor_key (current_gate : Gate) (st : GarbledCct3) : Z :=
  let inputs := m_input_idx current_gate in
  if length inputs =? 2
  then xor_si128 (m_w st !!! (inputs !!! 0)) (m_w st !!! (inputs !!! 1))
  else m_w st !!! (inputs !!! 0).

(** [m_o_bufr.push_back(_mm_extract_epi8(current_zero_key, 0) & 0x01)] for a
    gate tagged [EVL_OUT] or [GEN_OUT]: the bytes appended. *)
Definition gen_out_tag (current_gate : Gate) (current_zero_key : Z) : Bytes :=
  match m_tag current_gate with
  | EVL_OUT => [byte.of_Z (Z.b2z (perm_bit current_zero_key))]
  | GEN_OUT => [byte.of_Z (Z.b2z (perm_bit current_zero_key))]
  | _ => []
  end.

(** The rows of a gate that is not an input gate: free, 2-arity or
    1-arity. The source asserts [inputs.size() == 1 || inputs.size() == 2]. *)
Definition gen_rows (current_gate : Gate) (st : GarbledCct3) : GenOut :=
  let inputs := m_input_idx current_gate in
  if FREE_XOR && is_xor current_gate then
    let current_zero_key := free_xor_key current_gate st in
    {| out_Z := arr2 current_zero_key (xor_si128 current_zero_key (m_R st));
       out_key := current_zero_key; out_st := st |}
  else if length inputs =? 2 then gen_arity2 current_gate st
  else gen_arity1 current_gate st.

(** The [else] branch of [gen_next_gate]: the rows, then the tagging byte of
    an output gate. *)
Definition gen_internal (current_gate : Gate) (st : GarbledCct3) : GenOut :=
  let r := gen_rows current_gate st in
  let st := out_st r in
  {| out_Z := out_Z r; out_key := out_key r;
     out_st := set_m_o_bufr (m_o_bufr st ++ gen_out_tag current_gate (out_key r)) st |}.

Definition gen_kernel (st : GarbledCct3) (current_gate : Gate) : GenOut :=
  match m_tag current_gate with
  | GEN_INP => gen_GEN_INP st
  | EVL_INP => gen_EVL_INP st
  | _ => gen_internal current_gate st
  end.

(** [m_gate_ix] is the 64-bit counter that the tweak broadcasts. *)
Definition gen_next_gate (st : GarbledCct3) (current_gate : Gate) : GarbledCct3 :=
  let r := gen_kernel st current_gate in
  let st := out_st r in
  st |> set_m_w (<[m_idx current_gate := out_key r]> (m_w st))
     |> set_m_gate_ix ((m_gate_ix st + 1) mod 2 ^ 64)%Z.

(** *** Running hash *)

Definition update_hash (st : GarbledCct3) (data : Bytes) : GarbledCct3 :=
  let bufr := m_bufr st ++ data in
  if RAND_SEED && (Z.of_nat (length bufr) >? CIRCUIT_HASH_BUFFER_SIZE)%Z
  then (* hash the circuit by chunks *)
    st |> set_m_hash (m_hash st ++ bufr) |> set_m_bufr []
  else set_m_bufr bufr st.

Definition com_next_gate (st : GarbledCct3) (current_gate : Gate) : GarbledCct3 :=
  let st := gen_next_gate st current_gate in
  let st := update_hash st (m_o_bufr st) in
  set_m_o_bufr [] st.

Definition pass_check (st : GarbledCct3) : bool :=
  fold_left
    (fun pass_chk ix =>
       pass_chk &&
       bool_decide (Bytes_hash (m_gen_inp_decom st !!! ix) Env_k = m_gen_inp_com st !!! ix))
    (seq 0 gen_inp_cnt) true.

(** *** Evaluator

    A kernel yields [current_key] and the object; the kernels of the
    internal gates, which only move the read iterator, yield [current_key]
    and the new offset of the iterator. *)

(** [tmp.assign(it, it+Env::key_size_in_bytes()); tmp.resize(16, 0);
    _mm_loadu_si128(&tmp[0])] for the iterator at offset [it] of [bufr]. *)
Definition load_key_at (bufr : Bytes) (it : nat) : Z :=
  loadu (resize 16 (slice bufr it key_size_in_bytes)).

Definition evl_GEN_INP (st : GarbledCct3) : Z * GarbledCct3 :=
  let ix := m_gen_inp_ix st in
  let bit := get_ith_bit (m_gen_inp_mask st) ix in
  let it := m_i_bufr_ix st + b2n bit * key_size_in_bytes in
  let com := <[ix := slice (m_i_bufr st) it key_size_in_bytes]> (m_gen_inp_com st) in
  let tmp := take key_size_in_bytes (m_gen_inp_decom st !!! ix) in
  let tmp := resize 16 tmp in
  let current_key := loadu tmp in
  (current_key,
   st |> set_m_gen_inp_com com
      |> set_m_i_bufr_ix (m_i_bufr_ix st + key_size_in_bytes * 2)
      |> set_m_gen_inp_ix (ix + 1)).

Definition evl_EVL_INP (st : GarbledCct3) : Z * GarbledCct3 :=
  let ix := m_evl_inp_ix st in
  let bit := get_ith_bit (m_evl_inp st) ix in
  let it := m_i_bufr_ix st + b2n bit * key_size_in_bytes in
  let tmp := resize 16 (m_ot_keys st !!! ix) in
  let current_key := loadu tmp in
  let a := load_key_at (m_i_bufr st) it in
  let current_key := xor_si128 current_key a in
  (current_key,
   st |> set_m_i_bufr_ix (m_i_bufr_ix st + key_size_in_bytes * 2)
      |> set_m_evl_inp_ix (ix + 1)).

Definition evl_arity2 (current_gate : Gate) (st : GarbledCct3) : Z * nat :=
  let inputs := m_input_idx current_gate in
  let aes_plaintext := set1_epi64x (m_gate_ix st) in
  let aes_key0 := m_w st !!! (inputs !!! 0) in
  let aes_key1 := m_w st !!! (inputs !!! 1) in
  let perm_x := perm_bit aes_key0 in
  let perm_y := perm_bit aes_key1 in
  let C := and_si128 (KDF256 aes_plaintext aes_key0 aes_key1) (m_clear_mask st) in
  let garbled_ix := 2 * b2n perm_y + b2n perm_x in
  if GRR then
    let current_key :=
      if garbled_ix =? 0 then C
      else
        let it := m_i_bufr_ix st + (garbled_ix - 1) * key_size_in_bytes in
        xor_si128 C (load_key_at (m_i_bufr st) it) in
    (current_key, m_i_bufr_ix st + 3 * key_size_in_bytes)
  else
    let it := m_i_bufr_ix st + garbled_ix * key_size_in_bytes in
    let current_key := load_key_at (m_i_bufr st) it in
    let current_key := xor_si128 current_key C in
    (current_key, m_i_bufr_ix st + 4 * key_size_in_bytes).

(** The [#else] part of the 1-arity evaluator (lines 449-457). It names a
    [garbled_ix] that is declared only inside the 2-arity block, so the
    source does not compile without [GRR]. The offset is read here as
    [perm_x], the only index the branch computes; the iterator then
    advances by two keys, as line 456 has it. No statement below depends on
    the value read in this branch. *)
Definition evl_arity1_no_GRR (C : Z) (perm_x : bool) (st : GarbledCct3) : Z * nat :=
  let it := m_i_bufr_ix st + b2n perm_x * key_size_in_bytes in
  let current_key := load_key_at (m_i_bufr st) it in
  let current_key := xor_si128 current_key C in
  (current_key, m_i_bufr_ix st + 2 * key_size_in_bytes).

Definition evl_arity1 (current_gate : Gate) (st : GarbledCct3) : Z * nat :=
  let inputs := m_input_idx current_gate in
  let aes_plaintext := set1_epi64x (m_gate_ix st) in
  let aes_key := m_w st !!! (inputs !!! 0) in
  let C := and_si128 (KDF128 aes_plaintext aes_key) (m_clear_mask st) in
  let perm_x := perm_bit aes_key in
  if GRR then
    let current_key :=
      if perm_x then xor_si128 C (load_key_at (m_i_bufr st) (m_i_bufr_ix st)) else C in
    (current_key, m_i_bufr_ix st + key_size_in_bytes)
  else evl_arity1_no_GRR C perm_x st.

(** [out_bit = extract(current_key) & 1; out_bit ^= *m_i_bufr_ix], as the
    bit that [set_ith_bit] then writes; [tag] is the byte under the read
    iterator. *)
Definition out_bit (current_key : Z) (tag : byte) : bool :=
  Z.odd (Z.lxor (Z.b2z (perm_bit current_key)) (byte.unsigned tag)).

(** The rows of a gate that is not an input gate: free, 2-arity or
    1-arity. *)
Definition evl_rows (current_gate : Gate) (st : GarbledCct3) : Z * nat :=
  let inputs := m_input_idx current_gate in
  if FREE_XOR && is_xor current_gate then (free_xor_key current_gate st, m_i_bufr_ix st)
  else if length inputs =? 2 then evl_arity2 current_gate st
  else evl_arity1 current_gate st.

(** The [else] branch of [evl_next_gate]: the rows, then the tagging byte of
    an output gate. *)
Definition evl_internal (current_gate : Gate) (st : GarbledCct3) : Z * GarbledCct3 :=
  let r := evl_rows current_gate st in
  let current_key := r.1 in
  let it := r.2 in
  match m_tag current_gate with
  | EVL_OUT =>
      (current_key,
       st |> set_m_evl_out (set_ith_bit (m_evl_out st) (m_evl_out_ix st)
                              (out_bit current_key (m_i_bufr st !!! it)))
          |> set_m_i_bufr_ix (it + 1)
          |> set_m_evl_out_ix (m_evl_out_ix st + 1))
  | GEN_OUT =>
      (* TODO: Ki08 implementation *)
      (current_key,
       st |> set_m_gen_out (set_ith_bit (m_gen_out st) (m_gen_out_ix st)
                              (out_bit current_key (m_i_bufr st !!! it)))
          |> set_m_i_bufr_ix (it + 1)
          |> set_m_gen_out_ix (m_gen_out_ix st + 1))
  | _ => (current_key, set_m_i_bufr_ix it st)
  end.

Definition evl_kernel (st : GarbledCct3) (current_gate : Gate) : Z * GarbledCct3 :=
  match m_tag current_gate with
  | GEN_INP => evl_GEN_INP st
  | EVL_INP => evl_EVL_INP st
  | _ => evl_internal current_gate st
  end.

Definition evl_next_gate (st : GarbledCct3) (current_gate : Gate) : GarbledCct3 :=
  let r := evl_kernel st current_gate in
  let st := r.2 in
  let st := set_m_w (<[m_idx current_gate := r.1]> (m_w st)) st in
  let st := update_hash st (m_i_bufr st) in
  set_m_gate_ix ((m_gate_ix st + 1) mod 2 ^ 64)%Z st.

(** *** Input binding across circuit instances *)

(** The loop of [gen_next_gen_inp_com] over the generator-input wires. *)
Definition gen_inp_com_msg (gen_inp_mask : Bytes) (gen_inp_decom : list Bytes)
    (row : Bytes) : Bytes :=
  fold_left
    (fun msg jx =>
       if get_ith_bit row jx then
         let bit := get_ith_bit gen_inp_mask jx in
         xor_assign msg (gen_inp_decom !!! (2 * jx + b2n bit))
       else msg)
    (seq 0 gen_inp_cnt)
    (zeros (length (gen_inp_decom !!! 0))).

Definition gen_next_gen_inp_com (st : GarbledCct3) (row : Bytes) (kx : nat) : GarbledCct3 :=
  let r := Prng_rand (m_prng st) Env_k in
  let tmp := r.1 in
  let tmp := set_ith_bit tmp 0 false in
  let tmp := resize 16 tmp in
  let out_key0 := loadu tmp in
  let out_key1 := xor_si128 out_key0 (m_R st) in
  let msg := gen_inp_com_msg (m_gen_inp_mask st) (m_gen_inp_decom st) row in
  let aes_plaintext := set1_epi64x (Z.of_nat kx) in
  let tmp := resize 16 (take key_size_in_bytes msg) in
  let in_key0 := loadu tmp in
  let in_key1 := xor_si128 in_key0 (m_R st) in
  let C := and_si128 (KDF128 aes_plaintext in_key0) (m_clear_mask st) in
  let out_key0 := xor_si128 out_key0 C in
  let C := and_si128 (KDF128 aes_plaintext in_key1) (m_clear_mask st) in
  let out_key1 := xor_si128 out_key1 C in
  let out_key := arr2 out_key0 out_key1 in
  let bit := get_ith_bit msg 0 in
  let o_bufr := m_o_bufr st ++ key_bytes (out_key bit) in
  let o_bufr := o_bufr ++ key_bytes (out_key (negb bit)) in
  st |> set_m_prng r.2
     |> set_m_o_bufr o_bufr
     |> set_m_gen_inp_hash_ix (m_gen_inp_hash_ix st + 1).

(** The loop of [evl_next_gen_inp_com]. *)
Definition evl_inp_com_out (gen_inp_decom : list Bytes) (row : Bytes) : Bytes :=
  fold_left
    (fun out jx =>
       if get_ith_bit row jx then xor_assign out (gen_inp_decom !!! jx) else out)
    (seq 0 gen_inp_cnt)
    (zeros (length (gen_inp_decom !!! 0))).

Definition evl_next_gen_inp_com (st : GarbledCct3) (row : Bytes) (kx : nat) : GarbledCct3 :=
  let out := evl_inp_com_out (m_gen_inp_decom st) row in
  let bit := get_ith_bit out 0 in
  let it := m_i_bufr_ix st + b2n bit * key_size_in_bytes in
  let tmp := resize 16 (take key_size_in_bytes out) in
  let aes_key := loadu tmp in
  let aes_plaintext := set1_epi64x (Z.of_nat kx) in
  let C := and_si128 (KDF128 aes_plaintext aes_key) (m_clear_mask st) in
  let out_key := load_key_at (m_i_bufr st) it in
  let out_key := xor_si128 out_key C in
  let bit := perm_bit out_key in
  st |> set_m_gen_inp_hash (set_ith_bit (m_gen_inp_hash st) kx bit)
     |> set_m_i_bufr_ix (m_i_bufr_ix st + 2 * key_size_in_bytes)
     |> set_m_gen_inp_hash_ix (m_gen_inp_hash_ix st + 1).

(** *** The boundary with the transport *)

(** Modelled from the spec: the transport fills [in_buffer] between gates
    (the header's [recv], absent from [src/]): the buffer is replaced by the
    received bytes and the read iterator is put at its beginning. *)
Definition recv (st : GarbledCct3) (i_data : Bytes) : GarbledCct3 :=
  st |> set_m_i_bufr i_data |> set_m_i_bufr_ix 0.

(** Modelled from the spec: the transport drains [out_buffer] between gates
    (the header's [send], absent from [src/]): the bytes handed over, and
    the object with an empty [out_buffer]. *)
Definition send (st : GarbledCct3) : Bytes * GarbledCct3 :=
  (m_o_bufr st, set_m_o_bufr [] st).

End Engine.

Arguments GarbledCct3 {collab}.
Arguments GenOut {collab}.

Arguments get_ith_bit : simpl never.
Arguments set_ith_bit : simpl never.
Arguments resize : simpl never.
Arguments zeros : simpl never.
Arguments slice : simpl never.
Arguments xor_assign : simpl never.
Arguments loadu : simpl never.
Arguments storeu : simpl never.
Arguments xor_si128 : simpl never.
Arguments and_si128 : simpl never.
Arguments perm_bit : simpl never.
Arguments set1_epi64x : simpl never.
Arguments table_at : simpl never.
Arguments vec_resize : simpl never.
Arguments key_size_in_bytes : simpl never.
Arguments load_key_at : simpl never.
Arguments key_bytes : simpl never.
Arguments free_xor_key : simpl never.
Arguments gen_out_tag : simpl never.
Arguments out_bit : simpl never.
Arguments gen_inp_com_msg : simpl never.
Arguments evl_inp_com_out : simpl never.

(** ** The function a circuit computes *)

(** The plain evaluation of a circuit, gate by gate in the order given: the
    reference against which the garbled evaluation is compared. A wire holds
    a bit once a gate has written it. The [i]-th [GEN_INP] gate reads bit [i]
    of the generator's input, the [i]-th [EVL_INP] gate bit [i] of the
    evaluator's; every other gate looks its inputs up in its truth table, at
    index [x] for one input and [(y<<1)|x] for two. The values of the
    [EVL_OUT] gates, in order, are the evaluator's part of the result, those
    of the [GEN_OUT] gates the generator's. *)
Record Plain : Type := {
  p_wire : list (option bool);
  p_gen_inp_ix : nat;
  p_evl_inp_ix : nat;
  p_evl_out : list bool;
  p_gen_out : list bool
}.

Section PlainEval.

Context {env : Env}.

Definition plain_init : Plain :=
  {| p_wire := replicate m_cnt None; p_gen_inp_ix := 0; p_evl_inp_ix := 0;
     p_evl_out := []; p_gen_out := [] |}.

Definition plain_write (g : Gate) (v : bool) (p : Plain) : Plain :=
  {| p_wire := <[m_idx g := Some v]> (p_wire p);
     p_gen_inp_ix := p_gen_inp_ix p + (if Tag_eqb (m_tag g) GEN_INP then 1 else 0);
     p_evl_inp_ix := p_evl_inp_ix p + (if Tag_eqb (m_tag g) EVL_INP then 1 else 0);
     p_evl_out := p_evl_out p ++ (if Tag_eqb (m_tag g) EVL_OUT then [v] else []);
     p_gen_out := p_gen_out p ++ (if Tag_eqb (m_tag g) GEN_OUT then [v] else []) |}.

(** The value of wire [i], if a gate has written it. *)
Definition plain_read (p : Plain) (i : nat) : option bool :=
  match p_wire p !! i with Some (Some v) => Some v | _ => None end.

(** The output bit of a gate that is not an input gate; [None] when the gate
    is not well formed (arity other than 1 or 2, a table of the wrong size,
    an input wire that no earlier gate has written). *)
Definition plain_gate_value (p : Plain) (g : Gate) : option bool :=
  match m_input_idx g with
  | [i0] =>
      if length (m_table g) =? 2 then
        match plain_read p i0 with
        | Some x => Some (table_at g (b2n x))
        | None => None
        end
      else None
  | [i0; i1] =>
      if length (m_table g) =? 4 then
        match plain_read p i0, plain_read p i1 with
        | Some x, Some y => Some (table_at g (2 * b2n y + b2n x))
        | _, _ => None
        end
      else None
  | _ => None
  end.

(** One gate. [None] when the gate is not well formed or exceeds what the
    environment announces: a wire id outside the table, more input or output
    gates than the counts of the circuit. *)
Definition plain_next_gate (gen_in evl_in : Bytes) (evl_inp_cnt : nat)
    (p : Plain) (g : Gate) : option Plain :=
  if negb (m_idx g <? m_cnt) then None else
  match m_tag g with
  | GEN_INP =>
      if p_gen_inp_ix p <? gen_inp_cnt
      then Some (plain_write g (get_ith_bit gen_in (p_gen_inp_ix p)) p)
      else None
  | EVL_INP =>
      if p_evl_inp_ix p <? evl_inp_cnt
      then Some (plain_write g (get_ith_bit evl_in (p_evl_inp_ix p)) p)
      else None
  | EVL_OUT =>
      if length (p_evl_out p) <? evl_out_cnt
      then option_map (fun v => plain_write g v p) (plain_gate_value p g)
      else None
  | GEN_OUT =>
      if length (p_gen_out p) <? gen_out_cnt
      then option_map (fun v => plain_write g v p) (plain_gate_value p g)
      else None
  | INTERNAL => option_map (fun v => plain_write g v p) (plain_gate_value p g)
  end.

Fixpoint plain_run (gen_in evl_in : Bytes) (evl_inp_cnt : nat)
    (p : Plain) (gates : list Gate) : option Plain :=
  match gates with
  | [] => Some p
  | g :: gates =>
      match plain_next_gate gen_in evl_in evl_inp_cnt p g with
      | Some p => plain_run gen_in evl_in evl_inp_cnt p gates
      | None => None
      end
  end.

End PlainEval.

(** ** Runs of the two parties *)

Section Runs.

Context {config : Config} {env : Env} {collab : Collab}.

(** [gen_next_gate] on every gate, in order. *)
Definition gen_run (st : GarbledCct3) (gates : list Gate) : GarbledCct3 :=
  fold_left gen_next_gate gates st.

(** [evl_next_gate] on every gate, in order, on one [in_buffer]. *)
Definition evl_run (st : GarbledCct3) (gates : list Gate) : GarbledCct3 :=
  fold_left evl_next_gate gates st.

(** The first [n] bits of a byte string. *)
Definition bits_of (b : Bytes) (n : nat) : list bool :=
  map (get_ith_bit b) (seq 0 n).

(** The keys the oblivious transfer hands to the evaluator: of the pair
    [2j], [2j+1] the one that its input bit [j] selects. *)
Definition chosen_ot_keys (ot_keys : list Bytes) (evl_in : Bytes) (n : nat) : list Bytes :=
  map (fun j => ot_keys !!! (2 * j + b2n (get_ith_bit evl_in j))) (seq 0 n).

(** The decommitments the generator opens to the evaluator: of the pair
    [2i], [2i+1] the one that bit [i] of the masked input selects. *)
Definition opened_decoms (gen : GarbledCct3) (masked_gen_inp : Bytes) : list Bytes :=
  map (fun i => m_gen_inp_decom gen !!! (2 * i + b2n (get_ith_bit masked_gen_inp i)))
      (seq 0 gen_inp_cnt).

(** The bytes [gen_next_gate] appends for one gate. *)
Definition gen_emitted (st : GarbledCct3) (g : Gate) : Bytes :=
  drop (length (m_o_bufr st)) (m_o_bufr (gen_next_gate st g)).

(** The generator hashing its own circuit: [com_next_gate] on every gate. *)
Definition com_run (st : GarbledCct3) (gates : list Gate) : GarbledCct3 :=
  fold_left com_next_gate gates st.

(** The evaluator fed gate by gate: before each gate the transport delivers
    the bytes the generator, run alongside with [gen_next_gate] and drained
    by [send], has produced for that gate. *)
Fixpoint lockstep_run (gen evl : GarbledCct3) (gates : list Gate)
    : GarbledCct3 * GarbledCct3 :=
  match gates with
  | [] => (gen, evl)
  | g :: gates =>
      let s := send (gen_next_gate gen g) in
      lockstep_run s.2 (evl_next_gate (recv evl s.1) g) gates
  end.

(** Everything the running hash has been given: what the incremental hash
    has absorbed, followed by the spill buffer that finalisation absorbs. *)
Definition hash_stream (st : GarbledCct3) : Bytes := m_hash st ++ m_bufr st.

End Runs.

(** ** What is assumed of the collaborators *)

(** The security parameter fits a 128-bit vector; the PRNG returns [k]-bit
    strings in [K] bytes; the hash of a byte string to [k] bits has [K]
    bytes. *)
Class CollabOk {env : Env} {collab : Collab} : Prop := {
  k_pos : 0 < Env_k;
  k_le_128 : Env_k <= 128;
  rand_length : forall p, length (Prng_rand p Env_k).1 = key_size_in_bytes;
  rand_bound : forall p, (le_combine (Prng_rand p Env_k).1 < 2 ^ Z.of_nat Env_k)%Z;
  hash_length : forall b, length (Bytes_hash b Env_k) = key_size_in_bytes
}.

(** The free-XOR test only accepts gates that are XOR of two inputs or the
    identity of one. *)
Definition xor_shaped (g : Gate) : Prop :=
  match m_input_idx g with
  | [_; _] => m_table g = [false; true; true; false]
  | _ => m_table g = [false; true]
  end.

(** ** A small instance *)

(** Concrete collaborators on which the definitions can be run: 12-bit
    labels in two bytes, a counter for a PRNG, affine maps for the KDFs and
    the hash. *)
Module Toy.

Definition grr_free_xor : Config := {| FREE_XOR := true; GRR := true; RAND_SEED := true |}.

Definition env : Env :=
  {| Env_k := 12; m_cnt := 4; gen_inp_cnt := 2; evl_out_cnt := 1; gen_out_cnt := 1 |}.

Definition xor_or_identity (g : Gate) : bool :=
  match m_input_idx g, m_table g with
  | [_; _], [false; true; true; false] => true
  | [_], [false; true] => true
  | _, _ => false
  end.

Definition collab : Collab :=
  {| Prng := Z;
     Prng_srand := fun _ seed => le_combine seed;
     Prng_rand := fun p bits =>
       (le_split ((bits + 7) / 8) ((p * 1103 + 12345) mod 2 ^ Z.of_nat bits), p + 1)%Z;
     Bytes_hash := fun b bits => le_split ((bits + 7) / 8) (le_combine b * 31 + 7);
     KDF128 := fun t key => ((t * 5 + key * 3 + 7) mod 2 ^ 128)%Z;
     KDF256 := fun t key0 key1 => ((t * 5 + key0 * 3 + key1 * 11 + 1) mod 2 ^ 128)%Z;
     is_xor := xor_or_identity;
     indeterminate_m128i := 0 |}.

(** An object before any [init]: every member empty or zero. *)
Definition blank : @GarbledCct3 collab :=
  {| m_R := 0; m_ot_keys := []; m_gen_inp_mask := []; m_evl_inp := [];
     m_prng := (0%Z : @Prng collab); m_gate_ix := 0; m_gen_inp_hash_ix := 0; m_gen_inp_ix := 0;
     m_evl_inp_ix := 0; m_gen_out_ix := 0; m_evl_out_ix := 0; m_o_bufr := [];
     m_i_bufr := []; m_i_bufr_ix := 0; m_gen_inp_hash := []; m_clear_mask := 0;
     m_w := []; m_gen_inp_decom := []; m_gen_inp_com := []; m_evl_out := [];
     m_gen_out := []; m_bufr := []; m_hash := [] |}.

(** Two generator inputs [a], [b], their AND on wire 2 as the evaluator's
    output, and the XOR of wire 2 with [a] as the generator's output. *)
Definition g_a : Gate := {| m_tag := GEN_INP; m_idx := 0; m_input_idx := []; m_table := [] |}.
Definition g_b : Gate := {| m_tag := GEN_INP; m_idx := 1; m_input_idx := []; m_table := [] |}.
Definition g_and : Gate :=
  {| m_tag := EVL_OUT; m_idx := 2; m_input_idx := [0; 1];
     m_table := [false; false; false; true] |}.
Definition g_xor : Gate :=
  {| m_tag := GEN_OUT; m_idx := 3; m_input_idx := [2; 0];
     m_table := [false; true; true; false] |}.
Definition circuit : list Gate := [g_a; g_b; g_and; g_xor].

(** A generator input [a] and an evaluator input [e], their XOR on wire 2
    as the evaluator's output, and its negation as the generator's output. *)
Definition g_e : Gate := {| m_tag := EVL_INP; m_idx := 1; m_input_idx := []; m_table := [] |}.
Definition g_free : Gate :=
  {| m_tag := EVL_OUT; m_idx := 2; m_input_idx := [0; 1];
     m_table := [false; true; true; false] |}.
Definition g_not : Gate :=
  {| m_tag := GEN_OUT; m_idx := 3; m_input_idx := [2]; m_table := [true; false] |}.
Definition circuit_evl : list Gate := [g_a; g_e; g_free; g_not].
Definition ot_keys : list Bytes := [[Byte.x11; Byte.x22]; [Byte.x33; Byte.xf4]].
Definition gen_in_evl : Bytes := [Byte.x01].
Definition masked_evl : Bytes := [Byte.x00].
Definition evl_in : Bytes := [Byte.x00].

Definition alloc : list Z := [0; 0; 0; 0]%Z.
Definition seed : Bytes := [Byte.x2a].
Definition mask : Bytes := [Byte.x01].
Definition gen_in : Bytes := [Byte.x03].
Definition masked : Bytes := [Byte.x02].

End Toy.

(** Objects of the small instance: after [gen_init] and [evl_init], and
    along the honest run of [Toy.circuit] on the generator input
    [Toy.gen_in]. *)
Module ToyRun.

Definition gen0 : @GarbledCct3 Toy.collab :=
  @gen_init Toy.env Toy.collab Toy.alloc Toy.blank [] Toy.mask Toy.seed.

Definition evl0 : @GarbledCct3 Toy.collab :=
  @evl_init Toy.env Toy.collab Toy.alloc Toy.blank [] Toy.masked [].

Definition gen_final : @GarbledCct3 Toy.collab :=
  @gen_run Toy.grr_free_xor Toy.env Toy.collab gen0 Toy.circuit.

Definition evl_start : @GarbledCct3 Toy.collab :=
  recv (set_m_gen_inp_decom (@opened_decoms Toy.env Toy.collab gen_final Toy.masked) evl0)
       (m_o_bufr gen_final).

Definition gen2 : @GarbledCct3 Toy.collab :=
  @gen_run Toy.grr_free_xor Toy.env Toy.collab gen0 [Toy.g_a; Toy.g_b].

Definition evl2 : @GarbledCct3 Toy.collab :=
  @evl_run Toy.grr_free_xor Toy.env Toy.collab evl_start [Toy.g_a; Toy.g_b].

Definition gen3 : @GarbledCct3 Toy.collab :=
  @gen_run Toy.grr_free_xor Toy.env Toy.collab gen0 [Toy.g_a; Toy.g_b; Toy.g_and].

Definition evl3 : @GarbledCct3 Toy.collab :=
  @evl_run Toy.grr_free_xor Toy.env Toy.collab evl_start [Toy.g_a; Toy.g_b; Toy.g_and].

(** The evaluator after the whole circuit. *)
Definition evl_final : @GarbledCct3 Toy.collab :=
  @evl_run Toy.grr_free_xor Toy.env Toy.collab evl_start Toy.circuit.

(** The plain evaluation of [Toy.circuit] on [Toy.gen_in]. *)
Definition plain_final : Plain :=
  {| p_wire := [Some true; Some true; Some true; Some false];
     p_gen_inp_ix := 2; p_evl_inp_ix := 0; p_evl_out := [true]; p_gen_out := [false] |}.

(** The plain evaluation of [Toy.circuit_evl] on [Toy.gen_in_evl] and
    [Toy.evl_in]. *)
Definition plain_final_evl : Plain :=
  {| p_wire := [Some true; Some false; Some true; Some false];
     p_gen_inp_ix := 1; p_evl_inp_ix := 1; p_evl_out := [true]; p_gen_out := [false] |}.

End ToyRun.

(** ** The wire format in the words of the specification *)

Section WireFormat.

Context {config : Config} {env : Env} {collab : Collab}.

(** The gates of the first two branches of [gen_next_gate] and
    [evl_next_gate]. *)
Definition is_input (g : Gate) : bool :=
  match m_tag g with
  | GEN_INP | EVL_INP => true
  | _ => false
  end.

(** One tagging byte for a gate tagged [GEN_OUT] or [EVL_OUT]. *)
Definition out_tag_len (g : Gate) : nat :=
  match m_tag g with
  | GEN_OUT | EVL_OUT => 1
  | _ => 0
  end.

(** The row count under GRR and FREE_XOR: [2K] for an input gate; for any
    other gate nothing if it is XOR-shaped, [3K] with two inputs, [K] with
    one, and one more byte when the gate is an output. *)
Definition row_count_bytes (g : Gate) : nat :=
  match m_tag g with
  | GEN_INP | EVL_INP => 2 * key_size_in_bytes
  | _ =>
      (if is_xor g then 0
       else if length (m_input_idx g) =? 2 then 3 * key_size_in_bytes
       else key_size_in_bytes)
      + out_tag_len g
  end.

(** The tweak of a gate: the low 64 bits of the gate index in both halves
    of the 128-bit block. *)
Definition gate_tweak (ix : Z) : Z := (ix mod 2 ^ 64 + 2 ^ 64 * (ix mod 2 ^ 64))%Z.

(** Row [r] of a 2-input gate, for the output labels [Z]: the input labels
    are [X[px xor (r&1)]] and [Y[py xor (r>>1)]], the output bit is the table
    entry at [r xor p] for [p = (py<<1)|px], and the row is the masked KDF
    output XOR-ed with the label of that bit. Written on the integers: the
    permutation bit of a label is its parity, and [X[1] = X[0] xor R]. *)
Definition garbled_row (st : GarbledCct3) (g : Gate) (Zlab : bool -> Z) (r : nat) : Z :=
  let R := m_R st in
  let X0 := m_w st !!! (m_input_idx g !!! 0) in
  let Y0 := m_w st !!! (m_input_idx g !!! 1) in
  let px := Z.odd X0 in
  let py := Z.odd Y0 in
  let p := 2 * b2n py + b2n px in
  let Xs := if xorb px (Nat.odd r) then Z.lxor X0 R else X0 in
  let Ys := if xorb py (Nat.odd (r / 2)) then Z.lxor Y0 R else Y0 in
  let C := Z.land (KDF256 (gate_tweak (m_gate_ix st)) Xs Ys) (m_clear_mask st) in
  Z.lxor C (Zlab (nth (Nat.lxor r p) (m_table g) false)).

(** The garbled index under which the evaluator, holding the labels [A] and
    [B] of the two input wires, looks its row up: [(lsb B << 1) | lsb A]. *)
Definition garbled_ix_of (st : GarbledCct3) (g : Gate) : nat :=
  2 * b2n (Z.odd (m_w st !!! (m_input_idx g !!! 1)))
  + b2n (Z.odd (m_w st !!! (m_input_idx g !!! 0))).

(** The XOR of a list of byte strings of [n] bytes. *)
Definition xor_all (n : nat) (l : list Bytes) : Bytes :=
  fold_left xor_assign l (zeros n).

(** The generator-input wires [j] with [row[j] = 1]. *)
Definition row_wires (row : Bytes) : list nat :=
  List.filter (fun j => get_ith_bit row j) (seq 0 gen_inp_cnt).

End WireFormat.

Arguments garbled_row : simpl never.

(** ** The honest execution *)

(** The label of the bit [v] on a wire whose zero label is [w0]. *)
Definition lab (R w0 : Z) (v : bool) : Z := Z.lxor w0 (if v then R else 0%Z).

Section Honest.

Context {config : Config} {env : Env} {collab : Collab}.

(** What the two parties are given: the generator the OT key pairs
    [ot_keys] and its mask; the evaluator the keys [evl_keys] that the
    oblivious transfer selected for its input [evl_in], the generator's
    input [gen_in] masked, and the decommitments [decoms] that the generator
    opens. [evl_inp_cnt] is the number of evaluator-input wires. *)
Variables (ot_keys evl_keys decoms : list Bytes).
Variables (mask masked gen_in evl_in : Bytes).
Variable (evl_inp_cnt : nat).

(** The inputs of the two parties match. *)
Record Matching : Prop := {
  match_masked : forall i, i < gen_inp_cnt ->
    get_ith_bit masked i = xorb (get_ith_bit gen_in i) (get_ith_bit mask i);
  match_ot_length : forall j, j < 2 * evl_inp_cnt ->
    length (ot_keys !!! j) <= key_size_in_bytes;
  match_ot_chosen : forall j, j < evl_inp_cnt ->
    evl_keys !!! j = ot_keys !!! (2 * j + b2n (get_ith_bit evl_in j))
}.

(** The relation between the generator [G], the evaluator [E] and the plain
    evaluation [P] after the same gates, the evaluator reading [stream]:
    on every wire written so far the generator holds a [k]-bit zero label
    [W] and the evaluator holds [W] for the bit 0 and [W xor R] for the
    bit 1; the evaluator has read what the generator has written; the
    output bits recorded so far are those of the plain evaluation. *)
Record Sim (stream : Bytes) (G E : GarbledCct3) (P : Plain) : Prop := {
  sim_R_perm : perm_bit (m_R G) = true;
  sim_R_bound : (0 <= m_R G < 2 ^ Z.of_nat Env_k)%Z;
  sim_mask_G : m_clear_mask G = Z.ones (Z.of_nat Env_k);
  sim_mask_E : m_clear_mask E = Z.ones (Z.of_nat Env_k);
  sim_gate_ix : m_gate_ix G = m_gate_ix E;
  sim_len_G : length (m_w G) = m_cnt;
  sim_len_E : length (m_w E) = m_cnt;
  sim_len_P : length (p_wire P) = m_cnt;
  sim_wire : forall i v, plain_read P i = Some v ->
    (0 <= m_w G !!! i < 2 ^ Z.of_nat Env_k)%Z
    /\ m_w E !!! i = lab (m_R G) (m_w G !!! i) v;
  sim_gen_inp_ix_G : m_gen_inp_ix G = p_gen_inp_ix P;
  sim_gen_inp_ix_E : m_gen_inp_ix E = p_gen_inp_ix P;
  sim_evl_inp_ix_G : m_evl_inp_ix G = p_evl_inp_ix P;
  sim_evl_inp_ix_E : m_evl_inp_ix E = p_evl_inp_ix P;
  sim_evl_out_ix : m_evl_out_ix E = length (p_evl_out P);
  sim_gen_out_ix : m_gen_out_ix E = length (p_gen_out P);
  sim_evl_out : bits_of (m_evl_out E) (length (p_evl_out P)) = p_evl_out P;
  sim_gen_out : bits_of (m_gen_out E) (length (p_gen_out P)) = p_gen_out P;
  sim_evl_out_len : evl_out_cnt <= 8 * length (m_evl_out E);
  sim_gen_out_len : gen_out_cnt <= 8 * length (m_gen_out E);
  sim_cursor : m_i_bufr_ix E = length (m_o_bufr G);
  sim_stream : m_i_bufr E = stream;
  sim_ot_G : m_ot_keys G = ot_keys;
  sim_ot_E : m_ot_keys E = evl_keys;
  sim_mask : m_gen_inp_mask G = mask;
  sim_masked : m_gen_inp_mask E = masked;
  sim_evl_in : m_evl_inp E = evl_in;
  sim_decoms : m_gen_inp_decom E = decoms;
  sim_decom_len : length (m_gen_inp_decom G) = 2 * gen_inp_cnt
}.

End Honest.

(** The two parties of one execution. The generator is initialised and
    garbles the gates in order. The evaluator is initialised with the keys
    the oblivious transfer selected for its input and with the masked
    generator input, is handed the decommitments the generator opens, and
    reads the generator's bytes [stream] from its [in_buffer]. *)
Section Parties.

Context {config : Config} {env : Env} {collab : Collab}.

Definition honest_gen (alloc : list Z) (st : GarbledCct3) (ot_keys : list Bytes)
    (mask seed : Bytes) (gates : list Gate) : GarbledCct3 :=
  gen_run (gen_init alloc st ot_keys mask seed) gates.

Definition honest_evl_init (gen : GarbledCct3) (alloc : list Z) (st : GarbledCct3)
    (ot_keys : list Bytes) (masked evl_in : Bytes) (evl_inp_cnt : nat) : GarbledCct3 :=
  recv (set_m_gen_inp_decom (opened_decoms gen masked)
          (evl_init alloc st (chosen_ot_keys ot_keys evl_in evl_inp_cnt) masked evl_in))
       (m_o_bufr gen).

Definition honest_evl (gen : GarbledCct3) (alloc : list Z) (st : GarbledCct3)
    (ot_keys : list Bytes) (masked evl_in : Bytes) (evl_inp_cnt : nat)
    (gates : list Gate) : GarbledCct3 :=
  evl_run (honest_evl_init gen alloc st ot_keys masked evl_in evl_inp_cnt) gates.

End Parties.

(** ** Runs, counted *)

Section Counting.

Context {config : Config} {env : Env} {collab : Collab}.

(** The gates of a circuit that carry the tag [t]. *)
Definition count_tag (t : Tag) (gates : list Gate) : nat :=
  length (List.filter (fun g => Tag_eqb (m_tag g) t) gates).

(** The bytes of one gate in any configuration: the rows that the
    conditional compilation keeps, and the tagging byte of an output
    gate. *)
Definition rows_len (g : Gate) : nat :=
  match m_tag g with
  | GEN_INP | EVL_INP => 2 * key_size_in_bytes
  | _ =>
      (if FREE_XOR && is_xor g then 0
       else if length (m_input_idx g) =? 2
            then (if GRR then 3 else 4) * key_size_in_bytes
            else (if GRR then 1 else 2) * key_size_in_bytes)
      + out_tag_len g
  end.

(** The bytes of a circuit. *)
Definition stream_len (gates : list Gate) : nat := list_sum (map rows_len gates).

(** The calls of [m_prng.rand(Env::k())] of one gate: the zero label and the
    two decommitment pads of a generator input, the zero label of an
    evaluator input, and, without [GRR], the output label of a gate with
    rows. *)
Definition prng_draws (g : Gate) : nat :=
  match m_tag g with
  | GEN_INP => 3
  | EVL_INP => 1
  | _ => if GRR || (FREE_XOR && is_xor g) then 0 else 1
  end.

(** The PRNG after [n] calls of [rand(Env::k())]. *)
Definition prng_after (n : nat) (p : Prng) : Prng :=
  Nat.iter n (fun q => (Prng_rand q Env_k).2) p.

(** The parity of the generator's input bits over the wires [j] with
    [row[j] = 1]. *)
Definition row_parity (row gen_in : Bytes) : bool :=
  fold_left xorb (map (get_ith_bit gen_in) (row_wires row)) false.

(** An object without what the running hash and the transport hold: the
    spill buffer, the hash and [m_o_bufr] emptied. *)
Definition garbling_part (st : GarbledCct3) : GarbledCct3 :=
  st |> set_m_o_bufr [] |> set_m_bufr [] |> set_m_hash [].

(** The evaluator's commitments so far are the hashes of the decommitments
    it holds. *)
Definition committed (evl : GarbledCct3) : Prop :=
  length (m_gen_inp_com evl) = gen_inp_cnt
  /\ forall i, i < m_gen_inp_ix evl ->
       m_gen_inp_com evl !!! i = Bytes_hash (m_gen_inp_decom evl !!! i) Env_k.

(** The decommitments of the generator inputs garbled so far: the pair of
    input [j] holds, in its first [K] bytes, the two labels of one wire, the
    label of the bit [b xor mask[j]] at index [2j + b], each followed by [K]
    bytes of salt. *)
Definition decoms_open (gen : GarbledCct3) : Prop :=
  forall j, j < m_gen_inp_ix gen ->
    exists z, (0 <= z < 2 ^ Z.of_nat Env_k)%Z
      /\ forall b : bool,
           length (m_gen_inp_decom gen !!! (2 * j + b2n b)) = 2 * key_size_in_bytes
           /\ le_combine (take key_size_in_bytes (m_gen_inp_decom gen !!! (2 * j + b2n b)))
              = lab (m_R gen) z (xorb b (get_ith_bit (m_gen_inp_mask gen) j)).

End Counting.

(** * Properties *)

(** Projections of assignments and of kernel results. *)
Ltac fields :=
  cbv zeta;
  cbn [fst snd out_Z out_key out_st
       m_R m_ot_keys m_gen_inp_mask m_evl_inp m_prng m_gate_ix m_gen_inp_hash_ix
       m_gen_inp_ix m_evl_inp_ix m_gen_out_ix m_evl_out_ix m_o_bufr m_i_bufr m_i_bufr_ix
       m_gen_inp_hash m_clear_mask m_w m_gen_inp_decom m_gen_inp_com m_evl_out m_gen_out
       m_bufr m_hash set_m_R set_m_ot_keys set_m_gen_inp_mask set_m_evl_inp set_m_prng
       set_m_gate_ix set_m_gen_inp_hash_ix set_m_gen_inp_ix set_m_evl_inp_ix
       set_m_gen_out_ix set_m_evl_out_ix set_m_o_bufr set_m_i_bufr set_m_i_bufr_ix
       set_m_gen_inp_hash set_m_clear_mask set_m_w set_m_gen_inp_decom set_m_gen_inp_com
       set_m_evl_out set_m_gen_out set_m_bufr set_m_hash].


(** ** Byte strings and labels *)

Section BytesFacts.

Lemma length_resize n b : length (resize n b) = n.
Proof. unfold resize. rewrite length_app, length_take, repeat_length. lia. Qed.

Lemma resize_short n b : length b <= n -> le_combine (resize n b) = le_combine b.
Proof.
  intros Hn. unfold resize. rewrite take_ge by lia. apply le_combine_app_0.
Qed.

Lemma loadu_resize b : length b <= 16 -> loadu (resize 16 b) = le_combine b.
Proof.
  intros Hb. unfold loadu. rewrite take_ge by (rewrite length_resize; lia).
  now apply resize_short.
Qed.

Lemma length_storeu x : length (storeu x) = 16.
Proof. apply length_le_split. Qed.

Lemma length_take_storeu n x : n <= 16 -> length (take n (storeu x)) = n.
Proof. intros Hn. rewrite length_take, length_storeu. lia. Qed.

Lemma pow2_le_mono (a b : nat) : a <= b -> (2 ^ Z.of_nat a <= 2 ^ Z.of_nat b)%Z.
Proof. intros Hab. apply Z.pow_le_mono_r; lia. Qed.

(** A value of at most [8n] bits survives being stored, cut to [n] bytes,
    padded and loaded again. *)
Lemma loadu_take_storeu n x :
  n <= 16 -> (0 <= x < 2 ^ (8 * Z.of_nat n))%Z ->
  loadu (resize 16 (take n (storeu x))) = x.
Proof.
  intros Hn Hx. rewrite loadu_resize by (rewrite length_take_storeu; lia).
  rewrite le_combine_firstn. unfold storeu. rewrite le_combine_split.
  assert (Hp : (2 ^ (8 * Z.of_nat n) <= 2 ^ (Z.of_nat 16 * 8))%Z)
    by (apply Z.pow_le_mono_r; lia).
  rewrite (Z.mod_small x (2 ^ (Z.of_nat 16 * 8))) by lia.
  apply Z.mod_small; lia.
Qed.

Lemma perm_bit_testbit x : perm_bit x = Z.testbit x 0.
Proof.
  unfold perm_bit. rewrite Z.land_spec. change (Z.testbit 255 0) with true.
  apply andb_true_r.
Qed.

Lemma perm_bit_xor a b : perm_bit (xor_si128 a b) = xorb (perm_bit a) (perm_bit b).
Proof. rewrite !perm_bit_testbit. apply Z.lxor_spec. Qed.

Lemma lxor_bound (n a b : Z) :
  (0 <= n)%Z -> (0 <= a < 2 ^ n)%Z -> (0 <= b < 2 ^ n)%Z -> (0 <= Z.lxor a b < 2 ^ n)%Z.
Proof.
  intros Hn Ha Hb.
  assert (H0 : (0 <= Z.lxor a b)%Z) by (apply Z.lxor_nonneg; lia).
  split; [exact H0|].
  destruct (Z.eq_dec (Z.lxor a b) 0%Z) as [->|Hne]; [apply Z.pow_pos_nonneg; lia|].
  assert (Hpos : (0 < n)%Z).
  { destruct (Z.eq_dec n 0%Z) as [->|]; [|lia]. exfalso. apply Hne.
    change (2 ^ 0)%Z with 1%Z in *.
    replace a with 0%Z by lia. replace b with 0%Z by lia. reflexivity. }
  apply Z.log2_lt_pow2; [lia|].
  eapply Z.le_lt_trans; [apply Z.log2_lxor; lia|].
  apply Z.max_lub_lt.
  - destruct (Z.eq_dec a 0%Z) as [->|]; [simpl; lia|]. apply Z.log2_lt_pow2; lia.
  - destruct (Z.eq_dec b 0%Z) as [->|]; [simpl; lia|]. apply Z.log2_lt_pow2; lia.
Qed.

Lemma land_ones_bound (n x : Z) : (0 <= n)%Z -> (0 <= Z.land x (Z.ones n) < 2 ^ n)%Z.
Proof.
  intros Hn. rewrite Z.land_ones by lia. apply Z.mod_pos_bound.
  apply Z.pow_pos_nonneg; lia.
Qed.

Lemma slice_app_l (a b : Bytes) n m : slice (a ++ b) (length a + n) m = slice b n m.
Proof.
  unfold slice. rewrite drop_app_ge by lia.
  replace (length a + n - length a) with n by lia. reflexivity.
Qed.

Lemma slice_here (r rest : Bytes) : slice (r ++ rest) 0 (length r) = r.
Proof. unfold slice. rewrite drop_0. apply take_app_length. Qed.

Lemma slice_pair (pre r0 r1 rest : Bytes) (n : nat) (b : bool) :
  length r0 = n -> length r1 = n ->
  slice (pre ++ r0 ++ r1 ++ rest) (length pre + b2n b * n) n = if b then r1 else r0.
Proof.
  intros <- H1. destruct b; cbn [b2n].
  - replace (1 * length r0) with (length r0 + 0) by lia.
    rewrite !slice_app_l, <- H1. apply slice_here.
  - rewrite Nat.mul_0_l, slice_app_l. apply slice_here.
Qed.

End BytesFacts.
Section BitFacts.

Lemma setbit_bound (z n i : Z) (v : bool) :
  (0 <= i < n)%Z -> (0 <= z < 2 ^ n)%Z ->
  (0 <= (if v then Z.setbit else Z.clearbit) z i < 2 ^ n)%Z.
Proof.
  intros Hi Hz.
  assert (Hn : (0 <= (if v then Z.setbit else Z.clearbit) z i)%Z).
  { destruct v.
    - unfold Z.setbit. apply Z.lor_nonneg. split; [lia|]. apply Z.shiftl_nonneg. lia.
    - unfold Z.clearbit. apply Z.ldiff_nonneg. lia. }
  split; [exact Hn|].
  rewrite <- (Z.mod_small z (2 ^ n)) by lia.
  rewrite <- Z.land_ones by lia.
  assert (Heq : (if v then Z.setbit else Z.clearbit) (Z.land z (Z.ones n)) i
                = Z.land ((if v then Z.setbit else Z.clearbit) (Z.land z (Z.ones n)) i)
                         (Z.ones n)).
  { apply Z.bits_inj'. intros j Hj.
    rewrite Z.land_spec.
    destruct (Z.ltb_spec j n) as [Hlt|Hge].
    - rewrite (Z.ones_spec_low n j) by lia. now rewrite andb_true_r.
    - rewrite (Z.ones_spec_high n j) by lia. rewrite andb_false_r.
      destruct v.
      + rewrite Z.setbit_neq by lia. rewrite Z.land_spec, (Z.ones_spec_high n j) by lia.
        apply andb_false_r.
      + rewrite Z.clearbit_neq by lia. rewrite Z.land_spec, (Z.ones_spec_high n j) by lia.
        apply andb_false_r. }
  rewrite Heq. rewrite Z.land_ones by lia. apply Z.mod_pos_bound.
  apply Z.pow_pos_nonneg; lia.
Qed.

Lemma le_combine_set_ith_bit b i v :
  i < 8 * length b ->
  le_combine (set_ith_bit b i v)
  = (if v then Z.setbit else Z.clearbit) (le_combine b) (Z.of_nat i).
Proof.
  intros Hi. unfold set_ith_bit. rewrite le_combine_split.
  apply Z.mod_small.
  replace (Z.of_nat (length b) * 8)%Z with (8 * Z.of_nat (length b))%Z by lia.
  apply setbit_bound; [lia|]. apply le_combine_bound.
Qed.

Lemma length_set_ith_bit b i v : length (set_ith_bit b i v) = length b.
Proof. apply length_le_split. Qed.

Lemma get_ith_bit_high b j : 8 * length b <= j -> get_ith_bit b j = false.
Proof.
  intros Hj. unfold get_ith_bit.
  pose proof (le_combine_bound b) as Hb.
  destruct (Z.eq_dec (le_combine b) 0%Z) as [->|Hne]; [apply Z.bits_0|].
  apply Z.bits_above_log2; [lia|].
  apply Z.log2_lt_pow2; [lia|].
  eapply Z.lt_le_trans; [apply Hb|]. apply Z.pow_le_mono_r; lia.
Qed.

Lemma get_set_ith_bit b i v j :
  i < 8 * length b ->
  get_ith_bit (set_ith_bit b i v) j = if j =? i then v else get_ith_bit b j.
Proof.
  intros Hi. unfold get_ith_bit at 1. rewrite le_combine_set_ith_bit by assumption.
  destruct (Nat.eqb_spec j i) as [->|Hne].
  - destruct v; [apply Z.setbit_eq | apply Z.clearbit_eq]; lia.
  - destruct v; [rewrite Z.setbit_neq | rewrite Z.clearbit_neq]; try lia; reflexivity.
Qed.

Lemma perm_bit_setbit0 z : perm_bit (Z.setbit z 0) = true.
Proof. rewrite perm_bit_testbit. apply Z.setbit_eq. lia. Qed.

Lemma perm_bit_clearbit0 z : perm_bit (Z.clearbit z 0) = false.
Proof. rewrite perm_bit_testbit. apply Z.clearbit_eq. Qed.

Lemma get_ith_bit_0 b : get_ith_bit b 0 = perm_bit (le_combine b).
Proof. now rewrite perm_bit_testbit. Qed.

End BitFacts.

(** ** Frame properties of the kernels *)

Section Frames.

Context {config : Config} {env : Env} {collab : Collab}.

(** Splits a goal about [gen_kernel] or [evl_kernel] into the branches of
    the source. *)
Ltac by_branch g :=
  unfold gen_kernel, evl_kernel, gen_internal, evl_internal, gen_rows, evl_rows;
  destruct (m_tag g);
  try reflexivity;
  destruct (FREE_XOR && is_xor g);
  try reflexivity;
  destruct (length (m_input_idx g) =? 2);
  unfold gen_arity2, gen_arity1, gen_entry0, evl_arity2, evl_arity1, evl_arity1_no_GRR;
  destruct GRR;
  reflexivity.

Lemma gen_kernel_m_w st g : m_w (out_st (gen_kernel st g)) = m_w st.
Proof. by_branch g. Qed.

Lemma gen_kernel_m_gate_ix st g : m_gate_ix (out_st (gen_kernel st g)) = m_gate_ix st.
Proof. by_branch g. Qed.

Lemma gen_kernel_m_R st g : m_R (out_st (gen_kernel st g)) = m_R st.
Proof. by_branch g. Qed.

Lemma gen_kernel_m_clear_mask st g :
  m_clear_mask (out_st (gen_kernel st g)) = m_clear_mask st.
Proof. by_branch g. Qed.

Lemma gen_kernel_m_ot_keys st g : m_ot_keys (out_st (gen_kernel st g)) = m_ot_keys st.
Proof. by_branch g. Qed.

Lemma gen_kernel_m_gen_inp_mask st g :
  m_gen_inp_mask (out_st (gen_kernel st g)) = m_gen_inp_mask st.
Proof. by_branch g. Qed.

Lemma evl_kernel_m_w st g : m_w (evl_kernel st g).2 = m_w st.
Proof. by_branch g. Qed.

Lemma evl_kernel_m_gate_ix st g : m_gate_ix (evl_kernel st g).2 = m_gate_ix st.
Proof. by_branch g. Qed.

Lemma evl_kernel_m_i_bufr st g : m_i_bufr (evl_kernel st g).2 = m_i_bufr st.
Proof. by_branch g. Qed.

Lemma evl_kernel_m_bufr st g : m_bufr (evl_kernel st g).2 = m_bufr st.
Proof. by_branch g. Qed.

Lemma evl_kernel_m_hash st g : m_hash (evl_kernel st g).2 = m_hash st.
Proof. by_branch g. Qed.

Lemma evl_kernel_m_clear_mask st g : m_clear_mask (evl_kernel st g).2 = m_clear_mask st.
Proof. by_branch g. Qed.

Lemma evl_kernel_m_ot_keys st g : m_ot_keys (evl_kernel st g).2 = m_ot_keys st.
Proof. by_branch g. Qed.

Lemma evl_kernel_m_gen_inp_mask st g :
  m_gen_inp_mask (evl_kernel st g).2 = m_gen_inp_mask st.
Proof. by_branch g. Qed.

Lemma evl_kernel_m_evl_inp st g : m_evl_inp (evl_kernel st g).2 = m_evl_inp st.
Proof. by_branch g. Qed.

Lemma evl_kernel_m_gen_inp_decom st g :
  m_gen_inp_decom (evl_kernel st g).2 = m_gen_inp_decom st.
Proof. by_branch g. Qed.

(** [update_hash] only touches the spill buffer and the hash. *)
Lemma update_hash_frame st d :
  let st' := update_hash st d in
  m_w st' = m_w st /\ m_gate_ix st' = m_gate_ix st /\ m_i_bufr st' = m_i_bufr st
  /\ m_i_bufr_ix st' = m_i_bufr_ix st /\ m_o_bufr st' = m_o_bufr st
  /\ m_clear_mask st' = m_clear_mask st /\ m_ot_keys st' = m_ot_keys st
  /\ m_gen_inp_mask st' = m_gen_inp_mask st /\ m_evl_inp st' = m_evl_inp st
  /\ m_gen_inp_decom st' = m_gen_inp_decom st /\ m_gen_inp_com st' = m_gen_inp_com st
  /\ m_gen_inp_ix st' = m_gen_inp_ix st /\ m_evl_inp_ix st' = m_evl_inp_ix st
  /\ m_evl_out st' = m_evl_out st /\ m_gen_out st' = m_gen_out st
  /\ m_evl_out_ix st' = m_evl_out_ix st /\ m_gen_out_ix st' = m_gen_out_ix st.
Proof.
  unfold update_hash.
  destruct (RAND_SEED && _); repeat split; reflexivity.
Qed.

Lemma gen_next_gate_m_w st g :
  m_w (gen_next_gate st g) = <[m_idx g := out_key (gen_kernel st g)]> (m_w st).
Proof. unfold gen_next_gate. cbn. now rewrite gen_kernel_m_w. Qed.

Lemma gen_next_gate_m_gate_ix st g :
  m_gate_ix (gen_next_gate st g) = ((m_gate_ix st + 1) mod 2 ^ 64)%Z.
Proof. unfold gen_next_gate. cbn. now rewrite gen_kernel_m_gate_ix. Qed.

Lemma evl_next_gate_m_w st g :
  m_w (evl_next_gate st g) = <[m_idx g := (evl_kernel st g).1]> (m_w st).
Proof.
  unfold evl_next_gate. cbn.
  destruct (update_hash_frame
              (set_m_w (<[m_idx g := (evl_kernel st g).1]> (m_w (evl_kernel st g).2))
                 (evl_kernel st g).2)
              (m_i_bufr (evl_kernel st g).2)) as (-> & _).
  cbn. now rewrite evl_kernel_m_w.
Qed.

Lemma evl_next_gate_m_gate_ix st g :
  m_gate_ix (evl_next_gate st g) = ((m_gate_ix st + 1) mod 2 ^ 64)%Z.
Proof.
  unfold evl_next_gate. cbn.
  destruct (update_hash_frame
              (set_m_w (<[m_idx g := (evl_kernel st g).1]> (m_w (evl_kernel st g).2))
                 (evl_kernel st g).2)
              (m_i_bufr (evl_kernel st g).2)) as (_ & -> & _).
  cbn. now rewrite evl_kernel_m_gate_ix.
Qed.

Lemma insert_one_wire (w : list Z) (i : nat) (x : Z) :
  (i < length w -> <[i := x]> w !! i = Some x)
  /\ (forall j, j <> i -> <[i := x]> w !! j = w !! j)
  /\ length (<[i := x]> w) = length w.
Proof.
  split; [|split].
  - apply list_lookup_insert_eq.
  - intros j Hj. apply list_lookup_insert_ne. congruence.
  - apply length_insert.
Qed.

(** C10. Every call to [gen_next_gate] and every call to [evl_next_gate],
    whatever the kind of the gate, stores one label at index [m_idx] of the
    wire table (the kernel's [current_zero_key], respectively
    [current_key]), leaves every other entry and the size of the table as
    they were, and increments the gate index [m_gate_ix] by one (the
    counter being below its 64-bit maximum). *)
Theorem next_gate_writes_one_wire (st : GarbledCct3) (g : Gate) :
  m_idx g < length (m_w st) ->
  (0 <= m_gate_ix st < 2 ^ 64 - 1)%Z ->
  (m_w (gen_next_gate st g) !! m_idx g = Some (out_key (gen_kernel st g))
   /\ (forall j, j <> m_idx g -> m_w (gen_next_gate st g) !! j = m_w st !! j)
   /\ length (m_w (gen_next_gate st g)) = length (m_w st)
   /\ m_gate_ix (gen_next_gate st g) = (m_gate_ix st + 1)%Z)
  /\ (m_w (evl_next_gate st g) !! m_idx g = Some (evl_kernel st g).1
   /\ (forall j, j <> m_idx g -> m_w (evl_next_gate st g) !! j = m_w st !! j)
   /\ length (m_w (evl_next_gate st g)) = length (m_w st)
   /\ m_gate_ix (evl_next_gate st g) = (m_gate_ix st + 1)%Z).
Proof.
  intros Hidx Hix.
  rewrite gen_next_gate_m_w, evl_next_gate_m_w,
    gen_next_gate_m_gate_ix, evl_next_gate_m_gate_ix.
  rewrite Z.mod_small by lia.
  destruct (insert_one_wire (m_w st) (m_idx g) (out_key (gen_kernel st g)))
    as (Ha & Hb & Hc).
  destruct (insert_one_wire (m_w st) (m_idx g) (evl_kernel st g).1)
    as (Ha' & Hb' & Hc').
  repeat split; auto.
Qed.

End Frames.
(** ** The kernels' helpers, on the integers and on byte lists *)

Section Encodings.

Context {config : Config} {env : Env} {collab : Collab}.

Lemma perm_bit_odd x : perm_bit x = Z.odd x.
Proof. rewrite perm_bit_testbit. apply Z.bit0_odd. Qed.

Lemma set1_epi64x_sum a : set1_epi64x a = gate_tweak a.
Proof.
  unfold set1_epi64x, gate_tweak.
  assert (Ha : (0 <= a mod 2 ^ 64 < 2 ^ 64)%Z) by (apply Z.mod_pos_bound; lia).
  set (x := (a mod 2 ^ 64)%Z) in *.
  assert (Hland : Z.land x (Z.shiftl x 64) = 0%Z).
  { apply Z.bits_inj'. intros n Hn. rewrite Z.land_spec, Z.bits_0.
    destruct (Z.lt_ge_cases n 64) as [Hlt|Hge].
    - rewrite Z.shiftl_spec_low by lia. apply andb_false_r.
    - assert (Hx : Z.testbit x n = false).
      { destruct (Z.eq_dec x 0%Z) as [->|Hne]; [apply Z.bits_0|].
        apply Z.bits_above_log2; [lia|].
        apply Z.lt_le_trans with 64%Z; [apply Z.log2_lt_pow2; lia | lia]. }
      rewrite Hx. reflexivity. }
  rewrite <- Z.lxor_lor by exact Hland.
  rewrite <- Z.add_nocarry_lxor by exact Hland.
  rewrite Z.shiftl_mul_pow2 by lia. lia.
Qed.

Lemma mod_mod_pow2 (x a b : Z) :
  (0 <= b <= a)%Z -> ((x mod 2 ^ a) mod 2 ^ b = x mod 2 ^ b)%Z.
Proof.
  intros Hab. rewrite <- !Z.land_ones by lia.
  apply Z.bits_inj'. intros i Hi. rewrite !Z.land_spec.
  destruct (Z.ltb_spec i b) as [Hlt|Hge].
  - rewrite !Z.ones_spec_low by lia. now rewrite !andb_true_r.
  - rewrite (Z.ones_spec_high b) by lia. now rewrite !andb_false_r.
Qed.

(** The [K] bytes sent for a 128-bit value, read back: its low [8K] bits. *)
Lemma le_combine_take_split (n : nat) (x : Z) :
  n <= 16 ->
  le_combine (take n (le_split 16 x)) = (x mod 2 ^ (8 * Z.of_nat n))%Z.
Proof.
  intros Hn. rewrite le_combine_firstn, le_combine_split. apply mod_mod_pow2. lia.
Qed.

Lemma le_combine_sent (n : nat) (x : Z) :
  n <= 16 ->
  le_combine (take 16 (take n (le_split 16 x))) = (x mod 2 ^ (8 * Z.of_nat n))%Z.
Proof.
  intros Hn. rewrite (take_ge _ 16) by (rewrite length_take, length_le_split; lia).
  now apply le_combine_take_split.
Qed.

Lemma gen_out_tag_bytes g key :
  gen_out_tag g key
  = match m_tag g with
    | EVL_OUT | GEN_OUT => [byte.of_Z (Z.b2z (Z.odd key))]
    | _ => []
    end.
Proof. unfold gen_out_tag. rewrite perm_bit_odd. destruct (m_tag g); reflexivity. Qed.

(** [key_bytes]: the low [K] of the 16 little-endian bytes. *)
Lemma key_bytes_bytes x : key_bytes x = take key_size_in_bytes (le_split 16 x).
Proof. reflexivity. Qed.

Lemma le_combine_take_resize n (b : Bytes) :
  le_combine (take n (resize n b)) = le_combine (take n b).
Proof.
  unfold resize. destruct (Nat.le_gt_cases n (length b)) as [Hle|Hgt].
  - replace (n - length b) with 0 by lia. cbn [repeat]. rewrite app_nil_r.
    now rewrite take_take, Nat.min_id.
  - rewrite (take_ge b n) by lia. rewrite take_ge by (rewrite length_app, repeat_length; lia).
    apply le_combine_app_0.
Qed.

(** [load_key_at]: the [K] bytes under the iterator, of which a 128-bit
    vector takes at most 16, little-endian. *)
Lemma load_key_at_bytes (bufr : Bytes) (it : nat) :
  load_key_at bufr it
  = le_combine (take 16 (take key_size_in_bytes (drop it bufr))).
Proof. unfold load_key_at, loadu, slice. apply le_combine_take_resize. Qed.


Lemma garbled_row_kernel st g Zlab r :
  garbled_row st g Zlab r
  = xor_si128
      (and_si128
         (KDF256 (set1_epi64x (m_gate_ix st))
            (arr2 (m_w st !!! (m_input_idx g !!! 0))
               (xor_si128 (m_w st !!! (m_input_idx g !!! 0)) (m_R st))
               (xorb (perm_bit (m_w st !!! (m_input_idx g !!! 0))) (Nat.odd r)))
            (arr2 (m_w st !!! (m_input_idx g !!! 1))
               (xor_si128 (m_w st !!! (m_input_idx g !!! 1)) (m_R st))
               (xorb (perm_bit (m_w st !!! (m_input_idx g !!! 1))) (Nat.odd (r / 2)))))
         (m_clear_mask st))
      (Zlab (table_at g (Nat.lxor r
               (2 * b2n (perm_bit (m_w st !!! (m_input_idx g !!! 1)))
                + b2n (perm_bit (m_w st !!! (m_input_idx g !!! 0))))))).
Proof.
  unfold garbled_row. rewrite set1_epi64x_sum, !perm_bit_odd.
  unfold arr2, xor_si128, and_si128, table_at.
  destruct (xorb _ (Nat.odd r)), (xorb _ (Nat.odd (r / 2))); reflexivity.
Qed.

Lemma garbled_ix_of_kernel st g :
  garbled_ix_of st g
  = 2 * b2n (perm_bit (m_w st !!! (m_input_idx g !!! 1)))
    + b2n (perm_bit (m_w st !!! (m_input_idx g !!! 0))).
Proof. unfold garbled_ix_of. now rewrite !perm_bit_odd. Qed.

End Encodings.

(** ** The commitment check *)

Section PassCheck.

Context {env : Env} {collab : Collab}.

Lemma fold_left_andb {A : Type} (f : A -> bool) (l : list A) (b : bool) :
  fold_left (fun acc x => acc && f x) l b = b && forallb f l.
Proof.
  revert b. induction l as [|x l IH]; intros b; cbn.
  - now rewrite andb_true_r.
  - rewrite IH. now rewrite andb_assoc.
Qed.

(** C3. [pass_check] returns true exactly when, for every generator-input
    index [i] below [gen_inp_cnt], the hash to [k] bits of the decommitment
    [m_gen_inp_decom[i]] equals the commitment [m_gen_inp_com[i]]; it
    returns false as soon as one of these hashes differs. *)
Theorem pass_check_iff (st : GarbledCct3) :
  (pass_check st = true <->
   forall i, i < gen_inp_cnt ->
     Bytes_hash (m_gen_inp_decom st !!! i) Env_k = m_gen_inp_com st !!! i)
  /\ ((exists i, i < gen_inp_cnt /\
         Bytes_hash (m_gen_inp_decom st !!! i) Env_k <> m_gen_inp_com st !!! i) ->
      pass_check st = false).
Proof.
  assert (Hiff : pass_check st = true <->
   forall i, i < gen_inp_cnt ->
     Bytes_hash (m_gen_inp_decom st !!! i) Env_k = m_gen_inp_com st !!! i).
  { unfold pass_check.
    rewrite (fold_left_andb
               (fun ix => bool_decide
                  (Bytes_hash (m_gen_inp_decom st !!! ix) Env_k = m_gen_inp_com st !!! ix))).
    cbn. rewrite forallb_forall. split.
    - intros H i Hi. eapply bool_decide_eq_true_1. apply H. apply in_seq. lia.
    - intros H i Hi. apply bool_decide_eq_true_2. apply H. apply in_seq in Hi. lia. }
  split; [exact Hiff|].
  intros (i & Hi & Hne). destruct (pass_check st) eqn:E; [|reflexivity].
  exfalso. apply Hne. apply Hiff; auto.
Qed.

End PassCheck.

(** ** Bytes emitted and consumed per gate *)

Section WireFormatFacts.

Context {config : Config} {env : Env} {collab : Collab}.

Lemma key_size_le_16 : Env_k <= 128 -> key_size_in_bytes <= 16.
Proof.
  intros Hk. unfold key_size_in_bytes.
  pose proof (Nat.div_mod_eq (Env_k + 7) 8).
  pose proof (Nat.mod_upper_bound (Env_k + 7) 8). lia.
Qed.

Lemma length_key_bytes x : Env_k <= 128 -> length (key_bytes x) = key_size_in_bytes.
Proof.
  intros Hk. unfold key_bytes. apply length_take_storeu. now apply key_size_le_16.
Qed.

Lemma xor_si128_cancel a r : xor_si128 (xor_si128 a r) r = a.
Proof.
  unfold xor_si128. now rewrite Z.lxor_assoc, Z.lxor_nilpotent, Z.lxor_0_r.
Qed.

Lemma arr2_flip a r (b : bool) :
  xor_si128 (arr2 a (xor_si128 a r) b) r = arr2 a (xor_si128 a r) (negb b).
Proof. destruct b; cbn; [apply xor_si128_cancel | reflexivity]. Qed.

(** The bytes a gate that is not an input gate appends: its rows, then its
    tagging byte. *)
Lemma gen_internal_o_bufr st g :
  m_o_bufr (out_st (gen_internal g st)) =
  m_o_bufr (out_st (gen_rows g st)) ++ gen_out_tag g (out_key (gen_internal g st)).
Proof. reflexivity. Qed.

Lemma gen_next_gate_m_o_bufr st g :
  m_o_bufr (gen_next_gate st g) = m_o_bufr (out_st (gen_kernel st g)).
Proof. reflexivity. Qed.

Lemma length_gen_out_tag g key : length (gen_out_tag g key) = out_tag_len g.
Proof. unfold gen_out_tag, out_tag_len. destruct (m_tag g); reflexivity. Qed.

Lemma gen_arity2_rows st g :
  let Zlab := out_Z (gen_arity2 g st) in
  m_o_bufr (out_st (gen_arity2 g st)) =
  m_o_bufr st
  ++ (if GRR then [] else key_bytes (garbled_row st g Zlab 0))
  ++ key_bytes (garbled_row st g Zlab 1)
  ++ key_bytes (garbled_row st g Zlab 2)
  ++ key_bytes (garbled_row st g Zlab 3).
Proof.
  cbv zeta. rewrite !garbled_row_kernel. unfold gen_arity2, gen_entry0. cbn zeta.
  set (R := m_R st).
  set (X0 := m_w st !!! (m_input_idx g !!! 0)).
  set (Y0 := m_w st !!! (m_input_idx g !!! 1)).
  change (Nat.odd 0) with false. change (Nat.odd 1) with true.
  change (Nat.odd (0 / 2)) with false. change (Nat.odd (1 / 2)) with false.
  change (Nat.odd 2) with false. change (Nat.odd 3) with true.
  change (Nat.odd (2 / 2)) with true. change (Nat.odd (3 / 2)) with true.
  rewrite !xorb_false_r, !xorb_true_r.
  rewrite !arr2_flip, !negb_involutive.
  rewrite Nat.lxor_0_l.
  destruct GRR; cbn; rewrite <- ?app_assoc; reflexivity.
Qed.

Lemma gen_arity1_rows st g :
  exists row0 row1,
    m_o_bufr (out_st (gen_arity1 g st)) =
    m_o_bufr st ++ (if GRR then [] else key_bytes row0) ++ key_bytes row1.
Proof.
  unfold gen_arity1, gen_entry0. cbn zeta.
  destruct GRR; cbn; rewrite <- ?app_assoc.
  - exists 0%Z. eexists. reflexivity.
  - do 2 eexists. reflexivity.
Qed.

Lemma gen_kernel_emits st g :
  GRR = true -> FREE_XOR = true -> Env_k <= 128 ->
  (forall b, length (Bytes_hash b Env_k) = key_size_in_bytes) ->
  exists emitted,
    m_o_bufr (out_st (gen_kernel st g)) = m_o_bufr st ++ emitted
    /\ length emitted = row_count_bytes g.
Proof.
  intros HGRR HFX Hk Hhash.
  unfold gen_kernel, row_count_bytes.
  destruct (is_input g) eqn:Hin.
  - unfold is_input in Hin. destruct (m_tag g); try discriminate.
    + unfold gen_GEN_INP. cbn. rewrite <- app_assoc. eexists; split; [reflexivity|].
      rewrite length_app, !Hhash. lia.
    + unfold gen_EVL_INP. cbn. rewrite <- app_assoc. eexists; split; [reflexivity|].
      rewrite length_app, !length_key_bytes by assumption. lia.
  - assert (Hgoal : exists emitted,
      m_o_bufr (out_st (gen_internal g st)) = m_o_bufr st ++ emitted
      /\ length emitted =
         (if is_xor g then 0
          else if length (m_input_idx g) =? 2 then 3 * key_size_in_bytes
               else key_size_in_bytes) + out_tag_len g).
    { rewrite gen_internal_o_bufr. unfold gen_rows. rewrite HFX. cbn [andb].
      destruct (is_xor g).
      - cbn. eexists; split; [reflexivity|]. now rewrite length_gen_out_tag.
      - destruct (length (m_input_idx g) =? 2).
        + rewrite gen_arity2_rows. rewrite HGRR. cbn [app].
          rewrite <- !app_assoc. eexists; split; [reflexivity|].
          rewrite !length_app, !length_key_bytes, length_gen_out_tag by assumption. lia.
        + destruct (gen_arity1_rows st g) as (row0 & row1 & ->). rewrite HGRR. cbn [app].
          rewrite <- !app_assoc. eexists; split; [reflexivity|].
          rewrite !length_app, !length_key_bytes, length_gen_out_tag by assumption. lia. }
    unfold is_input in Hin. destruct (m_tag g); try discriminate; exact Hgoal.
Qed.

Lemma evl_next_gate_m_i_bufr_ix st g :
  m_i_bufr_ix (evl_next_gate st g) = m_i_bufr_ix (evl_kernel st g).2.
Proof.
  unfold evl_next_gate. cbn.
  destruct (update_hash_frame
              (set_m_w (<[m_idx g := (evl_kernel st g).1]> (m_w (evl_kernel st g).2))
                 (evl_kernel st g).2)
              (m_i_bufr (evl_kernel st g).2)) as (_ & _ & _ & -> & _).
  reflexivity.
Qed.

Lemma evl_kernel_advances st g :
  GRR = true -> FREE_XOR = true ->
  m_i_bufr_ix (evl_kernel st g).2 = m_i_bufr_ix st + row_count_bytes g.
Proof.
  intros HGRR HFX.
  unfold evl_kernel, row_count_bytes, evl_internal, evl_rows, out_tag_len.
  rewrite HFX. cbn [andb].
  destruct (m_tag g); cbn; try lia.
  all: destruct (is_xor g); cbn; try lia.
  all: destruct (length (m_input_idx g) =? 2);
    unfold evl_arity2, evl_arity1; rewrite HGRR; cbn; lia.
Qed.

End WireFormatFacts.
Section WireFormatTheorems.

Context {config : Config} {env : Env} {collab : Collab}.

Lemma gen_kernel_internal st g :
  is_input g = false -> gen_kernel st g = gen_internal g st.
Proof. unfold is_input, gen_kernel. destruct (m_tag g); congruence. Qed.

Lemma evl_kernel_internal st g :
  is_input g = false -> evl_kernel st g = evl_internal g st.
Proof. unfold is_input, evl_kernel. destruct (m_tag g); congruence. Qed.

Lemma evl_internal_key st g :
  (evl_internal g st).1 = (evl_rows g st).1.
Proof. unfold evl_internal. destruct (m_tag g); reflexivity. Qed.

Lemma evl_internal_m_i_bufr_ix st g :
  m_i_bufr_ix (evl_internal g st).2 = (evl_rows g st).2 + out_tag_len g.
Proof. unfold evl_internal, out_tag_len. destruct (m_tag g); cbn; lia. Qed.

(** C2. Under GRR and FREE_XOR, [gen_next_gate] appends to [out_buffer],
    and [evl_next_gate] advances the read iterator of [in_buffer] by, the
    same number of bytes: [3K] for a 2-input gate that is not XOR-shaped,
    [K] for a 1-input gate that is not, nothing for an XOR-shaped gate, [2K]
    for a [GEN_INP] and for an [EVL_INP] gate, and one more byte when the
    gate is tagged [GEN_OUT] or [EVL_OUT]. *)
Theorem row_count (gen evl : GarbledCct3) (g : Gate) :
  GRR = true -> FREE_XOR = true -> Env_k <= 128 ->
  (forall b, length (Bytes_hash b Env_k) = key_size_in_bytes) ->
  (is_input g = false -> length (m_input_idx g) = 1 \/ length (m_input_idx g) = 2) ->
  (exists emitted,
     m_o_bufr (gen_next_gate gen g) = m_o_bufr gen ++ emitted
     /\ length emitted = row_count_bytes g)
  /\ m_i_bufr_ix (evl_next_gate evl g) = m_i_bufr_ix evl + row_count_bytes g.
Proof.
  intros HGRR HFX Hk Hhash _. split.
  - rewrite gen_next_gate_m_o_bufr. now apply gen_kernel_emits.
  - rewrite evl_next_gate_m_i_bufr_ix. now apply evl_kernel_advances.
Qed.

(** C6. Under FREE_XOR, for a gate that the free-XOR test accepts (and that
    is not an input gate) neither party spends buffer bytes on rows: the
    generator appends nothing but the tagging byte of an output gate and
    the evaluator's read iterator moves by that byte only. The generator
    stores as zero label the XOR of the zero labels of the two input wires
    (the zero label of the input wire for one input), and the evaluator
    stores the XOR of the two labels it holds (the label it holds for one
    input). *)
Theorem free_xor_gate (gen evl : GarbledCct3) (g : Gate) :
  FREE_XOR = true -> is_xor g = true -> is_input g = false ->
  let key_of (st : GarbledCct3) :=
    if length (m_input_idx g) =? 2
    then Z.lxor (m_w st !!! (m_input_idx g !!! 0)) (m_w st !!! (m_input_idx g !!! 1))
    else m_w st !!! (m_input_idx g !!! 0) in
  (m_o_bufr (gen_next_gate gen g) = m_o_bufr gen ++ gen_out_tag g (key_of gen)
   /\ length (gen_out_tag g (key_of gen)) = out_tag_len g
   /\ m_w (gen_next_gate gen g) = <[m_idx g := key_of gen]> (m_w gen))
  /\ (m_i_bufr_ix (evl_next_gate evl g) = m_i_bufr_ix evl + out_tag_len g
   /\ m_i_bufr (evl_next_gate evl g) = m_i_bufr evl
   /\ m_w (evl_next_gate evl g) = <[m_idx g := key_of evl]> (m_w evl)).
Proof.
  intros HFX Hxor Hin key_of.
  assert (Hkey : forall st, free_xor_key g st = key_of st) by reflexivity.
  assert (Hg : out_key (gen_kernel gen g) = key_of gen).
  { rewrite gen_kernel_internal by assumption. unfold gen_internal, gen_rows.
    rewrite HFX, Hxor. reflexivity. }
  assert (He : (evl_kernel evl g).1 = key_of evl).
  { rewrite evl_kernel_internal, evl_internal_key by assumption.
    unfold evl_rows. rewrite HFX, Hxor. reflexivity. }
  split; [split; [|split]|split; [|split]].
  - rewrite gen_next_gate_m_o_bufr, gen_kernel_internal by assumption.
    rewrite gen_internal_o_bufr. rewrite <- (gen_kernel_internal gen g Hin), Hg.
    unfold gen_rows. rewrite HFX, Hxor. reflexivity.
  - apply length_gen_out_tag.
  - now rewrite gen_next_gate_m_w, Hg.
  - rewrite evl_next_gate_m_i_bufr_ix, evl_kernel_internal by assumption.
    rewrite evl_internal_m_i_bufr_ix. unfold evl_rows. rewrite HFX, Hxor. reflexivity.
  - unfold evl_next_gate. cbn.
    destruct (update_hash_frame
              (set_m_w (<[m_idx g := (evl_kernel evl g).1]> (m_w (evl_kernel evl g).2))
                 (evl_kernel evl g).2)
              (m_i_bufr (evl_kernel evl g).2)) as (_ & _ & -> & _).
    cbn. apply evl_kernel_m_i_bufr.
  - now rewrite evl_next_gate_m_w, He.
Qed.

End WireFormatTheorems.
Section RowOrder.

Context {config : Config} {env : Env} {collab : Collab}.

Lemma slice_rows (pre r1 r2 r3 rest : Bytes) (n : nat) :
  length r1 = n -> length r2 = n -> length r3 = n ->
  slice (pre ++ r1 ++ r2 ++ r3 ++ rest) (length pre + 0 * n) n = r1
  /\ slice (pre ++ r1 ++ r2 ++ r3 ++ rest) (length pre + 1 * n) n = r2
  /\ slice (pre ++ r1 ++ r2 ++ r3 ++ rest) (length pre + 2 * n) n = r3.
Proof.
  intros <- H2 H3. split; [|split].
  - rewrite slice_app_l. apply slice_here.
  - replace (1 * length r1) with (length r1 + 0) by lia.
    rewrite !slice_app_l. rewrite <- H2. apply slice_here.
  - replace (2 * length r1) with (length r1 + (length r2 + 0)) by lia.
    rewrite !slice_app_l. rewrite <- H3. apply slice_here.
Qed.

Lemma gen_arity2_zero_row st g :
  GRR = true -> garbled_row st g (out_Z (gen_arity2 g st)) 0 = 0%Z.
Proof.
  intros HGRR. rewrite garbled_row_kernel. unfold gen_arity2, gen_entry0. rewrite HGRR.
  cbn -[Nat.lxor Nat.mul].
  rewrite Nat.lxor_0_l. change (Nat.odd 0) with false. change (Nat.odd (0 / 2)) with false.
  rewrite !xorb_false_r. unfold arr2_at. rewrite eqb_reflx.
  unfold xor_si128. apply Z.lxor_nilpotent.
Qed.

Lemma evl_arity2_GRR st g :
  GRR = true ->
  let C := and_si128 (KDF256 (set1_epi64x (m_gate_ix st))
                        (m_w st !!! (m_input_idx g !!! 0))
                        (m_w st !!! (m_input_idx g !!! 1))) (m_clear_mask st) in
  (evl_arity2 g st).1 =
  if garbled_ix_of st g =? 0 then C
  else xor_si128 C
         (load_key_at (m_i_bufr st)
            (m_i_bufr_ix st + (garbled_ix_of st g - 1) * key_size_in_bytes)).
Proof.
  intros HGRR. rewrite garbled_ix_of_kernel. unfold evl_arity2. rewrite HGRR. reflexivity.
Qed.

(** C5. For a 2-input gate that is not free, the generator appends the rows
    in the order of the key pairs [(X[px],Y[py])], [(X[1-px],Y[py])],
    [(X[px],Y[1-py])], [(X[1-px],Y[1-py])], row [r] carrying the table entry
    at [r xor p] for [p = (py<<1)|px]: each row is the low [K] of its 16
    little-endian bytes, and an output gate adds the byte holding the parity
    of the zero label. With GRR the row of [(X[px],Y[py])], which is zero,
    is left out; the evaluator with garbled index 0 takes the masked KDF
    output, and with garbled index [r > 0] XORs it with the [K] bytes at
    offset [(r-1)*K] from the read iterator, which, when its buffer holds
    the generator's bytes for the gate at the iterator, are the low [8K]
    bits of row [r]. *)
Theorem row_order (gen evl : GarbledCct3) (g : Gate) :
  is_input g = false -> FREE_XOR && is_xor g = false ->
  length (m_input_idx g) = 2 ->
  let K := key_size_in_bytes in
  let row := garbled_row gen g (out_Z (gen_kernel gen g)) in
  let sent (x : Z) := take K (le_split 16 x) in
  let tag :=
    match m_tag g with
    | EVL_OUT | GEN_OUT => [byte.of_Z (Z.b2z (Z.odd (out_key (gen_kernel gen g))))]
    | _ => []
    end in
  let gi := garbled_ix_of evl g in
  let C :=
    Z.land (KDF256 (gate_tweak (m_gate_ix evl))
              (m_w evl !!! (m_input_idx g !!! 0))
              (m_w evl !!! (m_input_idx g !!! 1))) (m_clear_mask evl) in
  m_o_bufr (gen_next_gate gen g) =
    m_o_bufr gen
    ++ (if GRR then [] else sent (row 0))
    ++ sent (row 1) ++ sent (row 2) ++ sent (row 3) ++ tag
  /\ (GRR = true ->
      row 0 = 0%Z
      /\ (evl_kernel evl g).1
         = (if gi =? 0 then C
            else Z.lxor C
                   (le_combine
                      (take 16 (take K (drop (m_i_bufr_ix evl + (gi - 1) * K)
                                          (m_i_bufr evl))))))
      /\ (Env_k <= 128 ->
          forall rest,
            m_i_bufr evl = m_o_bufr (gen_next_gate gen g) ++ rest ->
            m_i_bufr_ix evl = length (m_o_bufr gen) ->
            (evl_kernel evl g).1
            = (if gi =? 0 then C
               else Z.lxor C (row gi mod 2 ^ (8 * Z.of_nat K))%Z))).
Proof.
  intros Hin Hfree Harity K row sent tag gi C.
  assert (HZ : out_Z (gen_kernel gen g) = out_Z (gen_arity2 g gen)).
  { rewrite gen_kernel_internal by assumption. unfold gen_internal, gen_rows.
    rewrite Hfree, Harity. reflexivity. }
  assert (Hgen : m_o_bufr (gen_next_gate gen g) =
            m_o_bufr gen
            ++ (if GRR then [] else sent (row 0))
            ++ sent (row 1) ++ sent (row 2) ++ sent (row 3) ++ tag).
  { rewrite gen_next_gate_m_o_bufr. subst row tag. rewrite HZ.
    rewrite <- gen_out_tag_bytes.
    rewrite gen_kernel_internal by assumption.
    rewrite gen_internal_o_bufr. unfold gen_rows. rewrite Hfree, Harity. cbn [Nat.eqb].
    rewrite gen_arity2_rows. rewrite <- !app_assoc. reflexivity. }
  assert (Hevl : GRR = true ->
            (evl_kernel evl g).1
            = (if gi =? 0 then C
               else Z.lxor C
                      (le_combine
                         (take 16 (take K (drop (m_i_bufr_ix evl + (gi - 1) * K)
                                             (m_i_bufr evl))))))).
  { intros HGRR. rewrite evl_kernel_internal, evl_internal_key by assumption.
    unfold evl_rows. rewrite Hfree, Harity. cbn [Nat.eqb].
    rewrite evl_arity2_GRR by assumption. fold gi.
    rewrite load_key_at_bytes, set1_epi64x_sum. reflexivity. }
  split; [exact Hgen|]. intros HGRR. split; [|split].
  - subst row. rewrite HZ. now apply gen_arity2_zero_row.
  - now apply Hevl.
  - intros Hk rest Hbuf Hix. rewrite (Hevl HGRR).
    destruct (Nat.eqb_spec gi 0) as [|Hgi]; [reflexivity|].
    f_equal. rewrite Hbuf, Hgen, HGRR, Hix. cbn [app]. rewrite <- !app_assoc.
    pose proof (key_size_le_16 Hk) as HK16. fold K in HK16.
    assert (Hlen : forall x, length (sent x) = K).
    { intros x. unfold sent. rewrite length_take, length_le_split. lia. }
    destruct (slice_rows (m_o_bufr gen) (sent (row 1)) (sent (row 2)) (sent (row 3))
                (tag ++ rest) K (Hlen _) (Hlen _) (Hlen _)) as (H1 & H2 & H3).
    unfold slice in H1, H2, H3.
    assert (Hgi3 : gi = 1 \/ gi = 2 \/ gi = 3).
    { unfold gi, garbled_ix_of in *.
      destruct (Z.odd (m_w evl !!! (m_input_idx g !!! 1))),
               (Z.odd (m_w evl !!! (m_input_idx g !!! 0))); cbn in *; lia. }
    destruct Hgi3 as [-> | [-> | ->]]; cbn [Nat.sub].
    + rewrite H1. now apply le_combine_sent.
    + rewrite H2. now apply le_combine_sent.
    + rewrite H3. now apply le_combine_sent.
Qed.

End RowOrder.
Section InputBinding.

Context {config : Config} {env : Env} {collab : Collab}.

Lemma fold_left_filter_map {A B C : Type} (p : B -> bool) (h : B -> C)
    (f : A -> C -> A) (l : list B) (a : A) :
  fold_left (fun acc j => if p j then f acc (h j) else acc) l a
  = fold_left f (map h (List.filter p l)) a.
Proof.
  revert a. induction l as [|x l IH]; intros a; cbn; [reflexivity|].
  destruct (p x); cbn; apply IH.
Qed.

Lemma gen_inp_com_msg_spec mask decom row :
  gen_inp_com_msg mask decom row
  = xor_all (length (decom !!! 0))
      (map (fun j => decom !!! (2 * j + b2n (get_ith_bit mask j))) (row_wires row)).
Proof.
  unfold gen_inp_com_msg, xor_all, row_wires.
  apply (fold_left_filter_map (fun j => get_ith_bit row j)
           (fun j => decom !!! (2 * j + b2n (get_ith_bit mask j))) xor_assign).
Qed.

Lemma evl_inp_com_out_spec decom row :
  evl_inp_com_out decom row
  = xor_all (length (decom !!! 0)) (map (fun j => decom !!! j) (row_wires row)).
Proof.
  unfold evl_inp_com_out, xor_all, row_wires.
  apply (fold_left_filter_map (fun j => get_ith_bit row j)
           (fun j => decom !!! j) xor_assign).
Qed.

Lemma key_size_pos : 0 < Env_k -> 0 < key_size_in_bytes.
Proof.
  intros Hk. unfold key_size_in_bytes.
  pose proof (Nat.div_mod_eq (Env_k + 7) 8).
  pose proof (Nat.mod_upper_bound (Env_k + 7) 8). lia.
Qed.

Lemma loadu_take_key b :
  Env_k <= 128 ->
  loadu (resize 16 (take key_size_in_bytes b)) = le_combine (take key_size_in_bytes b).
Proof.
  intros Hk. apply loadu_resize. rewrite length_take.
  pose proof (key_size_le_16 Hk). lia.
Qed.

Lemma load_key_at_small (bufr : Bytes) (it : nat) :
  Env_k <= 128 ->
  load_key_at bufr it = le_combine (take key_size_in_bytes (drop it bufr)).
Proof.
  intros Hk. rewrite load_key_at_bytes. f_equal. apply take_ge.
  rewrite length_take. pose proof (key_size_le_16 Hk). lia.
Qed.

Lemma get_ith_bit_0_odd (b : Bytes) : get_ith_bit b 0 = Z.odd (le_combine b).
Proof. rewrite get_ith_bit_0. apply perm_bit_odd. Qed.

(** C9. [gen_next_gen_inp_com] samples [out0] as the PRNG's [k] bits with
    the low bit cleared and sets [out1 = out0 xor R]; [msg] is the XOR of
    the decommitments [D[2j + mask[j]]] over the wires [j] with
    [row[j] = 1]; [in0] is the first [K] bytes of [msg] and
    [in1 = in0 xor R]; it appends exactly [2K] bytes: the low [K] bytes of
    the masked [KDF128(kx, in_b)] XOR-ed with [out_b] for [b = lsb(msg)],
    then the same for [1-b]. [evl_next_gen_inp_com] advances the read
    iterator by exactly [2K], reads the [K] bytes at offset [lsb(out)*K],
    and writes the low bit of its decryption at position [kx] of
    [gen_inp_hash]; when its buffer holds the generator's bytes at the
    iterator, the bytes it reads are those of the ciphertext for
    [b xor lsb(out)]. *)
Theorem input_binding_rows (gen evl : GarbledCct3) (row : Bytes) (kx : nat) :
  0 < Env_k -> Env_k <= 128 ->
  length (Prng_rand (m_prng gen) Env_k).1 = key_size_in_bytes ->
  let K := key_size_in_bytes in
  let R := m_R gen in
  let out0 := Z.clearbit (le_combine (Prng_rand (m_prng gen) Env_k).1) 0 in
  let out1 := Z.lxor out0 R in
  let msg :=
    xor_all (length (m_gen_inp_decom gen !!! 0))
      (map (fun j => m_gen_inp_decom gen !!! (2 * j + b2n (get_ith_bit (m_gen_inp_mask gen) j)))
           (row_wires row)) in
  let in0 := le_combine (take K msg) in
  let in1 := Z.lxor in0 R in
  let ct (b : bool) :=
    Z.lxor (Z.land (KDF128 (gate_tweak (Z.of_nat kx)) (if b then in1 else in0))
                   (m_clear_mask gen))
           (if b then out1 else out0) in
  let sent (x : Z) := take K (le_split 16 x) in
  let b := Z.odd (le_combine msg) in
  let out :=
    xor_all (length (m_gen_inp_decom evl !!! 0))
      (map (fun j => m_gen_inp_decom evl !!! j) (row_wires row)) in
  let C :=
    Z.land (KDF128 (gate_tweak (Z.of_nat kx)) (le_combine (take K out)))
           (m_clear_mask evl) in
  let lo := Z.odd (le_combine out) in
  let read := le_combine (take K (drop (m_i_bufr_ix evl + b2n lo * K) (m_i_bufr evl))) in
  let bit := Z.odd (Z.lxor read C) in
  (Z.odd out0 = false
   /\ m_o_bufr (gen_next_gen_inp_com gen row kx)
      = m_o_bufr gen ++ sent (ct b) ++ sent (ct (negb b))
   /\ length (sent (ct b) ++ sent (ct (negb b))) = 2 * K)
  /\ (m_i_bufr_ix (evl_next_gen_inp_com evl row kx) = m_i_bufr_ix evl + 2 * K
   /\ m_gen_inp_hash (evl_next_gen_inp_com evl row kx)
      = set_ith_bit (m_gen_inp_hash evl) kx bit
   /\ (kx < 8 * length (m_gen_inp_hash evl) ->
       forall j, get_ith_bit (m_gen_inp_hash (evl_next_gen_inp_com evl row kx)) j
                 = if j =? kx then bit else get_ith_bit (m_gen_inp_hash evl) j)
   /\ (forall rest,
         m_i_bufr evl = m_o_bufr (gen_next_gen_inp_com gen row kx) ++ rest ->
         m_i_bufr_ix evl = length (m_o_bufr gen) ->
         read = (ct (xorb b lo) mod 2 ^ (8 * Z.of_nat K))%Z)).
Proof.
  intros Hpos Hk Hlen K R out0 out1 msg in0 in1 ct sent b out C lo read bit.
  pose proof (key_size_le_16 Hk) as HK16. pose proof (key_size_pos Hpos) as HK0.
  fold K in HK16, HK0.
  assert (Hout0 : loadu (resize 16 (set_ith_bit (Prng_rand (m_prng gen) Env_k).1 0 false))
                  = out0).
  { rewrite loadu_resize by (rewrite length_set_ith_bit; lia).
    apply le_combine_set_ith_bit. lia. }
  assert (Hsent : forall x, length (sent x) = K).
  { intros x. unfold sent. rewrite length_take, length_le_split. lia. }
  assert (Hgen : m_o_bufr (gen_next_gen_inp_com gen row kx)
                 = m_o_bufr gen ++ sent (ct b) ++ sent (ct (negb b))).
  { unfold gen_next_gen_inp_com. cbn.
    rewrite gen_inp_com_msg_spec. fold msg.
    rewrite get_ith_bit_0_odd. fold b.
    rewrite Hout0, (loadu_take_key msg Hk), set1_epi64x_sum. fold K in0.
    rewrite <- app_assoc. do 2 f_equal.
    - unfold ct, arr2, xor_si128, and_si128, sent, key_bytes, storeu.
      destruct b; do 2 f_equal; apply Z.lxor_comm.
    - unfold ct, arr2, xor_si128, and_si128, sent, key_bytes, storeu.
      destruct b; do 2 f_equal; apply Z.lxor_comm. }
  assert (Hh : m_gen_inp_hash (evl_next_gen_inp_com evl row kx)
               = set_ith_bit (m_gen_inp_hash evl) kx bit).
  { unfold evl_next_gen_inp_com. cbn.
    rewrite evl_inp_com_out_spec. fold out.
    rewrite get_ith_bit_0_odd. fold lo.
    rewrite (loadu_take_key out Hk), (load_key_at_small _ _ Hk), set1_epi64x_sum,
      perm_bit_odd.
    reflexivity. }
  split; [split; [|split]|split; [|split; [|split]]].
  - unfold out0. rewrite <- perm_bit_odd. apply perm_bit_clearbit0.
  - exact Hgen.
  - rewrite length_app, !Hsent. lia.
  - unfold evl_next_gen_inp_com. cbn. reflexivity.
  - exact Hh.
  - intros Hkx j. rewrite Hh. now apply get_set_ith_bit.
  - intros rest Hbuf Hix. unfold read. rewrite Hbuf, Hgen, Hix, <- !app_assoc.
    pose proof (slice_pair (m_o_bufr gen) (sent (ct b)) (sent (ct (negb b))) rest K lo
                  (Hsent _) (Hsent _)) as Hs.
    unfold slice in Hs. rewrite Hs.
    destruct lo; rewrite ?xorb_true_r, ?xorb_false_r; unfold sent;
      now apply le_combine_take_split.
Qed.

End InputBinding.
Section RunningHash.

Context {config : Config} {env : Env} {collab : Collab}.

Lemma update_hash_stream st d : hash_stream (update_hash st d) = hash_stream st ++ d.
Proof.
  unfold update_hash, hash_stream.
  destruct (RAND_SEED && _); cbn.
  - rewrite app_nil_r. now rewrite app_assoc.
  - now rewrite app_assoc.
Qed.

Lemma gen_kernel_appends st g :
  exists emitted, m_o_bufr (out_st (gen_kernel st g)) = m_o_bufr st ++ emitted.
Proof.
  unfold gen_kernel.
  assert (Hint : exists emitted,
             m_o_bufr (out_st (gen_internal g st)) = m_o_bufr st ++ emitted).
  { rewrite gen_internal_o_bufr. unfold gen_rows.
    destruct (FREE_XOR && is_xor g); [|destruct (length (m_input_idx g) =? 2)].
    - eexists. reflexivity.
    - rewrite gen_arity2_rows. rewrite <- app_assoc. eexists. reflexivity.
    - destruct (gen_arity1_rows st g) as (r0 & r1 & ->).
      rewrite <- app_assoc. eexists. reflexivity. }
  destruct (m_tag g); try exact Hint.
  - unfold gen_GEN_INP. cbn. rewrite <- app_assoc. eexists. reflexivity.
  - unfold gen_EVL_INP. cbn. rewrite <- app_assoc. eexists. reflexivity.
Qed.

Lemma gen_next_gate_emitted st g :
  m_o_bufr (gen_next_gate st g) = m_o_bufr st ++ gen_emitted st g.
Proof.
  unfold gen_emitted. rewrite gen_next_gate_m_o_bufr.
  destruct (gen_kernel_appends st g) as (e & ->).
  now rewrite drop_app_length.
Qed.

Lemma gen_next_gate_hash st g :
  m_bufr (gen_next_gate st g) = m_bufr st /\ m_hash (gen_next_gate st g) = m_hash st.
Proof.
  unfold gen_next_gate. cbn. unfold gen_kernel, gen_internal, gen_rows.
  destruct (m_tag g); try (split; reflexivity).
  all: destruct (FREE_XOR && is_xor g); try (split; reflexivity).
  all: destruct (length (m_input_idx g) =? 2); split; reflexivity.
Qed.

Lemma com_next_gate_stream st g :
  hash_stream (com_next_gate st g) = hash_stream st ++ m_o_bufr st ++ gen_emitted st g
  /\ m_o_bufr (com_next_gate st g) = [].
Proof.
  unfold com_next_gate. split; [|reflexivity].
  change (hash_stream (set_m_o_bufr [] ?s)) with (hash_stream s).
  rewrite update_hash_stream, gen_next_gate_emitted.
  unfold hash_stream. destruct (gen_next_gate_hash st g) as [-> ->]. reflexivity.
Qed.

Lemma evl_next_gate_stream st g :
  hash_stream (evl_next_gate st g) = hash_stream st ++ m_i_bufr st.
Proof.
  unfold evl_next_gate.
  change (hash_stream (set_m_gate_ix ?x ?s)) with (hash_stream s).
  rewrite update_hash_stream. cbn.
  rewrite evl_kernel_m_i_bufr. unfold hash_stream. cbn.
  now rewrite evl_kernel_m_bufr, evl_kernel_m_hash.
Qed.

End RunningHash.
Section RunningHashRun.

Context {config : Config} {env : Env} {collab : Collab}.

(** [gen_next_gate] neither reads nor writes the spill buffer and the hash. *)
Lemma gen_next_gate_hash_blind st g x y :
  gen_next_gate (set_m_bufr x (set_m_hash y st)) g
  = set_m_bufr x (set_m_hash y (gen_next_gate st g)).
Proof.
  destruct st. unfold gen_next_gate, gen_kernel, gen_internal, gen_rows.
  destruct (m_tag g); try reflexivity.
  all: destruct (FREE_XOR && is_xor g); try reflexivity.
  all: destruct (length (m_input_idx g) =? 2); try reflexivity.
Qed.

Lemma com_next_gate_hash_blind a b g :
  (exists x y, a = set_m_bufr x (set_m_hash y b)) ->
  m_o_bufr b = [] ->
  (exists x y, com_next_gate a g
               = set_m_bufr x (set_m_hash y (send (gen_next_gate b g)).2))
  /\ hash_stream (com_next_gate a g) = hash_stream a ++ (send (gen_next_gate b g)).1.
Proof.
  intros (x & y & ->) Hb. split.
  - unfold com_next_gate, send. rewrite gen_next_gate_hash_blind.
    generalize (gen_next_gate b g). intros s. destruct s. cbn.
    unfold update_hash. cbn.
    destruct (RAND_SEED && _); do 2 eexists; reflexivity.
  - destruct (com_next_gate_stream (set_m_bufr x (set_m_hash y b)) g) as [-> _].
    assert (He : gen_emitted (set_m_bufr x (set_m_hash y b)) g
                 = m_o_bufr (gen_next_gate b g)).
    { unfold gen_emitted. rewrite gen_next_gate_hash_blind. cbn. rewrite Hb. apply drop_0. }
    rewrite He. cbn. rewrite Hb. reflexivity.
Qed.

Lemma com_run_lockstep gates : forall a b evl,
  (exists x y, a = set_m_bufr x (set_m_hash y b)) ->
  m_o_bufr b = [] ->
  hash_stream a = hash_stream evl ->
  hash_stream (com_run a gates) = hash_stream (lockstep_run b evl gates).2.
Proof.
  induction gates as [|g gates IH]; intros a b evl Hab Hb Hs; cbn; [exact Hs|].
  destruct (com_next_gate_hash_blind a b g Hab Hb) as (Hab' & Hs').
  apply IH.
  - exact Hab'.
  - reflexivity.
  - rewrite Hs', evl_next_gate_stream. cbn. unfold hash_stream in *. cbn.
    now rewrite <- Hs.
Qed.

(** C8, as the code has it. [com_next_gate] folds the whole [out_buffer]
    into the running hash and empties it, which is exactly the bytes of the
    current gate when the buffer was empty before the call, as it is after
    [com_init] and after every [com_next_gate]; [evl_next_gate] folds the
    whole [in_buffer], whatever part of it the gate consumes. When the
    transport delivers to the evaluator, before each gate, exactly the bytes
    the generator produced for that gate, both parties have absorbed the same
    byte sequence in the same order after every run. *)
Theorem running_hash_folds_whole_buffers (gen evl : GarbledCct3) (g : Gate) (gates : list Gate) :
  m_o_bufr gen = [] ->
  hash_stream gen = hash_stream evl ->
  hash_stream (com_next_gate gen g) = hash_stream gen ++ gen_emitted gen g
  /\ m_o_bufr (com_next_gate gen g) = []
  /\ hash_stream (evl_next_gate evl g) = hash_stream evl ++ m_i_bufr evl
  /\ hash_stream (com_run gen gates) = hash_stream (lockstep_run gen evl gates).2.
Proof.
  intros Ho Hs.
  destruct (com_next_gate_stream gen g) as [H1 H2].
  rewrite Ho in H1. cbn in H1.
  repeat split; try assumption.
  - apply evl_next_gate_stream.
  - apply com_run_lockstep; try assumption.
    exists (m_bufr gen), (m_hash gen). destruct gen; reflexivity.
Qed.

End RunningHashRun.
(** ** Labels *)

Section Labels.

Lemma lab_false R w : lab R w false = w.
Proof. unfold lab. apply Z.lxor_0_r. Qed.

Lemma lab_true R w : lab R w true = Z.lxor w R.
Proof. reflexivity. Qed.

Lemma arr2_lab R w b : arr2 w (xor_si128 w R) b = lab R w b.
Proof. destruct b; cbn; [reflexivity | symmetry; apply lab_false]. Qed.

Lemma lab_lab R w a b : lab R (lab R w a) b = lab R w (xorb a b).
Proof.
  unfold lab. rewrite Z.lxor_assoc. f_equal.
  destruct a, b; cbn; rewrite ?Z.lxor_nilpotent, ?Z.lxor_0_r, ?Z.lxor_0_l; reflexivity.
Qed.

Lemma xor_lab R w b : xor_si128 (lab R w b) R = lab R w (negb b).
Proof.
  change (xor_si128 (lab R w b) R) with (lab R (lab R w b) true).
  rewrite lab_lab. now rewrite xorb_true_r.
Qed.

Lemma perm_bit_lab R w v :
  perm_bit R = true -> perm_bit (lab R w v) = xorb (perm_bit w) v.
Proof.
  intros HR. unfold lab. change (Z.lxor ?a ?b) with (xor_si128 a b).
  rewrite perm_bit_xor. destruct v; [now rewrite HR|].
  rewrite perm_bit_testbit. reflexivity.
Qed.

Lemma lab_bound (n : nat) R w v :
  (0 <= R < 2 ^ Z.of_nat n)%Z -> (0 <= w < 2 ^ Z.of_nat n)%Z ->
  (0 <= lab R w v < 2 ^ Z.of_nat n)%Z.
Proof.
  intros HR Hw. unfold lab. apply lxor_bound; [lia | assumption |].
  destruct v; [assumption|]. split; [lia|]. apply Z.pow_pos_nonneg; lia.
Qed.

Lemma lab_xor R a x b y :
  xor_si128 (lab R a x) (lab R b y) = lab R (xor_si128 a b) (xorb x y).
Proof.
  unfold lab, xor_si128.
  destruct x, y; cbn; rewrite ?Z.lxor_0_r.
  - rewrite Z.lxor_assoc, (Z.lxor_comm R (Z.lxor b R)), (Z.lxor_assoc b R R),
      Z.lxor_nilpotent, Z.lxor_0_r. reflexivity.
  - rewrite !Z.lxor_assoc. f_equal. apply Z.lxor_comm.
  - now rewrite Z.lxor_assoc.
  - reflexivity.
Qed.

(** The masked value of a KDF output has [k] bits. *)
Lemma and_ones_bound (n : nat) x :
  (0 <= and_si128 x (Z.ones (Z.of_nat n)) < 2 ^ Z.of_nat n)%Z.
Proof. apply land_ones_bound. lia. Qed.

Lemma arr2_at_lab R C bit b :
  arr2_at bit C (xor_si128 C R) b = lab R (arr2_at bit C (xor_si128 C R) false) b.
Proof.
  unfold arr2_at. destruct bit, b; cbn.
  - change (xor_si128 C R) with (lab R C true). now rewrite lab_lab, lab_false.
  - now rewrite lab_false.
  - reflexivity.
  - now rewrite lab_false.
Qed.

Lemma arr2_at_same {A : Type} bit (v w : A) : arr2_at bit v w bit = v.
Proof. unfold arr2_at. now rewrite eqb_reflx. Qed.

End Labels.

Section KeySize.

Context {env : Env}.

Lemma k_le_8K : Env_k <= 8 * key_size_in_bytes.
Proof.
  unfold key_size_in_bytes.
  pose proof (Nat.div_mod_eq (Env_k + 7) 8).
  pose proof (Nat.mod_upper_bound (Env_k + 7) 8). lia.
Qed.

Lemma pow_k_le_8K : (2 ^ Z.of_nat Env_k <= 2 ^ (8 * Z.of_nat key_size_in_bytes))%Z.
Proof. apply Z.pow_le_mono_r; [lia|]. pose proof k_le_8K. lia. Qed.

Lemma bound_k_8K x :
  (0 <= x < 2 ^ Z.of_nat Env_k)%Z -> (0 <= x < 2 ^ (8 * Z.of_nat key_size_in_bytes))%Z.
Proof. intros Hx. pose proof pow_k_le_8K. lia. Qed.

(** A value of [K] bytes survives the trip through the stream. *)
Lemma loadu_key_bytes x :
  Env_k <= 128 -> (0 <= x < 2 ^ (8 * Z.of_nat key_size_in_bytes))%Z ->
  loadu (resize 16 (key_bytes x)) = x.
Proof.
  intros Hk Hx. unfold key_bytes. apply loadu_take_storeu; [|assumption].
  now apply key_size_le_16.
Qed.

Lemma load_key_at_here (pre rest : Bytes) x :
  Env_k <= 128 -> (0 <= x < 2 ^ (8 * Z.of_nat key_size_in_bytes))%Z ->
  load_key_at (pre ++ key_bytes x ++ rest) (length pre) = x.
Proof.
  intros Hk Hx. unfold load_key_at.
  replace (length pre) with (length pre + 0) by lia.
  rewrite slice_app_l. rewrite <- (length_key_bytes x Hk).
  rewrite slice_here. now apply loadu_key_bytes.
Qed.

(** The [j]-th key after the read iterator. *)
Lemma load_key_at_skip (pre rest : Bytes) x j :
  Env_k <= 128 ->
  load_key_at (pre ++ key_bytes x ++ rest) (length pre + S j * key_size_in_bytes)
  = load_key_at ((pre ++ key_bytes x) ++ rest)
      (length (pre ++ key_bytes x) + j * key_size_in_bytes).
Proof.
  intros Hk. rewrite <- app_assoc. f_equal.
  rewrite length_app, length_key_bytes by assumption. lia.
Qed.

End KeySize.
Section InputGates.

Context {config : Config} {env : Env} {collab : Collab} {ok : CollabOk}.

Lemma rand_value p :
  loadu (resize 16 (Prng_rand p Env_k).1) = le_combine (Prng_rand p Env_k).1
  /\ (0 <= le_combine (Prng_rand p Env_k).1 < 2 ^ Z.of_nat Env_k)%Z.
Proof.
  split.
  - apply loadu_resize. rewrite rand_length. apply key_size_le_16, k_le_128.
  - split; [apply le_combine_bound | apply rand_bound].
Qed.

Lemma take_key_bytes_app x (r : Bytes) :
  take key_size_in_bytes (take key_size_in_bytes (storeu x) ++ r) = key_bytes x.
Proof.
  unfold key_bytes. rewrite take_app_le.
  - apply take_take_same || (rewrite take_take; f_equal; lia).
  - rewrite length_take_storeu; [lia | apply key_size_le_16, k_le_128].
Qed.

Lemma sim_GEN_INP (G E : GarbledCct3) :
  (0 <= m_R G < 2 ^ Z.of_nat Env_k)%Z ->
  m_gen_inp_ix E = m_gen_inp_ix G ->
  m_gen_inp_ix G < gen_inp_cnt ->
  length (m_gen_inp_decom G) = 2 * gen_inp_cnt ->
  let ix := m_gen_inp_ix G in
  let sel := get_ith_bit (m_gen_inp_mask E) ix in
  m_gen_inp_decom E !!! ix = m_gen_inp_decom (out_st (gen_GEN_INP G)) !!! (2 * ix + b2n sel) ->
  (0 <= out_key (gen_GEN_INP G) < 2 ^ Z.of_nat Env_k)%Z
  /\ (evl_GEN_INP E).1
     = lab (m_R G) (out_key (gen_GEN_INP G))
         (xorb sel (get_ith_bit (m_gen_inp_mask G) ix)).
Proof.
  intros HR Hix Hlt Hlen ix sel Hdecom.
  destruct (rand_value (m_prng G)) as [Hload Hbound].
  assert (Hkey : out_key (gen_GEN_INP G) = le_combine (Prng_rand (m_prng G) Env_k).1)
    by (unfold gen_GEN_INP; fields; exact Hload).
  split; [rewrite Hkey; exact Hbound|].
  rewrite Hkey.
  unfold evl_GEN_INP. fields. rewrite Hix. fold ix. rewrite Hdecom.
  unfold gen_GEN_INP. fields. fold ix. rewrite Hload.
  set (z0 := le_combine (Prng_rand (m_prng G) Env_k).1) in *.
  set (bit := get_ith_bit (m_gen_inp_mask G) ix).
  assert (Hsel : forall d0 d1 : Bytes,
    <[2 * ix + 1 := d1]> (<[2 * ix + 0 := d0]> (m_gen_inp_decom G)) !!! (2 * ix + b2n sel)
    = if sel then d1 else d0).
  { intros d0 d1. destruct sel; cbn [b2n].
    - rewrite list_lookup_total_insert. rewrite length_insert.
      destruct (decide _) as [_|Hn]; [reflexivity|]. exfalso. apply Hn. lia.
    - rewrite list_lookup_total_insert_ne by lia.
      rewrite list_lookup_total_insert.
      destruct (decide _) as [_|Hn]; [reflexivity|]. exfalso. apply Hn. lia. }
  rewrite Hsel.
  assert (Hlab : forall b, (0 <= arr2 z0 (xor_si128 z0 (m_R G)) b < 2 ^ Z.of_nat Env_k)%Z).
  { intros b. rewrite arr2_lab. apply lab_bound; assumption. }
  destruct sel;
    rewrite take_key_bytes_app, loadu_key_bytes
      by (apply k_le_128 || (apply bound_k_8K, Hlab));
    rewrite arr2_lab; f_equal; destruct bit; reflexivity.
Qed.

End InputGates.
Section EvlInp.

Context {config : Config} {env : Env} {collab : Collab} {ok : CollabOk}.

Lemma ot_key_value (key : Bytes) :
  length key <= key_size_in_bytes ->
  loadu (resize 16 key) = le_combine key
  /\ (0 <= le_combine key < 2 ^ (8 * Z.of_nat key_size_in_bytes))%Z.
Proof.
  intros Hlen. pose proof (key_size_le_16 k_le_128) as H16. split.
  - apply loadu_resize. lia.
  - pose proof (le_combine_bound key) as Hb. split; [lia|].
    eapply Z.lt_le_trans; [apply Hb|]. apply Z.pow_le_mono_r; lia.
Qed.

Lemma sim_EVL_INP (G E : GarbledCct3) (rest : Bytes) :
  (0 <= m_R G < 2 ^ Z.of_nat Env_k)%Z ->
  m_evl_inp_ix E = m_evl_inp_ix G ->
  let ix := m_evl_inp_ix G in
  let bit := get_ith_bit (m_evl_inp E) ix in
  length (m_ot_keys G !!! (2 * ix + 0)) <= key_size_in_bytes ->
  length (m_ot_keys G !!! (2 * ix + 1)) <= key_size_in_bytes ->
  m_ot_keys E !!! ix = m_ot_keys G !!! (2 * ix + b2n bit) ->
  m_i_bufr E = m_o_bufr (out_st (gen_EVL_INP G)) ++ rest ->
  m_i_bufr_ix E = length (m_o_bufr G) ->
  (0 <= out_key (gen_EVL_INP G) < 2 ^ Z.of_nat Env_k)%Z
  /\ (evl_EVL_INP E).1 = lab (m_R G) (out_key (gen_EVL_INP G)) bit.
Proof.
  intros HR Hix ix bit Hl0 Hl1 Hot Hbuf Hcur.
  destruct (rand_value (m_prng G)) as [Hload Hbound].
  assert (Hkey : out_key (gen_EVL_INP G) = le_combine (Prng_rand (m_prng G) Env_k).1)
    by (unfold gen_EVL_INP; fields; exact Hload).
  split; [rewrite Hkey; exact Hbound|].
  rewrite Hkey.
  unfold evl_EVL_INP. fields. rewrite Hix. fold ix. fold bit. rewrite Hot, Hbuf, Hcur.
  unfold gen_EVL_INP. fields. fold ix. rewrite Hload.
  set (z0 := le_combine (Prng_rand (m_prng G) Env_k).1) in *.
  destruct (ot_key_value _ Hl0) as [-> Hb0].
  destruct (ot_key_value _ Hl1) as [-> Hb1].
  set (o0 := le_combine (m_ot_keys G !!! (2 * ix + 0))) in *.
  set (o1 := le_combine (m_ot_keys G !!! (2 * ix + 1))) in *.
  assert (Ha0 : (0 <= xor_si128 o0 z0 < 2 ^ (8 * Z.of_nat key_size_in_bytes))%Z).
  { apply lxor_bound; [lia | assumption | now apply bound_k_8K]. }
  assert (Ha1 : (0 <= xor_si128 o1 (xor_si128 z0 (m_R G))
                 < 2 ^ (8 * Z.of_nat key_size_in_bytes))%Z).
  { apply lxor_bound; [lia | assumption |]. apply bound_k_8K.
    apply lxor_bound; [lia | assumption | assumption]. }
  destruct bit; cbn [b2n].
  - rewrite <- !app_assoc.
    rewrite (load_key_at_skip (m_o_bufr G) _ _ 0 k_le_128).
    rewrite Nat.mul_0_l, (Nat.add_0_r (length _)).
    rewrite load_key_at_here by (apply k_le_128 || assumption).
    destruct (ot_key_value _ Hl1) as [-> _]. fold o1.
    unfold lab, xor_si128.
    rewrite <- Z.lxor_assoc, Z.lxor_nilpotent, Z.lxor_0_l. reflexivity.
  - rewrite Nat.mul_0_l, (Nat.add_0_r (length (m_o_bufr G))). rewrite <- !app_assoc.
    rewrite load_key_at_here by (apply k_le_128 || assumption).
    destruct (ot_key_value _ Hl0) as [-> _]. fold o0.
    unfold lab, xor_si128.
    rewrite <- Z.lxor_assoc, Z.lxor_nilpotent, Z.lxor_0_l, Z.lxor_0_r. reflexivity.
Qed.

End EvlInp.
Section InternalGates.

Context {config : Config} {env : Env} {collab : Collab} {ok : CollabOk}.

Lemma odd_garbled_ix (a b : bool) : Nat.odd (2 * b2n a + b2n b) = b.
Proof. destruct a, b; reflexivity. Qed.

Lemma half_garbled_ix (a b : bool) : Nat.odd ((2 * b2n a + b2n b) / 2) = a.
Proof. destruct a, b; reflexivity. Qed.

Lemma lxor_garbled_ix (px py x y : bool) :
  Nat.lxor (2 * b2n (xorb py y) + b2n (xorb px x)) (2 * b2n py + b2n px)
  = 2 * b2n y + b2n x.
Proof. destruct px, py, x, y; reflexivity. Qed.

Lemma garbled_ix_cases (a b : bool) :
  let r := 2 * b2n a + b2n b in
  r = 0 \/ r - 1 = 0 /\ r = 1 \/ r - 1 = 1 /\ r = 2 \/ r - 1 = 2 /\ r = 3.
Proof. destruct a, b; cbn; lia. Qed.

Lemma load_rows3 (pre rest : Bytes) (x1 x2 x3 : Z) :
  (0 <= x1 < 2 ^ (8 * Z.of_nat key_size_in_bytes))%Z ->
  (0 <= x2 < 2 ^ (8 * Z.of_nat key_size_in_bytes))%Z ->
  (0 <= x3 < 2 ^ (8 * Z.of_nat key_size_in_bytes))%Z ->
  let buf := pre ++ key_bytes x1 ++ key_bytes x2 ++ key_bytes x3 ++ rest in
  load_key_at buf (length pre + 0 * key_size_in_bytes) = x1
  /\ load_key_at buf (length pre + 1 * key_size_in_bytes) = x2
  /\ load_key_at buf (length pre + 2 * key_size_in_bytes) = x3.
Proof.
  intros H1 H2 H3 buf. subst buf. pose proof k_le_128 as Hk.
  split; [|split].
  - rewrite Nat.mul_0_l, Nat.add_0_r. now apply load_key_at_here.
  - rewrite (load_key_at_skip pre _ x1 0 Hk).
    rewrite Nat.mul_0_l, Nat.add_0_r. now apply load_key_at_here.
  - rewrite (load_key_at_skip pre _ x1 1 Hk).
    rewrite (load_key_at_skip (pre ++ key_bytes x1) _ x2 0 Hk).
    rewrite Nat.mul_0_l, Nat.add_0_r. now apply load_key_at_here.
Qed.

Lemma xor_si128_swap C z : xor_si128 C (xor_si128 C z) = z.
Proof.
  unfold xor_si128. now rewrite <- Z.lxor_assoc, Z.lxor_nilpotent, Z.lxor_0_l.
Qed.

Lemma sim_arity2 (G E : GarbledCct3) (g : Gate) (x y : bool) (rest : Bytes) :
  GRR = true ->
  perm_bit (m_R G) = true ->
  (0 <= m_R G < 2 ^ Z.of_nat Env_k)%Z ->
  m_clear_mask G = Z.ones (Z.of_nat Env_k) ->
  m_clear_mask E = Z.ones (Z.of_nat Env_k) ->
  m_gate_ix G = m_gate_ix E ->
  m_w E !!! (m_input_idx g !!! 0) = lab (m_R G) (m_w G !!! (m_input_idx g !!! 0)) x ->
  m_w E !!! (m_input_idx g !!! 1) = lab (m_R G) (m_w G !!! (m_input_idx g !!! 1)) y ->
  m_i_bufr E = m_o_bufr (out_st (gen_arity2 g G)) ++ rest ->
  m_i_bufr_ix E = length (m_o_bufr G) ->
  (0 <= out_key (gen_arity2 g G) < 2 ^ Z.of_nat Env_k)%Z
  /\ (evl_arity2 g E).1
     = lab (m_R G) (out_key (gen_arity2 g G)) (table_at g (2 * b2n y + b2n x)).
Proof.
  intros HGRR HRp HR HmG HmE Hgix HA HB Hbuf Hcur.
  set (R := m_R G) in *.
  set (X0 := m_w G !!! (m_input_idx g !!! 0)) in *.
  set (Y0 := m_w G !!! (m_input_idx g !!! 1)) in *.
  set (px := perm_bit X0). set (py := perm_bit Y0).
  set (v := table_at g (2 * b2n y + b2n x)).
  (* the output labels *)
  set (Zl := out_Z (gen_arity2 g G)).
  assert (HZ : exists C bit,
             Zl = arr2_at bit (and_si128 C (Z.ones (Z.of_nat Env_k)))
                    (xor_si128 (and_si128 C (Z.ones (Z.of_nat Env_k))) R)
             /\ out_key (gen_arity2 g G) = Zl false).
  { subst Zl. unfold gen_arity2, gen_entry0. rewrite HGRR, HmG. fields.
    do 2 eexists. split; reflexivity. }
  destruct HZ as (C0 & bit0 & HZl & Hkey).
  assert (HZb : forall b, Zl b = lab R (Zl false) b).
  { intros b. rewrite HZl. apply arr2_at_lab. }
  assert (HZbound : forall b, (0 <= Zl b < 2 ^ Z.of_nat Env_k)%Z).
  { intros b. rewrite HZl. unfold arr2_at.
    destruct (eqb b bit0); [apply and_ones_bound|].
    apply lxor_bound; [lia | apply and_ones_bound | assumption]. }
  split; [rewrite Hkey; apply HZbound|].
  rewrite Hkey, <- HZb.
  (* the rows *)
  pose proof (gen_arity2_rows G g) as Hrows. cbv zeta in Hrows.
  fold Zl in Hrows. rewrite HGRR in Hrows. cbn [app] in Hrows.
  pose proof (gen_arity2_zero_row G g HGRR) as Hrow0. fold Zl in Hrow0.
  (* every row, seen from the evaluator *)
  assert (HpA : perm_bit (m_w E !!! (m_input_idx g !!! 0)) = xorb px x).
  { rewrite HA. now apply perm_bit_lab. }
  assert (HpB : perm_bit (m_w E !!! (m_input_idx g !!! 1)) = xorb py y).
  { rewrite HB. now apply perm_bit_lab. }
  set (CE := and_si128 (KDF256 (set1_epi64x (m_gate_ix E))
                          (m_w E !!! (m_input_idx g !!! 0))
                          (m_w E !!! (m_input_idx g !!! 1))) (m_clear_mask E)).
  assert (Hrow : garbled_row G g Zl (garbled_ix_of E g) = xor_si128 CE (Zl v)).
  { rewrite garbled_row_kernel, garbled_ix_of_kernel. rewrite HpA, HpB. fold R X0 Y0 px py.
    rewrite odd_garbled_ix, half_garbled_ix, lxor_garbled_ix.
    rewrite <- !xorb_assoc, !xorb_nilpotent, !xorb_false_l.
    rewrite !arr2_lab. fold v. subst CE. rewrite HA, HB, HmG, HmE, Hgix. reflexivity. }
  assert (HCEb : (0 <= CE < 2 ^ Z.of_nat Env_k)%Z).
  { subst CE. rewrite HmE. apply and_ones_bound. }
  assert (Hrb : forall r, (0 <= garbled_row G g Zl r
                           < 2 ^ (8 * Z.of_nat key_size_in_bytes))%Z).
  { intros r. apply bound_k_8K. rewrite garbled_row_kernel. rewrite HmG.
    apply lxor_bound; [lia | apply and_ones_bound | apply HZbound]. }
  rewrite (evl_arity2_GRR E g HGRR). fold CE.
  rewrite Hbuf, Hrows, Hcur. rewrite <- !app_assoc.
  destruct (load_rows3 (m_o_bufr G) rest _ _ _ (Hrb 1) (Hrb 2) (Hrb 3)) as (L1 & L2 & L3).
  rewrite garbled_ix_of_kernel in *. rewrite HpA, HpB in *.
  destruct (garbled_ix_cases (xorb py y) (xorb px x)) as [H0 | [[Hm H1] | [[Hm H2] | [Hm H3]]]].
  - rewrite H0 in *. cbn [Nat.eqb]. rewrite Hrow0 in Hrow.
    symmetry in Hrow. apply Z.lxor_eq in Hrow. exact Hrow.
  - rewrite H1 in *. cbn [Nat.eqb Nat.sub]. rewrite L1, Hrow. apply xor_si128_swap.
  - rewrite H2 in *. cbn [Nat.eqb Nat.sub]. rewrite L2, Hrow. apply xor_si128_swap.
  - rewrite H3 in *. cbn [Nat.eqb Nat.sub]. rewrite L3, Hrow. apply xor_si128_swap.
Qed.

Lemma sim_arity1 (G E : GarbledCct3) (g : Gate) (x : bool) (rest : Bytes) :
  GRR = true ->
  perm_bit (m_R G) = true ->
  (0 <= m_R G < 2 ^ Z.of_nat Env_k)%Z ->
  m_clear_mask G = Z.ones (Z.of_nat Env_k) ->
  m_clear_mask E = Z.ones (Z.of_nat Env_k) ->
  m_gate_ix G = m_gate_ix E ->
  m_w E !!! (m_input_idx g !!! 0) = lab (m_R G) (m_w G !!! (m_input_idx g !!! 0)) x ->
  m_i_bufr E = m_o_bufr (out_st (gen_arity1 g G)) ++ rest ->
  m_i_bufr_ix E = length (m_o_bufr G) ->
  (0 <= out_key (gen_arity1 g G) < 2 ^ Z.of_nat Env_k)%Z
  /\ (evl_arity1 g E).1 = lab (m_R G) (out_key (gen_arity1 g G)) (table_at g (b2n x)).
Proof.
  intros HGRR HRp HR HmG HmE Hgix HA Hbuf Hcur.
  set (R := m_R G) in *.
  set (X0 := m_w G !!! (m_input_idx g !!! 0)) in *.
  set (px := perm_bit X0).
  set (tw := set1_epi64x (m_gate_ix E)).
  set (ones := Z.ones (Z.of_nat Env_k)) in *.
  set (C0 := and_si128 (KDF128 tw (lab R X0 px)) ones).
  set (C1 := and_si128 (KDF128 tw (lab R X0 (negb px))) ones).
  set (Zl := arr2_at (table_at g (b2n px)) C0 (xor_si128 C0 R)).
  assert (HZb : forall b, Zl b = lab R (Zl false) b) by (intros b; apply arr2_at_lab).
  assert (HZbound : forall b, (0 <= Zl b < 2 ^ Z.of_nat Env_k)%Z).
  { intros b. unfold Zl, arr2_at.
    destruct (eqb b _); [apply and_ones_bound|].
    apply lxor_bound; [lia | apply and_ones_bound | assumption]. }
  assert (Hkey : out_key (gen_arity1 g G) = Zl false).
  { unfold gen_arity1, gen_entry0. rewrite HGRR, HmG, Hgix. fields.
    fold R X0. rewrite !arr2_lab, !lab_false. reflexivity. }
  assert (Hout : m_o_bufr (out_st (gen_arity1 g G))
                 = m_o_bufr G
                   ++ key_bytes (xor_si128 C1 (Zl (table_at g (Nat.lxor 1 (b2n px)))))).
  { unfold gen_arity1, gen_entry0. rewrite HGRR, HmG, Hgix. fields.
    fold R X0. rewrite !arr2_lab, !lab_false, xor_lab. fold px.
    rewrite app_nil_r. reflexivity. }
  split; [rewrite Hkey; apply HZbound|].
  rewrite Hkey, <- HZb.
  assert (HpA : perm_bit (m_w E !!! (m_input_idx g !!! 0)) = xorb px x).
  { rewrite HA. now apply perm_bit_lab. }
  unfold evl_arity1. rewrite HGRR. fields. rewrite HpA, HA, HmE. fold tw ones.
  rewrite Hbuf, Hout, Hcur.
  destruct px eqn:Epx, x; cbn [xorb negb b2n] in *.
  - (* the evaluator holds X[px] *)
    unfold Zl. now rewrite arr2_at_same.
  - rewrite <- app_assoc, load_key_at_here.
    + fold C1. change (Nat.lxor 1 1) with 0. apply xor_si128_swap.
    + apply k_le_128.
    + apply bound_k_8K. apply lxor_bound; [lia | apply and_ones_bound | apply HZbound].
  - rewrite <- app_assoc, load_key_at_here.
    + fold C1. change (Nat.lxor 1 0) with 1. apply xor_si128_swap.
    + apply k_le_128.
    + apply bound_k_8K. apply lxor_bound; [lia | apply and_ones_bound | apply HZbound].
  - unfold Zl. now rewrite arr2_at_same.
Qed.

Lemma sim_free_xor (G E : GarbledCct3) (g : Gate) (x y : bool) :
  (0 <= m_w G !!! (m_input_idx g !!! 0%nat) < 2 ^ Z.of_nat Env_k)%Z ->
  (length (m_input_idx g) = 2 ->
   (0 <= m_w G !!! (m_input_idx g !!! 1%nat) < 2 ^ Z.of_nat Env_k)%Z) ->
  m_w E !!! (m_input_idx g !!! 0) = lab (m_R G) (m_w G !!! (m_input_idx g !!! 0)) x ->
  (length (m_input_idx g) = 2 ->
   m_w E !!! (m_input_idx g !!! 1) = lab (m_R G) (m_w G !!! (m_input_idx g !!! 1)) y) ->
  (0 <= free_xor_key g G < 2 ^ Z.of_nat Env_k)%Z
  /\ free_xor_key g E
     = lab (m_R G) (free_xor_key g G)
         (if length (m_input_idx g) =? 2 then xorb x y else x).
Proof.
  intros HX HY HA HB. unfold free_xor_key.
  destruct (Nat.eqb_spec (length (m_input_idx g)) 2) as [H2|H2].
  - split.
    + apply lxor_bound; [lia | assumption | now apply HY].
    + rewrite HA, (HB H2). apply lab_xor.
  - split; assumption.
Qed.

End InternalGates.
(** ** The plain evaluation, inverted *)

Section PlainFacts.

Context {env : Env}.

Lemma plain_gate_value_inv (P : Plain) (g : Gate) (v : bool) :
  plain_gate_value P g = Some v ->
  (exists i0 x, m_input_idx g = [i0] /\ plain_read P i0 = Some x
                /\ v = table_at g (b2n x))
  \/ (exists i0 i1 x y, m_input_idx g = [i0; i1] /\ plain_read P i0 = Some x
                        /\ plain_read P i1 = Some y
                        /\ v = table_at g (2 * b2n y + b2n x)).
Proof.
  unfold plain_gate_value.
  destruct (m_input_idx g) as [|i0 [|i1 [|i2 l]]]; try discriminate.
  - destruct (length (m_table g) =? 2); [|discriminate].
    destruct (plain_read P i0) as [x|] eqn:E0; [|discriminate].
    intros [= <-]. left. eauto.
  - destruct (length (m_table g) =? 4); [|discriminate].
    destruct (plain_read P i0) as [x|] eqn:E0; [|discriminate].
    destruct (plain_read P i1) as [y|] eqn:E1; [|discriminate].
    intros [= <-]. right. exists i0, i1, x, y. auto.
Qed.

Lemma plain_next_gate_inv gen_in evl_in n (P P' : Plain) (g : Gate) :
  plain_next_gate gen_in evl_in n P g = Some P' ->
  m_idx g < m_cnt
  /\ exists v, P' = plain_write g v P
     /\ match m_tag g with
        | GEN_INP => p_gen_inp_ix P < gen_inp_cnt /\ v = get_ith_bit gen_in (p_gen_inp_ix P)
        | EVL_INP => p_evl_inp_ix P < n /\ v = get_ith_bit evl_in (p_evl_inp_ix P)
        | EVL_OUT => length (p_evl_out P) < evl_out_cnt /\ plain_gate_value P g = Some v
        | GEN_OUT => length (p_gen_out P) < gen_out_cnt /\ plain_gate_value P g = Some v
        | INTERNAL => plain_gate_value P g = Some v
        end.
Proof.
  unfold plain_next_gate.
  destruct (Nat.ltb_spec (m_idx g) m_cnt) as [Hidx|]; [|discriminate]. cbn [negb].
  intros H. split; [exact Hidx|].
  destruct (m_tag g).
  - destruct (Nat.ltb_spec (p_gen_inp_ix P) gen_inp_cnt); [|discriminate].
    injection H as <-. eauto.
  - destruct (Nat.ltb_spec (p_evl_inp_ix P) n); [|discriminate].
    injection H as <-. eauto.
  - destruct (Nat.ltb_spec (length (p_gen_out P)) gen_out_cnt); [|discriminate].
    destruct (plain_gate_value P g) as [v|]; [|discriminate].
    injection H as <-. eauto.
  - destruct (Nat.ltb_spec (length (p_evl_out P)) evl_out_cnt); [|discriminate].
    destruct (plain_gate_value P g) as [v|]; [|discriminate].
    injection H as <-. eauto.
  - destruct (plain_gate_value P g) as [v|]; [|discriminate].
    injection H as <-. eauto.
Qed.

Lemma plain_read_write (P : Plain) (g : Gate) (v : bool) (i : nat) :
  m_idx g < length (p_wire P) ->
  plain_read (plain_write g v P) i
  = if i =? m_idx g then Some v else plain_read P i.
Proof.
  intros Hidx. unfold plain_read, plain_write. cbn [p_wire].
  destruct (Nat.eqb_spec i (m_idx g)) as [->|Hne].
  - now rewrite list_lookup_insert_eq.
  - rewrite list_lookup_insert_ne by congruence. reflexivity.
Qed.

End PlainFacts.

(** ** One gate of the honest execution *)

Section KernelSim.

Context {config : Config} {env : Env} {collab : Collab} {ok : CollabOk}.

Lemma xor_table (g : Gate) (x y : bool) :
  m_table g = [false; true; true; false] ->
  table_at g (2 * b2n y + b2n x) = xorb x y.
Proof. intros Ht. unfold table_at. rewrite Ht. destruct x, y; reflexivity. Qed.

Lemma identity_table (g : Gate) (x : bool) :
  m_table g = [false; true] -> table_at g (b2n x) = x.
Proof. intros Ht. unfold table_at. rewrite Ht. destruct x; reflexivity. Qed.

(** The labels of a gate that is not an input gate. *)
Lemma sim_internal (G E : GarbledCct3) (P : Plain) (g : Gate) (v : bool) (rest : Bytes) :
  GRR = true ->
  (FREE_XOR && is_xor g = true -> xor_shaped g) ->
  perm_bit (m_R G) = true ->
  (0 <= m_R G < 2 ^ Z.of_nat Env_k)%Z ->
  m_clear_mask G = Z.ones (Z.of_nat Env_k) ->
  m_clear_mask E = Z.ones (Z.of_nat Env_k) ->
  m_gate_ix G = m_gate_ix E ->
  (forall i b, plain_read P i = Some b ->
     (0 <= m_w G !!! i < 2 ^ Z.of_nat Env_k)%Z
     /\ m_w E !!! i = lab (m_R G) (m_w G !!! i) b) ->
  plain_gate_value P g = Some v ->
  m_i_bufr E = m_o_bufr (out_st (gen_internal g G)) ++ rest ->
  m_i_bufr_ix E = length (m_o_bufr G) ->
  (0 <= out_key (gen_internal g G) < 2 ^ Z.of_nat Env_k)%Z
  /\ (evl_internal g E).1 = lab (m_R G) (out_key (gen_internal g G)) v.
Proof.
  intros HGRR Hsound HRp HR HmG HmE Hgix Hwire Hv Hbuf Hcur.
  rewrite gen_internal_o_bufr, <- app_assoc in Hbuf.
  rewrite evl_internal_key.
  change (out_key (gen_internal g G)) with (out_key (gen_rows g G)).
  unfold gen_rows, evl_rows in *.
  destruct (plain_gate_value_inv P g v Hv)
    as [(i0 & x & Hin & Hx & ->) | (i0 & i1 & x & y & Hin & Hx & Hy & ->)].
  - (* one input *)
    destruct (Hwire i0 x Hx) as [HX HA].
    assert (H0 : m_input_idx g !!! 0 = i0) by (rewrite Hin; reflexivity).
    rewrite <- H0 in HX, HA.
    assert (Hlen : (length (m_input_idx g) =? 2) = false) by (rewrite Hin; reflexivity).
    rewrite Hlen in *.
    destruct (FREE_XOR && is_xor g) eqn:Hfree.
    + specialize (Hsound eq_refl). unfold xor_shaped in Hsound. rewrite Hin in Hsound.
      rewrite (identity_table g x Hsound). cbn [fst out_key].
      destruct (sim_free_xor G E g x x HX) as [Hb Hk]; try assumption.
      * rewrite Hin. discriminate.
      * rewrite Hin. discriminate.
      * rewrite Hlen in Hk. split; assumption.
    + eapply sim_arity1; eassumption.
  - (* two inputs *)
    destruct (Hwire i0 x Hx) as [HX HA]. destruct (Hwire i1 y Hy) as [HY HB].
    assert (H0 : m_input_idx g !!! 0 = i0) by (rewrite Hin; reflexivity).
    assert (H1 : m_input_idx g !!! 1 = i1) by (rewrite Hin; reflexivity).
    rewrite <- H0 in HX, HA. rewrite <- H1 in HY, HB.
    assert (Hlen : (length (m_input_idx g) =? 2) = true) by (rewrite Hin; reflexivity).
    rewrite Hlen in *.
    destruct (FREE_XOR && is_xor g) eqn:Hfree.
    + specialize (Hsound eq_refl). unfold xor_shaped in Hsound. rewrite Hin in Hsound.
      rewrite (xor_table g x y Hsound). cbn [fst out_key].
      destruct (sim_free_xor G E g x y HX) as [Hb Hk]; try (intros _; assumption);
        try assumption.
      rewrite Hlen in Hk. split; assumption.
    + eapply sim_arity2; eassumption.
Qed.

End KernelSim.
(** ** What one call changes *)

Section StepFields.

Context {config : Config} {env : Env} {collab : Collab}.

(** The kernel of a gate that is not an input gate only assigns the PRNG
    and [out_buffer]. *)
Lemma gen_internal_shape st g :
  exists p o, out_st (gen_internal g st) = set_m_o_bufr o (set_m_prng p st).
Proof.
  unfold gen_internal, gen_rows.
  destruct (FREE_XOR && is_xor g); [|destruct (length (m_input_idx g) =? 2)].
  - fields. exists (m_prng st). eexists. destruct st; reflexivity.
  - unfold gen_arity2. fields. do 2 eexists. reflexivity.
  - unfold gen_arity1. fields. do 2 eexists. reflexivity.
Qed.

Lemma gen_kernel_m_gen_inp_ix st g :
  m_gen_inp_ix (out_st (gen_kernel st g))
  = m_gen_inp_ix st + (if Tag_eqb (m_tag g) GEN_INP then 1 else 0).
Proof.
  unfold gen_kernel.
  destruct (m_tag g); cbn [Tag_eqb];
    try (destruct (gen_internal_shape st g) as (p & o & ->));
    unfold gen_GEN_INP, gen_EVL_INP; fields; lia.
Qed.

Lemma gen_kernel_m_evl_inp_ix st g :
  m_evl_inp_ix (out_st (gen_kernel st g))
  = m_evl_inp_ix st + (if Tag_eqb (m_tag g) EVL_INP then 1 else 0).
Proof.
  unfold gen_kernel.
  destruct (m_tag g); cbn [Tag_eqb];
    try (destruct (gen_internal_shape st g) as (p & o & ->));
    unfold gen_GEN_INP, gen_EVL_INP; fields; lia.
Qed.

Lemma gen_kernel_decom_length st g :
  length (m_gen_inp_decom (out_st (gen_kernel st g))) = length (m_gen_inp_decom st).
Proof.
  unfold gen_kernel.
  destruct (m_tag g);
    try (destruct (gen_internal_shape st g) as (p & o & ->); fields; reflexivity).
  - unfold gen_GEN_INP. fields. now rewrite !length_insert.
  - unfold gen_EVL_INP. fields. reflexivity.
Qed.

(** [evl_next_gate] is its kernel followed by assignments to the wire
    table, the spill buffer, the hash and the gate index. *)
Lemma evl_next_gate_shape st g :
  exists a b c,
    evl_next_gate st g
    = set_m_gate_ix a
        (set_m_hash b
           (set_m_bufr c
              (set_m_w (<[m_idx g := (evl_kernel st g).1]> (m_w (evl_kernel st g).2))
                 (evl_kernel st g).2))).
Proof.
  unfold evl_next_gate, update_hash. generalize (evl_kernel st g). intros [key s].
  cbv zeta. destruct (RAND_SEED && _).
  - exists ((m_gate_ix s + 1) mod 2 ^ 64)%Z, (m_hash s ++ (m_bufr s ++ m_i_bufr s)), [].
    destruct s; reflexivity.
  - exists ((m_gate_ix s + 1) mod 2 ^ 64)%Z, (m_hash s), (m_bufr s ++ m_i_bufr s).
    destruct s; reflexivity.
Qed.

Lemma evl_kernel_m_gen_inp_ix st g :
  m_gen_inp_ix (evl_kernel st g).2
  = m_gen_inp_ix st + (if Tag_eqb (m_tag g) GEN_INP then 1 else 0).
Proof.
  unfold evl_kernel, evl_internal.
  destruct (m_tag g); cbn [Tag_eqb]; unfold evl_GEN_INP, evl_EVL_INP; fields; lia.
Qed.

Lemma evl_kernel_m_evl_inp_ix st g :
  m_evl_inp_ix (evl_kernel st g).2
  = m_evl_inp_ix st + (if Tag_eqb (m_tag g) EVL_INP then 1 else 0).
Proof.
  unfold evl_kernel, evl_internal.
  destruct (m_tag g); cbn [Tag_eqb]; unfold evl_GEN_INP, evl_EVL_INP; fields; lia.
Qed.

Lemma evl_kernel_m_evl_out_ix st g :
  m_evl_out_ix (evl_kernel st g).2
  = m_evl_out_ix st + (if Tag_eqb (m_tag g) EVL_OUT then 1 else 0).
Proof.
  unfold evl_kernel, evl_internal.
  destruct (m_tag g); cbn [Tag_eqb]; unfold evl_GEN_INP, evl_EVL_INP; fields; lia.
Qed.

Lemma evl_kernel_m_gen_out_ix st g :
  m_gen_out_ix (evl_kernel st g).2
  = m_gen_out_ix st + (if Tag_eqb (m_tag g) GEN_OUT then 1 else 0).
Proof.
  unfold evl_kernel, evl_internal.
  destruct (m_tag g); cbn [Tag_eqb]; unfold evl_GEN_INP, evl_EVL_INP; fields; lia.
Qed.

Lemma evl_kernel_m_evl_out st g :
  m_evl_out (evl_kernel st g).2
  = if Tag_eqb (m_tag g) EVL_OUT
    then set_ith_bit (m_evl_out st) (m_evl_out_ix st)
           (out_bit (evl_rows g st).1 (m_i_bufr st !!! (evl_rows g st).2))
    else m_evl_out st.
Proof.
  unfold evl_kernel, evl_internal.
  destruct (m_tag g); cbn [Tag_eqb]; reflexivity.
Qed.

Lemma evl_kernel_m_gen_out st g :
  m_gen_out (evl_kernel st g).2
  = if Tag_eqb (m_tag g) GEN_OUT
    then set_ith_bit (m_gen_out st) (m_gen_out_ix st)
           (out_bit (evl_rows g st).1 (m_i_bufr st !!! (evl_rows g st).2))
    else m_gen_out st.
Proof.
  unfold evl_kernel, evl_internal.
  destruct (m_tag g); cbn [Tag_eqb]; reflexivity.
Qed.

(** With GRR the evaluator's rows advance the iterator by what the
    generator's rows append. *)
Lemma rows_cursor (G E : GarbledCct3) (g : Gate) :
  GRR = true -> Env_k <= 128 ->
  m_i_bufr_ix E = length (m_o_bufr G) ->
  (evl_rows g E).2 = length (m_o_bufr (out_st (gen_rows g G))).
Proof.
  intros HGRR Hk Hcur. unfold evl_rows, gen_rows.
  destruct (FREE_XOR && is_xor g); [exact Hcur|].
  destruct (length (m_input_idx g) =? 2).
  - rewrite gen_arity2_rows, HGRR. unfold evl_arity2. rewrite HGRR. fields.
    rewrite !length_app, !length_key_bytes by assumption. cbn [length]. lia.
  - destruct (gen_arity1_rows G g) as (r0 & r1 & ->). rewrite HGRR.
    unfold evl_arity1. rewrite HGRR. fields.
    rewrite !length_app, !length_key_bytes by assumption. cbn [length]. lia.
Qed.

(** With GRR the evaluator has read, after every gate, what the generator
    has written. *)
Lemma lockstep_cursor (G E : GarbledCct3) (g : Gate) :
  GRR = true -> Env_k <= 128 ->
  (forall b, length (Bytes_hash b Env_k) = key_size_in_bytes) ->
  m_i_bufr_ix E = length (m_o_bufr G) ->
  m_i_bufr_ix (evl_kernel E g).2 = length (m_o_bufr (out_st (gen_kernel G g))).
Proof.
  intros HGRR Hk Hhash Hcur.
  assert (Hint : m_i_bufr_ix (evl_internal g E).2
                 = length (m_o_bufr (out_st (gen_internal g G)))).
  { rewrite evl_internal_m_i_bufr_ix, gen_internal_o_bufr, length_app,
      length_gen_out_tag. now rewrite (rows_cursor G E g). }
  unfold evl_kernel, gen_kernel. destruct (m_tag g); try exact Hint.
  - unfold evl_GEN_INP, gen_GEN_INP. fields.
    rewrite !length_app, !Hhash. lia.
  - unfold evl_EVL_INP, gen_EVL_INP. fields.
    rewrite !length_app, !length_key_bytes by assumption. lia.
Qed.

Lemma out_bit_lab (R kG : Z) (v : bool) :
  perm_bit R = true ->
  out_bit (lab R kG v) (byte.of_Z (Z.b2z (perm_bit kG))) = v.
Proof.
  intros HR. unfold out_bit. rewrite perm_bit_lab by assumption.
  rewrite byte.unsigned_of_Z. unfold byte.wrap.
  destruct (perm_bit kG), v; reflexivity.
Qed.

Lemma bits_of_S (b : Bytes) (n : nat) :
  bits_of b (S n) = bits_of b n ++ [get_ith_bit b n].
Proof. unfold bits_of. rewrite seq_S, map_app. reflexivity. Qed.

Lemma bits_of_set_ith_bit (b : Bytes) (n : nat) (v : bool) :
  n < 8 * length b ->
  bits_of (set_ith_bit b n v) (n + 1) = bits_of b n ++ [v].
Proof.
  intros Hn. rewrite Nat.add_1_r, bits_of_S. f_equal.
  - unfold bits_of. apply map_ext_in. intros j Hj. apply in_seq in Hj.
    rewrite get_set_ith_bit by assumption.
    destruct (Nat.eqb_spec j n); [lia | reflexivity].
  - rewrite get_set_ith_bit by assumption. now rewrite Nat.eqb_refl.
Qed.

End StepFields.
(** ** The honest execution, gate by gate *)

Ltac sim_destruct HS :=
  destruct HS as [HRp HR HmG HmE Hgix HlG HlE HlP Hwire HgiG HgiE HeiG HeiE Heo Hgo
                  Hbe Hbg Hle Hlg Hcur Hstr HotG HotE Hmk Hmkd Hei Hdc Hdl].

Section SimStep.

Context {config : Config} {env : Env} {collab : Collab} {ok : CollabOk}.

Variables (ot_keys evl_keys decoms : list Bytes).
Variables (mask masked gen_in evl_in : Bytes).
Variable (evl_inp_cnt : nat).
Variable (stream : Bytes).

Hypothesis HGRR : GRR = true.
Hypothesis Hmatch : Matching ot_keys evl_keys mask masked gen_in evl_in evl_inp_cnt.

(** The labels of the gate's wire: the generator's zero label has [k] bits
    and the evaluator holds the label of the gate's plain value. *)
Lemma sim_key (G E : GarbledCct3) (P : Plain) (g : Gate) (v : bool) (rest : Bytes) :
  Sim ot_keys evl_keys decoms mask masked evl_in stream G E P ->
  match m_tag g with
  | GEN_INP => p_gen_inp_ix P < gen_inp_cnt /\ v = get_ith_bit gen_in (p_gen_inp_ix P)
  | EVL_INP => p_evl_inp_ix P < evl_inp_cnt /\ v = get_ith_bit evl_in (p_evl_inp_ix P)
  | EVL_OUT => length (p_evl_out P) < evl_out_cnt /\ plain_gate_value P g = Some v
  | GEN_OUT => length (p_gen_out P) < gen_out_cnt /\ plain_gate_value P g = Some v
  | INTERNAL => plain_gate_value P g = Some v
  end ->
  ((FREE_XOR && is_xor g) = true -> xor_shaped g) ->
  stream = m_o_bufr (out_st (gen_kernel G g)) ++ rest ->
  (m_tag g = GEN_INP ->
   decoms !!! m_gen_inp_ix G
   = m_gen_inp_decom (out_st (gen_kernel G g))
       !!! (2 * m_gen_inp_ix G + b2n (get_ith_bit masked (m_gen_inp_ix G)))) ->
  (0 <= out_key (gen_kernel G g) < 2 ^ Z.of_nat Env_k)%Z
  /\ (evl_kernel E g).1 = lab (m_R G) (out_key (gen_kernel G g)) v.
Proof.
  intros HS Htag Hsound Hstream Hdec. sim_destruct HS.
  assert (Hint : forall w, plain_gate_value P g = Some w ->
            stream = m_o_bufr (out_st (gen_internal g G)) ++ rest ->
            (0 <= out_key (gen_internal g G) < 2 ^ Z.of_nat Env_k)%Z
            /\ (evl_internal g E).1 = lab (m_R G) (out_key (gen_internal g G)) w).
  { intros w Hw Hs. apply (sim_internal G E P g w rest); try assumption.
    now rewrite Hstr. }
  unfold gen_kernel, evl_kernel in *.
  destruct (m_tag g).
  - destruct Htag as [Hlt ->].
    destruct (sim_GEN_INP G E) as [Hb Hk]; try assumption; try congruence.
    + rewrite Hdc, Hmkd. now apply Hdec.
    + split; [exact Hb|]. rewrite Hk. f_equal.
      rewrite Hmkd, Hmk, HgiG.
      rewrite (match_masked _ _ _ _ _ _ _ Hmatch) by assumption.
      destruct (get_ith_bit gen_in _), (get_ith_bit mask _); reflexivity.
  - destruct Htag as [Hlt ->].
    destruct (sim_EVL_INP G E rest) as [Hb Hk]; try assumption; try congruence.
    + rewrite HotG. apply (match_ot_length _ _ _ _ _ _ _ Hmatch). lia.
    + rewrite HotG. apply (match_ot_length _ _ _ _ _ _ _ Hmatch). lia.
    + rewrite HotE, HotG, Hei, HeiG.
      now apply (match_ot_chosen _ _ _ _ _ _ _ Hmatch).
    + split; [exact Hb|]. rewrite Hk. now rewrite Hei, HeiG.
  - destruct Htag as [_ Hv]. now apply Hint.
  - destruct Htag as [_ Hv]. now apply Hint.
  - now apply Hint.
Qed.

Lemma plain_write_lengths (P : Plain) (g : Gate) (v : bool) :
  length (p_evl_out (plain_write g v P))
  = length (p_evl_out P) + (if Tag_eqb (m_tag g) EVL_OUT then 1 else 0)
  /\ length (p_gen_out (plain_write g v P))
     = length (p_gen_out P) + (if Tag_eqb (m_tag g) GEN_OUT then 1 else 0).
Proof.
  unfold plain_write. cbn [p_evl_out p_gen_out]. rewrite !length_app.
  destruct (Tag_eqb (m_tag g) EVL_OUT), (Tag_eqb (m_tag g) GEN_OUT); cbn [length]; lia.
Qed.

(** The tagging byte of an output gate, as the evaluator finds it. *)
Lemma sim_out_bit (G E : GarbledCct3) (g : Gate) (v : bool) (rest : Bytes) :
  perm_bit (m_R G) = true ->
  m_i_bufr_ix E = length (m_o_bufr G) ->
  m_i_bufr E = m_o_bufr (out_st (gen_internal g G)) ++ rest ->
  out_tag_len g = 1 ->
  (evl_internal g E).1 = lab (m_R G) (out_key (gen_internal g G)) v ->
  out_bit (evl_rows g E).1 (m_i_bufr E !!! (evl_rows g E).2) = v.
Proof.
  intros HRp Hcur Hbuf Htag Hk.
  rewrite evl_internal_key in Hk. rewrite Hk.
  rewrite (rows_cursor G E g HGRR k_le_128 Hcur).
  rewrite Hbuf, gen_internal_o_bufr.
  assert (Hbyte : gen_out_tag g (out_key (gen_internal g G))
                  = [byte.of_Z (Z.b2z (perm_bit (out_key (gen_internal g G))))]).
  { unfold gen_out_tag, out_tag_len in *. destruct (m_tag g); try discriminate; reflexivity. }
  rewrite Hbyte, <- app_assoc. cbn [app].
  rewrite list_lookup_total_middle by reflexivity.
  now apply out_bit_lab.
Qed.

Lemma sim_step (G E : GarbledCct3) (P P' : Plain) (g : Gate) :
  Sim ot_keys evl_keys decoms mask masked evl_in stream G E P ->
  plain_next_gate gen_in evl_in evl_inp_cnt P g = Some P' ->
  ((FREE_XOR && is_xor g) = true -> xor_shaped g) ->
  (exists rest, stream = m_o_bufr (gen_next_gate G g) ++ rest) ->
  (m_tag g = GEN_INP ->
   decoms !!! m_gen_inp_ix G
   = m_gen_inp_decom (gen_next_gate G g)
       !!! (2 * m_gen_inp_ix G + b2n (get_ith_bit masked (m_gen_inp_ix G)))) ->
  Sim ot_keys evl_keys decoms mask masked evl_in stream
    (gen_next_gate G g) (evl_next_gate E g) P'.
Proof.
  intros HS Hplain Hsound [rest Hstream] Hdec.
  destruct (plain_next_gate_inv _ _ _ _ _ _ Hplain) as (Hidx & v & -> & Htag).
  destruct (sim_key G E P g v rest HS Htag Hsound Hstream Hdec) as [Hkb Hk].
  sim_destruct HS.
  destruct (evl_next_gate_shape E g) as (a & b & c & HE').
  assert (HGf : forall A (f : GarbledCct3 -> A),
            (forall x y s, f (set_m_gate_ix x (set_m_w y s)) = f s) ->
            f (gen_next_gate G g) = f (out_st (gen_kernel G g))).
  { intros A f Hf. unfold gen_next_gate. cbv zeta. apply Hf. }
  assert (HEf : forall A (f : GarbledCct3 -> A),
            (forall x y z u s,
               f (set_m_gate_ix x (set_m_hash y (set_m_bufr z (set_m_w u s)))) = f s) ->
            f (evl_next_gate E g) = f (evl_kernel E g).2).
  { intros A f Hf. rewrite HE'. apply Hf. }
  assert (HcurE : m_i_bufr_ix (evl_next_gate E g)
                  = length (m_o_bufr (gen_next_gate G g))).
  { rewrite (HEf _ m_i_bufr_ix) by reflexivity.
    rewrite (HGf _ m_o_bufr) by reflexivity.
    apply lockstep_cursor; try assumption; [apply k_le_128 | apply hash_length]. }
  destruct (plain_write_lengths P g v) as [Hlen_e Hlen_g].
  split.
  - rewrite (HGf _ m_R) by reflexivity. now rewrite gen_kernel_m_R.
  - rewrite (HGf _ m_R) by reflexivity. now rewrite gen_kernel_m_R.
  - rewrite (HGf _ m_clear_mask) by reflexivity. now rewrite gen_kernel_m_clear_mask.
  - rewrite (HEf _ m_clear_mask) by reflexivity. now rewrite evl_kernel_m_clear_mask.
  - rewrite gen_next_gate_m_gate_ix, evl_next_gate_m_gate_ix. now rewrite Hgix.
  - rewrite gen_next_gate_m_w, length_insert. exact HlG.
  - rewrite evl_next_gate_m_w, length_insert. exact HlE.
  - unfold plain_write. cbn [p_wire]. rewrite length_insert. exact HlP.
  - intros i w Hr. rewrite plain_read_write in Hr by lia.
    rewrite gen_next_gate_m_w, evl_next_gate_m_w.
    rewrite (HGf _ m_R) by reflexivity. rewrite gen_kernel_m_R.
    destruct (Nat.eqb_spec i (m_idx g)) as [->|Hne].
    + injection Hr as <-.
      rewrite !list_lookup_total_insert_eq by lia. split; assumption.
    + rewrite !list_lookup_total_insert_ne by congruence. now apply Hwire.
  - rewrite (HGf _ m_gen_inp_ix) by reflexivity.
    rewrite gen_kernel_m_gen_inp_ix, HgiG. reflexivity.
  - rewrite (HEf _ m_gen_inp_ix) by reflexivity.
    rewrite evl_kernel_m_gen_inp_ix, HgiE. reflexivity.
  - rewrite (HGf _ m_evl_inp_ix) by reflexivity.
    rewrite gen_kernel_m_evl_inp_ix, HeiG. reflexivity.
  - rewrite (HEf _ m_evl_inp_ix) by reflexivity.
    rewrite evl_kernel_m_evl_inp_ix, HeiE. reflexivity.
  - rewrite (HEf _ m_evl_out_ix) by reflexivity.
    rewrite evl_kernel_m_evl_out_ix, Heo, Hlen_e. reflexivity.
  - rewrite (HEf _ m_gen_out_ix) by reflexivity.
    rewrite evl_kernel_m_gen_out_ix, Hgo, Hlen_g. reflexivity.
  - rewrite (HEf _ m_evl_out) by reflexivity.
    rewrite evl_kernel_m_evl_out, Hlen_e. unfold plain_write. cbn [p_evl_out].
    destruct (m_tag g) eqn:Etag; cbn [Tag_eqb];
      try (rewrite Nat.add_0_r, app_nil_r; exact Hbe).
    destruct Htag as [Hlt Hv].
    rewrite (sim_out_bit G E g v rest); try assumption.
    + rewrite Heo, bits_of_set_ith_bit by lia. now rewrite Hbe.
    + rewrite Hstr. rewrite (HGf _ m_o_bufr) in Hstream by reflexivity.
      unfold gen_kernel in Hstream. rewrite Etag in Hstream. exact Hstream.
    + unfold out_tag_len. now rewrite Etag.
    + unfold gen_kernel, evl_kernel in Hk. rewrite Etag in Hk. exact Hk.
  - rewrite (HEf _ m_gen_out) by reflexivity.
    rewrite evl_kernel_m_gen_out, Hlen_g. unfold plain_write. cbn [p_gen_out].
    destruct (m_tag g) eqn:Etag; cbn [Tag_eqb];
      try (rewrite Nat.add_0_r, app_nil_r; exact Hbg).
    destruct Htag as [Hlt Hv].
    rewrite (sim_out_bit G E g v rest); try assumption.
    + rewrite Hgo, bits_of_set_ith_bit by lia. now rewrite Hbg.
    + rewrite Hstr. rewrite (HGf _ m_o_bufr) in Hstream by reflexivity.
      unfold gen_kernel in Hstream. rewrite Etag in Hstream. exact Hstream.
    + unfold out_tag_len. now rewrite Etag.
    + unfold gen_kernel, evl_kernel in Hk. rewrite Etag in Hk. exact Hk.
  - rewrite (HEf _ m_evl_out) by reflexivity. rewrite evl_kernel_m_evl_out.
    destruct (Tag_eqb (m_tag g) EVL_OUT); [rewrite length_set_ith_bit|]; exact Hle.
  - rewrite (HEf _ m_gen_out) by reflexivity. rewrite evl_kernel_m_gen_out.
    destruct (Tag_eqb (m_tag g) GEN_OUT); [rewrite length_set_ith_bit|]; exact Hlg.
  - exact HcurE.
  - rewrite (HEf _ m_i_bufr) by reflexivity. now rewrite evl_kernel_m_i_bufr.
  - rewrite (HGf _ m_ot_keys) by reflexivity. now rewrite gen_kernel_m_ot_keys.
  - rewrite (HEf _ m_ot_keys) by reflexivity. now rewrite evl_kernel_m_ot_keys.
  - rewrite (HGf _ m_gen_inp_mask) by reflexivity. now rewrite gen_kernel_m_gen_inp_mask.
  - rewrite (HEf _ m_gen_inp_mask) by reflexivity. now rewrite evl_kernel_m_gen_inp_mask.
  - rewrite (HEf _ m_evl_inp) by reflexivity. now rewrite evl_kernel_m_evl_inp.
  - rewrite (HEf _ m_gen_inp_decom) by reflexivity. now rewrite evl_kernel_m_gen_inp_decom.
  - rewrite (HGf _ m_gen_inp_decom) by reflexivity. now rewrite gen_kernel_decom_length.
Qed.

End SimStep.
(** ** Initialisation *)

Section InitFacts.

Context {env : Env} {collab : Collab}.

Lemma le_combine_zeros n : le_combine (zeros n) = 0%Z.
Proof. apply le_combine_0. Qed.

Lemma length_zeros n : length (zeros n) = n.
Proof. apply repeat_length. Qed.

Lemma setbit_ones (n : nat) : Z.setbit (Z.ones (Z.of_nat n)) (Z.of_nat n) = Z.ones (Z.of_nat (S n)).
Proof.
  apply Z.bits_inj'. intros j Hj.
  destruct (Z.eq_dec j (Z.of_nat n)) as [->|Hne].
  - rewrite Z.setbit_eq by lia. symmetry. apply Z.ones_spec_low. lia.
  - rewrite Z.setbit_neq by lia.
    destruct (Z.ltb_spec j (Z.of_nat n)).
    + rewrite !Z.ones_spec_low by lia. reflexivity.
    + rewrite !Z.ones_spec_high by lia. reflexivity.
Qed.

(** The loop of [init()] sets exactly the low [k] bits. *)
Lemma clear_mask_loop (n : nat) :
  n <= 128 ->
  let tmp := fold_left (fun tmp ix => set_ith_bit tmp ix true) (seq 0 n) (zeros 16) in
  length tmp = 16 /\ le_combine tmp = Z.ones (Z.of_nat n).
Proof.
  induction n as [|n IH]; intros Hn; cbv zeta.
  - split; [apply length_zeros | apply le_combine_zeros].
  - rewrite seq_S, fold_left_app. cbn [fold_left Nat.add].
    destruct IH as [Hlen Hval]; [lia|]. cbv zeta in Hlen, Hval.
    split.
    + now rewrite length_set_ith_bit.
    + rewrite le_combine_set_ith_bit by lia. rewrite Hval. apply setbit_ones.
Qed.

Lemma init_clear_mask (st : GarbledCct3) :
  Env_k <= 128 -> m_clear_mask (init st) = Z.ones (Z.of_nat Env_k).
Proof.
  intros Hk. unfold init. fields.
  destruct (clear_mask_loop Env_k Hk) as [Hlen Hval].
  unfold loadu. rewrite take_ge by lia. exact Hval.
Qed.

Lemma alloc_w_length (alloc : list Z) (st : GarbledCct3) :
  length alloc = m_cnt ->
  m_w st = [] \/ length (m_w st) = m_cnt ->
  length (m_w (alloc_w alloc st)) = m_cnt.
Proof.
  intros Ha Hst. unfold alloc_w. destruct (m_w st) eqn:E.
  - exact Ha.
  - rewrite E. destruct Hst as [Hst|Hst]; [discriminate | exact Hst].
Qed.

Lemma length_vec_resize {A : Type} (d : A) (n : nat) (v : list A) :
  length (vec_resize d n v) = n.
Proof. unfold vec_resize. rewrite length_app, length_take, length_replicate. lia. Qed.

Lemma lookup_total_map_seq {A : Type} `{Inhabited A} (f : nat -> A) (n j : nat) :
  j < n -> map f (seq 0 n) !!! j = f j.
Proof.
  intros Hj. apply list_lookup_total_correct.
  change (map f (seq 0 n)) with (f <$> seq 0 n).
  rewrite list_lookup_fmap. rewrite lookup_seq_lt by assumption. reflexivity.
Qed.

End InitFacts.
(** ** The honest run *)

Section HonestRun.

Context {config : Config} {env : Env} {collab : Collab} {ok : CollabOk}.

(** The objects that [init], [gen_init] and [evl_init] leave, member by
    member. *)
Lemma init_shape (st : GarbledCct3) :
  init st =
  {| m_R := m_R st; m_ot_keys := m_ot_keys st; m_gen_inp_mask := m_gen_inp_mask st;
     m_evl_inp := m_evl_inp st; m_prng := m_prng st; m_gate_ix := 0%Z;
     m_gen_inp_hash_ix := 0; m_gen_inp_ix := 0; m_evl_inp_ix := 0; m_gen_out_ix := 0;
     m_evl_out_ix := 0; m_o_bufr := []; m_i_bufr := []; m_i_bufr_ix := m_i_bufr_ix st;
     m_gen_inp_hash := resize key_size_in_bytes (m_gen_inp_hash st);
     m_clear_mask := Z.ones (Z.of_nat Env_k);
     m_w := m_w st; m_gen_inp_decom := m_gen_inp_decom st;
     m_gen_inp_com := m_gen_inp_com st; m_evl_out := m_evl_out st;
     m_gen_out := m_gen_out st; m_bufr := m_bufr st; m_hash := m_hash st |}.
Proof.
  rewrite <- (init_clear_mask st k_le_128). unfold init.
  destruct st as [x1 x2 x3 x4 x5 x6 x7 x8 x9 x10 x11 x12 x13 x14 x15 x16 x17 x18 x19 x20 x21 x22 x23].
  reflexivity.
Qed.

Lemma gen_init_shape (alloc : list Z) (st : GarbledCct3) (ot_keys : list Bytes)
    (mask seed : Bytes) :
  let r := Prng_rand (Prng_srand (m_prng st) seed) Env_k in
  gen_init alloc st ot_keys mask seed =
  {| m_R := loadu (resize 16 (set_ith_bit r.1 0 true));
     m_ot_keys := ot_keys; m_gen_inp_mask := mask; m_evl_inp := m_evl_inp st;
     m_prng := r.2; m_gate_ix := 0%Z; m_gen_inp_hash_ix := 0; m_gen_inp_ix := 0;
     m_evl_inp_ix := 0; m_gen_out_ix := 0; m_evl_out_ix := 0; m_o_bufr := [];
     m_i_bufr := []; m_i_bufr_ix := m_i_bufr_ix st;
     m_gen_inp_hash := resize key_size_in_bytes (m_gen_inp_hash st);
     m_clear_mask := Z.ones (Z.of_nat Env_k);
     m_w := match m_w st with [] => alloc | _ => m_w st end;
     m_gen_inp_decom := vec_resize [] (gen_inp_cnt * 2) (m_gen_inp_decom st);
     m_gen_inp_com := m_gen_inp_com st; m_evl_out := m_evl_out st;
     m_gen_out := m_gen_out st; m_bufr := m_bufr st; m_hash := m_hash st |}.
Proof.
  cbv zeta. unfold gen_init, alloc_w. rewrite init_shape. fields.
  destruct st as [x1 x2 x3 x4 x5 x6 x7 x8 x9 x10 x11 x12 x13 x14 x15 x16 x17 x18 x19 x20 x21 x22 x23].
  fields. destruct x17; reflexivity.
Qed.

Lemma evl_init_shape (alloc : list Z) (st : GarbledCct3) (ot_keys : list Bytes)
    (masked evl_in : Bytes) :
  evl_init alloc st ot_keys masked evl_in =
  {| m_R := m_R st;
     m_ot_keys := ot_keys; m_gen_inp_mask := masked; m_evl_inp := evl_in;
     m_prng := m_prng st; m_gate_ix := 0%Z; m_gen_inp_hash_ix := 0; m_gen_inp_ix := 0;
     m_evl_inp_ix := 0; m_gen_out_ix := 0; m_evl_out_ix := 0; m_o_bufr := [];
     m_i_bufr := []; m_i_bufr_ix := m_i_bufr_ix st;
     m_gen_inp_hash := resize key_size_in_bytes (m_gen_inp_hash st);
     m_clear_mask := Z.ones (Z.of_nat Env_k);
     m_w := match m_w st with [] => alloc | _ => m_w st end;
     m_gen_inp_decom := vec_resize [] gen_inp_cnt (m_gen_inp_decom st);
     m_gen_inp_com := vec_resize [] gen_inp_cnt (m_gen_inp_com st);
     m_evl_out := resize ((evl_out_cnt + 7) / 8) (m_evl_out st);
     m_gen_out := resize ((gen_out_cnt + 7) / 8) (m_gen_out st);
     m_bufr := []; m_hash := [] |}.
Proof.
  unfold evl_init, alloc_w. rewrite init_shape. fields.
  destruct st as [x1 x2 x3 x4 x5 x6 x7 x8 x9 x10 x11 x12 x13 x14 x15 x16 x17 x18 x19 x20 x21 x22 x23].
  fields. destruct x17; reflexivity.
Qed.

Lemma allocated_length (alloc w : list Z) :
  length alloc = m_cnt -> w = [] \/ length w = m_cnt ->
  length (match w with [] => alloc | _ => w end) = m_cnt.
Proof. intros Ha [->|Hw]; [exact Ha|]. destruct w; [exact Ha | exact Hw]. Qed.

Lemma byte_count_covers (n : nat) : n <= 8 * ((n + 7) / 8).
Proof.
  pose proof (Nat.div_mod_eq (n + 7) 8).
  pose proof (Nat.mod_upper_bound (n + 7) 8). lia.
Qed.

Lemma gen_init_R alloc st ot_keys mask seed :
  let G := gen_init alloc st ot_keys mask seed in
  perm_bit (m_R G) = true /\ (0 <= m_R G < 2 ^ Z.of_nat Env_k)%Z.
Proof.
  cbv zeta. rewrite gen_init_shape. fields.
  set (r := (Prng_rand (Prng_srand (m_prng st) seed) Env_k).1).
  assert (Hlen : length r = key_size_in_bytes) by apply rand_length.
  pose proof (key_size_le_16 k_le_128) as H16.
  pose proof (key_size_pos k_pos) as H0.
  rewrite loadu_resize by (rewrite length_set_ith_bit; lia).
  rewrite le_combine_set_ith_bit by lia.
  split; [apply perm_bit_setbit0|].
  apply (setbit_bound _ _ _ true).
  - pose proof k_pos. lia.
  - split; [apply le_combine_bound | apply rand_bound].
Qed.

Ltac opened := rewrite ?gen_init_shape, ?evl_init_shape; unfold recv; fields.

Lemma sim_init (alloc_g alloc_e : list Z) (st_g st_e : GarbledCct3)
    (ot_keys evl_keys decoms : list Bytes) (mask masked evl_in seed stream : Bytes) :
  length alloc_g = m_cnt -> length alloc_e = m_cnt ->
  m_w st_g = [] \/ length (m_w st_g) = m_cnt ->
  m_w st_e = [] \/ length (m_w st_e) = m_cnt ->
  Sim ot_keys evl_keys decoms mask masked evl_in stream
    (gen_init alloc_g st_g ot_keys mask seed)
    (recv (set_m_gen_inp_decom decoms (evl_init alloc_e st_e evl_keys masked evl_in)) stream)
    plain_init.
Proof.
  intros Hag Hae Hg He.
  destruct (gen_init_R alloc_g st_g ot_keys mask seed) as [HRp HRb].
  split; try assumption.
  - opened. reflexivity.
  - opened. reflexivity.
  - opened. reflexivity.
  - opened. now apply allocated_length.
  - opened. now apply allocated_length.
  - apply length_replicate.
  - intros i v Hr. exfalso. unfold plain_read, plain_init in Hr. cbn [p_wire] in Hr.
    destruct (replicate m_cnt None !! i) as [o|] eqn:E; [|discriminate].
    apply lookup_replicate in E. destruct E as [-> _]. discriminate.
  - opened. reflexivity.
  - opened. reflexivity.
  - opened. reflexivity.
  - opened. reflexivity.
  - opened. reflexivity.
  - opened. reflexivity.
  - unfold plain_init. cbn [p_evl_out length]. reflexivity.
  - unfold plain_init. cbn [p_gen_out length]. reflexivity.
  - opened. rewrite length_resize. apply byte_count_covers.
  - opened. rewrite length_resize. apply byte_count_covers.
  - opened. reflexivity.
  - opened. reflexivity.
  - opened. reflexivity.
  - opened. reflexivity.
  - opened. reflexivity.
  - opened. reflexivity.
  - opened. reflexivity.
  - opened. reflexivity.
  - opened. rewrite length_vec_resize. lia.
Qed.

End HonestRun.
(** ** Runs of the generator *)

Section GenRun.

Context {config : Config} {env : Env} {collab : Collab}.

(** What [gen_next_gate] adds to its kernel does not touch a member other
    than the wire table and the gate index. *)
Lemma gen_next_gate_frame {A : Type} (f : GarbledCct3 -> A) (st : GarbledCct3) (g : Gate) :
  (forall x y s, f (set_m_gate_ix x (set_m_w y s)) = f s) ->
  f (gen_next_gate st g) = f (out_st (gen_kernel st g)).
Proof. intros Hf. unfold gen_next_gate. cbv zeta. apply Hf. Qed.

Lemma gen_next_gate_m_gen_inp_ix st g :
  m_gen_inp_ix (gen_next_gate st g)
  = m_gen_inp_ix st + (if Tag_eqb (m_tag g) GEN_INP then 1 else 0).
Proof.
  rewrite (gen_next_gate_frame m_gen_inp_ix) by reflexivity.
  apply gen_kernel_m_gen_inp_ix.
Qed.

(** A gate leaves the decommitments of the earlier generator inputs. *)
Lemma gen_next_gate_decom st g j :
  j < 2 * m_gen_inp_ix st ->
  m_gen_inp_decom (gen_next_gate st g) !!! j = m_gen_inp_decom st !!! j.
Proof.
  intros Hj. rewrite (gen_next_gate_frame m_gen_inp_decom) by reflexivity.
  unfold gen_kernel.
  destruct (m_tag g);
    try (destruct (gen_internal_shape st g) as (p & o & ->); fields; reflexivity).
  - unfold gen_GEN_INP. fields.
    rewrite !list_lookup_total_insert_ne by lia. reflexivity.
  - unfold gen_EVL_INP. fields. reflexivity.
Qed.

Lemma gen_run_cons st g gates :
  gen_run st (g :: gates) = gen_run (gen_next_gate st g) gates.
Proof. reflexivity. Qed.

Lemma evl_run_cons st g gates :
  evl_run st (g :: gates) = evl_run (evl_next_gate st g) gates.
Proof. reflexivity. Qed.

Lemma gen_run_app st gates1 gates2 :
  gen_run st (gates1 ++ gates2) = gen_run (gen_run st gates1) gates2.
Proof. apply fold_left_app. Qed.


Lemma gen_run_m_gen_inp_ix gates : forall st,
  m_gen_inp_ix st <= m_gen_inp_ix (gen_run st gates).
Proof.
  induction gates as [|g gates IH]; intros st; [reflexivity|].
  rewrite gen_run_cons. specialize (IH (gen_next_gate st g)).
  rewrite gen_next_gate_m_gen_inp_ix in IH. lia.
Qed.

Lemma gen_run_decom gates : forall st j,
  j < 2 * m_gen_inp_ix st ->
  m_gen_inp_decom (gen_run st gates) !!! j = m_gen_inp_decom st !!! j.
Proof.
  induction gates as [|g gates IH]; intros st j Hj; [reflexivity|].
  rewrite gen_run_cons, IH by (rewrite gen_next_gate_m_gen_inp_ix; lia).
  now apply gen_next_gate_decom.
Qed.

(** A run only appends to [m_o_bufr]. *)
Lemma gen_run_appends gates : forall st,
  exists more, m_o_bufr (gen_run st gates) = m_o_bufr st ++ more.
Proof.
  induction gates as [|g gates IH]; intros st.
  - exists []. now rewrite app_nil_r.
  - rewrite gen_run_cons. destruct (IH (gen_next_gate st g)) as [more ->].
    rewrite gen_next_gate_emitted, <- app_assoc. now eexists.
Qed.

End GenRun.

(** ** The two parties side by side *)

Section SimRun.

Context {config : Config} {env : Env} {collab : Collab} {ok : CollabOk}.

Variables (ot_keys evl_keys decoms : list Bytes).
Variables (mask masked gen_in evl_in : Bytes).
Variable (evl_inp_cnt : nat).
Variable (stream : Bytes).

Hypothesis HGRR : GRR = true.
Hypothesis Hmatch : Matching ot_keys evl_keys mask masked gen_in evl_in evl_inp_cnt.

Lemma sim_run (gates : list Gate) : forall (G E : GarbledCct3) (P P' : Plain),
  Sim ot_keys evl_keys decoms mask masked evl_in stream G E P ->
  plain_run gen_in evl_in evl_inp_cnt P gates = Some P' ->
  (forall g, In g gates -> (FREE_XOR && is_xor g) = true -> xor_shaped g) ->
  (exists rest, stream = m_o_bufr (gen_run G gates) ++ rest) ->
  (forall i, i < gen_inp_cnt -> i < m_gen_inp_ix (gen_run G gates) ->
     decoms !!! i
     = m_gen_inp_decom (gen_run G gates) !!! (2 * i + b2n (get_ith_bit masked i))) ->
  Sim ot_keys evl_keys decoms mask masked evl_in stream
    (gen_run G gates) (evl_run E gates) P'.
Proof.
  induction gates as [|g gates IH]; intros G E P P' HS Hplain Hsound Hstream Hdec.
  - cbn in Hplain. injection Hplain as <-. exact HS.
  - cbn [plain_run] in Hplain.
    destruct (plain_next_gate gen_in evl_in evl_inp_cnt P g) as [P1|] eqn:Hstep;
      [|discriminate].
    rewrite gen_run_cons, evl_run_cons. rewrite gen_run_cons in Hstream, Hdec.
    apply (IH _ _ P1); try assumption.
    + apply (sim_step ot_keys evl_keys decoms mask masked gen_in evl_in evl_inp_cnt
               stream HGRR Hmatch G E P P1 g HS Hstep).
      * apply Hsound. now left.
      * destruct Hstream as [rest ->].
        destruct (gen_run_appends gates (gen_next_gate G g)) as [more ->].
        rewrite <- app_assoc. now eexists.
      * intros Htag.
        destruct (plain_next_gate_inv _ _ _ _ _ _ Hstep) as (_ & v & _ & Hv).
        rewrite Htag in Hv. destruct Hv as [Hlt _].
        rewrite (sim_gen_inp_ix_G _ _ _ _ _ _ _ _ _ _ HS).
        rewrite Hdec;
          [|exact Hlt
           |pose proof (gen_run_m_gen_inp_ix gates (gen_next_gate G g)) as Hmono;
            rewrite gen_next_gate_m_gen_inp_ix, Htag in Hmono; cbn [Tag_eqb] in Hmono;
            rewrite <- (sim_gen_inp_ix_G _ _ _ _ _ _ _ _ _ _ HS); lia].
        apply gen_run_decom. rewrite gen_next_gate_m_gen_inp_ix, Htag.
        rewrite (sim_gen_inp_ix_G _ _ _ _ _ _ _ _ _ _ HS). cbn [Tag_eqb].
        destruct (get_ith_bit masked (p_gen_inp_ix P)); cbn [b2n]; lia.
    + intros g' Hg'. apply Hsound. now right.
Qed.

End SimRun.
(** ** The honest execution of a circuit *)

Section HonestExecution.

Context {config : Config} {env : Env} {collab : Collab} {ok : CollabOk}.

Variables (alloc_g alloc_e : list Z) (st_g st_e : GarbledCct3).
Variables (ot_keys : list Bytes) (mask masked gen_in evl_in seed : Bytes).
Variable (evl_inp_cnt : nat).

Hypothesis HGRR : GRR = true.
Hypothesis Halloc_g : length alloc_g = m_cnt.
Hypothesis Halloc_e : length alloc_e = m_cnt.
Hypothesis Hw_g : m_w st_g = [] \/ length (m_w st_g) = m_cnt.
Hypothesis Hw_e : m_w st_e = [] \/ length (m_w st_e) = m_cnt.
Hypothesis Hmasked : forall i, i < gen_inp_cnt ->
  get_ith_bit masked i = xorb (get_ith_bit gen_in i) (get_ith_bit mask i).
Hypothesis Hot : forall j, j < 2 * evl_inp_cnt ->
  length (ot_keys !!! j) <= key_size_in_bytes.

Lemma honest_matching :
  Matching ot_keys (chosen_ot_keys ot_keys evl_in evl_inp_cnt) mask masked gen_in evl_in
    evl_inp_cnt.
Proof.
  split; [exact Hmasked | exact Hot |].
  intros j Hj. unfold chosen_ot_keys. now rewrite lookup_total_map_seq.
Qed.

(** After any first part [gates1] of the circuit the two parties are in
    step. *)
Lemma honest_prefix_sim (gates1 gates2 : list Gate) (P1 : Plain) :
  (forall g, In g gates1 -> (FREE_XOR && is_xor g) = true -> xor_shaped g) ->
  plain_run gen_in evl_in evl_inp_cnt plain_init gates1 = Some P1 ->
  let G := honest_gen alloc_g st_g ot_keys mask seed (gates1 ++ gates2) in
  Sim ot_keys (chosen_ot_keys ot_keys evl_in evl_inp_cnt) (opened_decoms G masked)
    mask masked evl_in (m_o_bufr G)
    (honest_gen alloc_g st_g ot_keys mask seed gates1)
    (honest_evl G alloc_e st_e ot_keys masked evl_in evl_inp_cnt gates1) P1.
Proof.
  intros Hsound Hplain G. unfold honest_gen, honest_evl, honest_evl_init.
  apply (sim_run ot_keys _ _ mask masked gen_in evl_in evl_inp_cnt _ HGRR honest_matching
           gates1 _ _ plain_init P1).
  - now apply sim_init.
  - exact Hplain.
  - exact Hsound.
  - unfold G, honest_gen. rewrite gen_run_app. apply gen_run_appends.
  - intros i Hi Hix. unfold opened_decoms. rewrite lookup_total_map_seq by exact Hi.
    unfold G, honest_gen. rewrite gen_run_app. apply gen_run_decom.
    destruct (get_ith_bit masked i); cbn [b2n]; lia.
Qed.

End HonestExecution.

Section HonestTheorems.

Context {config : Config} {env : Env} {collab : Collab} {ok : CollabOk}.

(** C1. Correctness under honest execution. In a build with [GRR], when the
    free-XOR test [is_xor] accepts only XOR-shaped gates and the circuit
    [gates] evaluates in the clear on [gen_in], [evl_in] to [P'], the
    evaluator that is initialised with the oblivious-transfer keys chosen by
    [evl_in], the masked generator input and the opened decommitments, and
    that reads the generator's bytes, ends with as many evaluator and
    generator output bits as the plain evaluation, and with the same bits. *)
Theorem honest_execution_correct
    (alloc_g alloc_e : list Z) (st_g st_e : GarbledCct3) (ot_keys : list Bytes)
    (mask masked gen_in evl_in seed : Bytes) (evl_inp_cnt : nat)
    (gates : list Gate) (P' : Plain) :
  GRR = true ->
  length alloc_g = m_cnt -> length alloc_e = m_cnt ->
  m_w st_g = [] \/ length (m_w st_g) = m_cnt ->
  m_w st_e = [] \/ length (m_w st_e) = m_cnt ->
  (forall i, i < gen_inp_cnt ->
     get_ith_bit masked i = xorb (get_ith_bit gen_in i) (get_ith_bit mask i)) ->
  (forall j, j < 2 * evl_inp_cnt -> length (ot_keys !!! j) <= key_size_in_bytes) ->
  (forall g, In g gates -> (FREE_XOR && is_xor g) = true -> xor_shaped g) ->
  plain_run gen_in evl_in evl_inp_cnt plain_init gates = Some P' ->
  let G := honest_gen alloc_g st_g ot_keys mask seed gates in
  let E := honest_evl G alloc_e st_e ot_keys masked evl_in evl_inp_cnt gates in
  m_evl_out_ix E = length (p_evl_out P')
  /\ m_gen_out_ix E = length (p_gen_out P')
  /\ bits_of (m_evl_out E) (m_evl_out_ix E) = p_evl_out P'
  /\ bits_of (m_gen_out E) (m_gen_out_ix E) = p_gen_out P'.
Proof.
  intros HGRR Hag Hae Hwg Hwe Hmasked Hot Hsound Hplain G E.
  pose proof (honest_prefix_sim alloc_g alloc_e st_g st_e ot_keys mask masked gen_in
                evl_in seed evl_inp_cnt HGRR Hag Hae Hwg Hwe Hmasked Hot
                gates [] P' Hsound Hplain) as HS.
  cbv zeta in HS. rewrite app_nil_r in HS. fold G in HS. fold E in HS.
  sim_destruct HS.
  rewrite Heo, Hgo. repeat split; assumption.
Qed.


End HonestTheorems.
(** ** The label pairs of the generator *)

Section LabelPairs.

Context {config : Config} {env : Env} {collab : Collab}.

(** The pair [Z] of an internal gate is a zero label and that label xor
    [R], with and without [GRR]. *)
Lemma gen_entry0_pair (C : Z) (bit : bool) (st : GarbledCct3) :
  (gen_entry0 C bit st).1.1.1 true
  = xor_si128 ((gen_entry0 C bit st).1.1.1 false) (m_R st).
Proof.
  unfold gen_entry0. destruct GRR; cbn [fst snd].
  - rewrite (arr2_at_lab (m_R st) C bit true). unfold lab, xor_si128. reflexivity.
  - reflexivity.
Qed.

Lemma gen_rows_pair (g : Gate) (st : GarbledCct3) :
  out_Z (gen_rows g st) true = xor_si128 (out_Z (gen_rows g st) false) (m_R st).
Proof.
  unfold gen_rows.
  destruct (FREE_XOR && is_xor g); [reflexivity|].
  destruct (length (m_input_idx g) =? 2).
  - unfold gen_arity2. fields. apply gen_entry0_pair.
  - unfold gen_arity1. fields. apply gen_entry0_pair.
Qed.

(** With [GRR] the local [current_zero_key] is [Z[0]]. *)
Lemma gen_rows_zero_key (g : Gate) (st : GarbledCct3) :
  GRR = true -> out_key (gen_rows g st) = out_Z (gen_rows g st) false.
Proof.
  intros HGRR. unfold gen_rows.
  destruct (FREE_XOR && is_xor g); [reflexivity|].
  destruct (length (m_input_idx g) =? 2).
  - unfold gen_arity2. fields. unfold gen_entry0. rewrite HGRR. reflexivity.
  - unfold gen_arity1. fields. unfold gen_entry0. rewrite HGRR. reflexivity.
Qed.

(** Without [GRR] the local [current_zero_key] of a gate with rows is never
    assigned: the wire table receives what the local happens to hold. *)
Lemma gen_rows_unassigned_key (g : Gate) (st : GarbledCct3) :
  GRR = false -> (FREE_XOR && is_xor g) = false ->
  out_key (gen_rows g st) = indeterminate_m128i.
Proof.
  intros HGRR Hfree. unfold gen_rows. rewrite Hfree.
  destruct (length (m_input_idx g) =? 2).
  - unfold gen_arity2. fields. unfold gen_entry0. rewrite HGRR. reflexivity.
  - unfold gen_arity1. fields. unfold gen_entry0. rewrite HGRR. reflexivity.
Qed.

Lemma gen_next_gate_unassigned_key (g : Gate) (st : GarbledCct3) :
  GRR = false -> is_input g = false -> (FREE_XOR && is_xor g) = false ->
  m_idx g < length (m_w st) ->
  m_w (gen_next_gate st g) !!! m_idx g = indeterminate_m128i.
Proof.
  intros HGRR Hin Hfree Hidx.
  unfold gen_next_gate. fields.
  rewrite list_lookup_total_insert_eq by now rewrite gen_kernel_m_w.
  rewrite gen_kernel_internal by exact Hin.
  unfold gen_internal. fields. now apply gen_rows_unassigned_key.
Qed.

End LabelPairs.

Section OffsetInvariant.

Context {config : Config} {env : Env} {collab : Collab} {ok : CollabOk}.



End OffsetInvariant.
(** * Further properties of the engine *)

(** ** Initialisation *)

Section InitProperties.

Context {config : Config} {env : Env} {collab : Collab} {ok : CollabOk}.

(** X1. [gen_init] seeds the PRNG and draws [R] first: [R] is the [k] random
    bits with bit 0 set, so it is odd and below [2^k]; the mask is exactly
    the low [k] bits; the counters are zero and both buffers empty; the
    decommitment table has two entries per generator input; the wire table
    is the fresh array only when the object had none, and is kept
    otherwise; the running hash is left alone, and [com_init] is [gen_init]
    with the running hash emptied. *)
Theorem gen_init_establishes (alloc : list Z) (st : GarbledCct3) (ot_keys : list Bytes)
    (mask seed : Bytes) :
  let G := gen_init alloc st ot_keys mask seed in
  let r := Prng_rand (Prng_srand (m_prng st) seed) Env_k in
  (m_R G = Z.setbit (le_combine r.1) 0
   /\ perm_bit (m_R G) = true
   /\ (0 <= m_R G < 2 ^ Z.of_nat Env_k)%Z
   /\ m_prng G = r.2)
  /\ m_clear_mask G = (2 ^ Z.of_nat Env_k - 1)%Z
  /\ (m_gate_ix G = 0%Z /\ m_gen_inp_ix G = 0 /\ m_evl_inp_ix G = 0
      /\ m_gen_inp_hash_ix G = 0 /\ m_o_bufr G = [] /\ m_i_bufr G = [])
  /\ length (m_gen_inp_decom G) = 2 * gen_inp_cnt
  /\ m_w G = (if bool_decide (m_w st = []) then alloc else m_w st)
  /\ (m_ot_keys G = ot_keys /\ m_gen_inp_mask G = mask)
  /\ hash_stream G = hash_stream st
  /\ hash_stream (com_init alloc st ot_keys mask seed) = []
  /\ garbling_part (com_init alloc st ot_keys mask seed) = garbling_part G.
Proof.
  intros G r.
  destruct (gen_init_R alloc st ot_keys mask seed) as [HRp HRb].
  unfold com_init. fold G. unfold G in *. clear G.
  rewrite gen_init_shape in HRp, HRb |- *. cbv zeta in HRp, HRb |- *.
  cbn [m_R] in HRp, HRb. fold r in HRp, HRb |- *.
  unfold hash_stream, garbling_part. fields.
  repeat split; try reflexivity; try assumption; try apply HRb.
  - pose proof (rand_length (Prng_srand (m_prng st) seed)) as Hlen. fold r in Hlen.
    pose proof (key_size_le_16 k_le_128). pose proof (key_size_pos k_pos).
    rewrite loadu_resize by (rewrite length_set_ith_bit; lia).
    apply le_combine_set_ith_bit. lia.
  - rewrite Z.ones_equiv. lia.
  - rewrite length_vec_resize. lia.
  - destruct (m_w st); reflexivity.
Qed.

(** X2. [evl_init] leaves the mask of exactly the low [k] bits, zero
    counters and empty buffers, an empty running hash, a commitment and a
    decommitment table of one entry per generator input, and output byte
    strings that have room for every output bit; it stores the keys, the
    masked generator input and the evaluator's input as given, leaves [R]
    and the PRNG alone, and keeps a wire table the object already has. *)
Theorem evl_init_establishes (alloc : list Z) (st : GarbledCct3) (ot_keys : list Bytes)
    (masked evl_in : Bytes) :
  let E := evl_init alloc st ot_keys masked evl_in in
  m_clear_mask E = (2 ^ Z.of_nat Env_k - 1)%Z
  /\ (m_gate_ix E = 0%Z /\ m_gen_inp_ix E = 0 /\ m_evl_inp_ix E = 0
      /\ m_gen_out_ix E = 0 /\ m_evl_out_ix E = 0 /\ m_gen_inp_hash_ix E = 0
      /\ m_o_bufr E = [] /\ m_i_bufr E = [])
  /\ hash_stream E = []
  /\ (length (m_gen_inp_com E) = gen_inp_cnt /\ length (m_gen_inp_decom E) = gen_inp_cnt)
  /\ (length (m_evl_out E) = (evl_out_cnt + 7) / 8 /\ evl_out_cnt <= 8 * length (m_evl_out E)
      /\ length (m_gen_out E) = (gen_out_cnt + 7) / 8
      /\ gen_out_cnt <= 8 * length (m_gen_out E))
  /\ length (m_gen_inp_hash E) = key_size_in_bytes
  /\ m_w E = (if bool_decide (m_w st = []) then alloc else m_w st)
  /\ (m_ot_keys E = ot_keys /\ m_gen_inp_mask E = masked /\ m_evl_inp E = evl_in)
  /\ (m_R E = m_R st /\ m_prng E = m_prng st).
Proof.
  intros E. unfold E. clear E. rewrite evl_init_shape.
  unfold hash_stream. fields.
  rewrite !length_vec_resize, !length_resize.
  repeat split; try reflexivity; try apply byte_count_covers.
  - rewrite Z.ones_equiv. lia.
  - destruct (m_w st); reflexivity.
Qed.

End InitProperties.
(** ** What a gate leaves alone *)

Section GateFrames.

Context {config : Config} {env : Env} {collab : Collab}.

Lemma evl_next_gate_frame {A : Type} (f : GarbledCct3 -> A) (st : GarbledCct3) (g : Gate) :
  (forall x y z u s,
     f (set_m_gate_ix x (set_m_hash y (set_m_bufr z (set_m_w u s)))) = f s) ->
  f (evl_next_gate st g) = f (evl_kernel st g).2.
Proof.
  intros Hf. destruct (evl_next_gate_shape st g) as (a & b & c & ->). apply Hf.
Qed.

(** The members that the kernels assign. *)
Lemma gen_kernel_shape (st : GarbledCct3) (g : Gate) :
  exists p d o gi ei,
    out_st (gen_kernel st g)
    = st |> set_m_prng p |> set_m_gen_inp_decom d |> set_m_o_bufr o
         |> set_m_gen_inp_ix gi |> set_m_evl_inp_ix ei.
Proof.
  assert (Hint : exists p d o gi ei,
            out_st (gen_internal g st)
            = st |> set_m_prng p |> set_m_gen_inp_decom d |> set_m_o_bufr o
                 |> set_m_gen_inp_ix gi |> set_m_evl_inp_ix ei).
  { destruct (gen_internal_shape st g) as (p & o & ->).
    exists p, (m_gen_inp_decom st), o, (m_gen_inp_ix st), (m_evl_inp_ix st).
    destruct st; reflexivity. }
  unfold gen_kernel. destruct (m_tag g); try exact Hint.
  - set (r := out_st (gen_GEN_INP st)).
    exists (m_prng r), (m_gen_inp_decom r), (m_o_bufr r), (m_gen_inp_ix r), (m_evl_inp_ix r).
    unfold r, gen_GEN_INP. destruct st; reflexivity.
  - set (r := out_st (gen_EVL_INP st)).
    exists (m_prng r), (m_gen_inp_decom r), (m_o_bufr r), (m_gen_inp_ix r), (m_evl_inp_ix r).
    unfold r, gen_EVL_INP. destruct st; reflexivity.
Qed.

Lemma evl_kernel_shape (st : GarbledCct3) (g : Gate) :
  exists c it gi ei eo go eox gox,
    (evl_kernel st g).2
    = st |> set_m_gen_inp_com c |> set_m_i_bufr_ix it
         |> set_m_gen_inp_ix gi |> set_m_evl_inp_ix ei
         |> set_m_evl_out eo |> set_m_gen_out go
         |> set_m_evl_out_ix eox |> set_m_gen_out_ix gox.
Proof.
  set (r := (evl_kernel st g).2).
  exists (m_gen_inp_com r), (m_i_bufr_ix r), (m_gen_inp_ix r), (m_evl_inp_ix r),
    (m_evl_out r), (m_gen_out r), (m_evl_out_ix r), (m_gen_out_ix r).
  unfold r, evl_kernel, evl_internal, evl_GEN_INP, evl_EVL_INP.
  generalize (evl_rows g st). intros [key it].
  destruct (m_tag g); destruct st; reflexivity.
Qed.

Lemma gen_next_gate_offset (st : GarbledCct3) (g : Gate) :
  m_R (gen_next_gate st g) = m_R st
  /\ m_gen_inp_mask (gen_next_gate st g) = m_gen_inp_mask st
  /\ length (m_gen_inp_decom (gen_next_gate st g)) = length (m_gen_inp_decom st).
Proof.
  rewrite (gen_next_gate_frame m_R), (gen_next_gate_frame m_gen_inp_mask),
    (gen_next_gate_frame (fun s => length (m_gen_inp_decom s))) by reflexivity.
  rewrite gen_kernel_m_R, gen_kernel_m_gen_inp_mask, gen_kernel_decom_length.
  repeat split.
Qed.

Lemma evl_next_gate_m_gen_inp_decom (st : GarbledCct3) (g : Gate) :
  m_gen_inp_decom (evl_next_gate st g) = m_gen_inp_decom st.
Proof.
  rewrite (evl_next_gate_frame m_gen_inp_decom) by reflexivity.
  apply evl_kernel_m_gen_inp_decom.
Qed.

(** X3. [gen_next_gate] is the generator's alone: whatever the gate, it
    leaves [R], the mask, the keys of the oblivious transfer, the input
    mask, the evaluator's members ([in_buffer] and its read position, the
    commitments, the outputs and their counters, the input-hash bits) and
    the running hash as they were, and it keeps the sizes of the wire table
    and of the decommitment table. *)
Theorem gen_next_gate_leaves (st : GarbledCct3) (g : Gate) :
  let st' := gen_next_gate st g in
  (m_R st' = m_R st /\ m_clear_mask st' = m_clear_mask st
   /\ m_ot_keys st' = m_ot_keys st /\ m_gen_inp_mask st' = m_gen_inp_mask st)
  /\ (m_i_bufr st' = m_i_bufr st /\ m_i_bufr_ix st' = m_i_bufr_ix st
      /\ m_evl_inp st' = m_evl_inp st /\ m_gen_inp_com st' = m_gen_inp_com st
      /\ m_evl_out st' = m_evl_out st /\ m_gen_out st' = m_gen_out st
      /\ m_evl_out_ix st' = m_evl_out_ix st /\ m_gen_out_ix st' = m_gen_out_ix st
      /\ m_gen_inp_hash st' = m_gen_inp_hash st
      /\ m_gen_inp_hash_ix st' = m_gen_inp_hash_ix st)
  /\ (m_bufr st' = m_bufr st /\ m_hash st' = m_hash st)
  /\ (length (m_w st') = length (m_w st)
      /\ length (m_gen_inp_decom st') = length (m_gen_inp_decom st)).
Proof.
  cbv zeta.
  assert (Hk : forall {A : Type} (f : GarbledCct3 -> A),
            (forall x y s, f (set_m_gate_ix x (set_m_w y s)) = f s) ->
            f (out_st (gen_kernel st g)) = f st ->
            f (gen_next_gate st g) = f st).
  { intros A f Hf Hst. rewrite (gen_next_gate_frame f) by exact Hf. exact Hst. }
  destruct (gen_kernel_shape st g) as (p & d & o & gi & ei & Hs).
  repeat split.
  all: try (apply Hk; [reflexivity | rewrite Hs; reflexivity]).
  - rewrite gen_next_gate_m_w. apply length_insert.
  - apply (Hk _ (fun s => length (m_gen_inp_decom s))); [reflexivity|].
    apply gen_kernel_decom_length.
Qed.

(** X4. [evl_next_gate] is the evaluator's alone: whatever the gate, it
    leaves [in_buffer] itself (only the read position moves), the keys, the
    masked generator input, its own input and the decommitments as they
    were, never touches [R], the PRNG, [out_buffer] and the input-hash
    bits, and keeps the sizes of the wire table, of the commitment table
    and of the two output byte strings. *)
Theorem evl_next_gate_leaves (st : GarbledCct3) (g : Gate) :
  let st' := evl_next_gate st g in
  (m_i_bufr st' = m_i_bufr st /\ m_ot_keys st' = m_ot_keys st
   /\ m_gen_inp_mask st' = m_gen_inp_mask st /\ m_evl_inp st' = m_evl_inp st
   /\ m_gen_inp_decom st' = m_gen_inp_decom st /\ m_clear_mask st' = m_clear_mask st)
  /\ (m_R st' = m_R st /\ m_prng st' = m_prng st /\ m_o_bufr st' = m_o_bufr st
      /\ m_gen_inp_hash st' = m_gen_inp_hash st
      /\ m_gen_inp_hash_ix st' = m_gen_inp_hash_ix st)
  /\ (length (m_w st') = length (m_w st)
      /\ length (m_gen_inp_com st') = length (m_gen_inp_com st)
      /\ length (m_evl_out st') = length (m_evl_out st)
      /\ length (m_gen_out st') = length (m_gen_out st)).
Proof.
  cbv zeta.
  assert (Hk : forall {A : Type} (f : GarbledCct3 -> A),
            (forall x y z u s,
               f (set_m_gate_ix x (set_m_hash y (set_m_bufr z (set_m_w u s)))) = f s) ->
            f (evl_kernel st g).2 = f st ->
            f (evl_next_gate st g) = f st).
  { intros A f Hf Hst. rewrite (evl_next_gate_frame f) by exact Hf. exact Hst. }
  destruct (evl_kernel_shape st g) as (c & it & gi & ei & eo & go & eox & gox & Hs).
  repeat split.
  all: try (apply Hk; [reflexivity | rewrite Hs; reflexivity]).
  - rewrite evl_next_gate_m_w. apply length_insert.
  - apply (Hk _ (fun s => length (m_gen_inp_com s))); [reflexivity|].
    unfold evl_kernel, evl_internal, evl_GEN_INP, evl_EVL_INP.
    destruct (m_tag g); fields; rewrite ?length_insert; reflexivity.
  - apply (Hk _ (fun s => length (m_evl_out s))); [reflexivity|].
    rewrite evl_kernel_m_evl_out.
    destruct (Tag_eqb (m_tag g) EVL_OUT); [apply length_set_ith_bit | reflexivity].
  - apply (Hk _ (fun s => length (m_gen_out s))); [reflexivity|].
    rewrite evl_kernel_m_gen_out.
    destruct (Tag_eqb (m_tag g) GEN_OUT); [apply length_set_ith_bit | reflexivity].
Qed.

End GateFrames.
(** ** Whole runs *)

Section RunProperties.

Context {config : Config} {env : Env} {collab : Collab}.

Lemma count_tag_cons t g gates :
  count_tag t (g :: gates)
  = (if Tag_eqb (m_tag g) t then 1 else 0) + count_tag t gates.
Proof. unfold count_tag. cbn [List.filter]. destruct (Tag_eqb (m_tag g) t); reflexivity. Qed.

Lemma gate_ix_steps (x : Z) (n : nat) :
  (((x + 1) mod 2 ^ 64 + Z.of_nat n) mod 2 ^ 64 = (x + Z.of_nat (S n)) mod 2 ^ 64)%Z.
Proof. rewrite Zplus_mod_idemp_l. f_equal. lia. Qed.

Lemma evl_next_gate_counters st g :
  m_gen_inp_ix (evl_next_gate st g)
  = m_gen_inp_ix st + (if Tag_eqb (m_tag g) GEN_INP then 1 else 0)
  /\ m_evl_inp_ix (evl_next_gate st g)
     = m_evl_inp_ix st + (if Tag_eqb (m_tag g) EVL_INP then 1 else 0)
  /\ m_evl_out_ix (evl_next_gate st g)
     = m_evl_out_ix st + (if Tag_eqb (m_tag g) EVL_OUT then 1 else 0)
  /\ m_gen_out_ix (evl_next_gate st g)
     = m_gen_out_ix st + (if Tag_eqb (m_tag g) GEN_OUT then 1 else 0).
Proof.
  rewrite (evl_next_gate_frame m_gen_inp_ix), (evl_next_gate_frame m_evl_inp_ix),
    (evl_next_gate_frame m_evl_out_ix), (evl_next_gate_frame m_gen_out_ix) by reflexivity.
  rewrite evl_kernel_m_gen_inp_ix, evl_kernel_m_evl_inp_ix, evl_kernel_m_evl_out_ix,
    evl_kernel_m_gen_out_ix. repeat split.
Qed.

Lemma gen_next_gate_m_evl_inp_ix st g :
  m_evl_inp_ix (gen_next_gate st g)
  = m_evl_inp_ix st + (if Tag_eqb (m_tag g) EVL_INP then 1 else 0).
Proof.
  rewrite (gen_next_gate_frame m_evl_inp_ix) by reflexivity.
  apply gen_kernel_m_evl_inp_ix.
Qed.

(** X5. Along a run the counters count the gates: after [gen_next_gate] on
    every gate of a list the generator-input and evaluator-input counters
    have grown by the number of gates tagged [GEN_INP] and [EVL_INP], and
    after [evl_next_gate] on every gate so have the evaluator's, its two
    output counters by the number of gates tagged [EVL_OUT] and [GEN_OUT];
    the gate index of both has grown by the number of gates, modulo
    [2^64]. *)
Theorem run_counters (gates : list Gate) (gen evl : GarbledCct3) :
  (m_gen_inp_ix (gen_run gen gates) = m_gen_inp_ix gen + count_tag GEN_INP gates
   /\ m_evl_inp_ix (gen_run gen gates) = m_evl_inp_ix gen + count_tag EVL_INP gates
   /\ (m_gate_ix (gen_run gen gates) mod 2 ^ 64
       = (m_gate_ix gen + Z.of_nat (length gates)) mod 2 ^ 64)%Z)
  /\ (m_gen_inp_ix (evl_run evl gates) = m_gen_inp_ix evl + count_tag GEN_INP gates
      /\ m_evl_inp_ix (evl_run evl gates) = m_evl_inp_ix evl + count_tag EVL_INP gates
      /\ m_evl_out_ix (evl_run evl gates) = m_evl_out_ix evl + count_tag EVL_OUT gates
      /\ m_gen_out_ix (evl_run evl gates) = m_gen_out_ix evl + count_tag GEN_OUT gates
      /\ (m_gate_ix (evl_run evl gates) mod 2 ^ 64
          = (m_gate_ix evl + Z.of_nat (length gates)) mod 2 ^ 64)%Z).
Proof.
  split.
  - revert gen. induction gates as [|g gates IH]; intros gen.
    + cbn. rewrite !Nat.add_0_r, Z.add_0_r. repeat split.
    + rewrite gen_run_cons. destruct (IH (gen_next_gate gen g)) as (H1 & H2 & H3).
      rewrite H1, H2, H3, !count_tag_cons.
      rewrite gen_next_gate_m_gen_inp_ix, gen_next_gate_m_evl_inp_ix,
        gen_next_gate_m_gate_ix.
      repeat split; try lia. apply gate_ix_steps.
  - revert evl. induction gates as [|g gates IH]; intros evl.
    + cbn. rewrite !Nat.add_0_r, Z.add_0_r. repeat split.
    + rewrite evl_run_cons.
      destruct (IH (evl_next_gate evl g)) as (H1 & H2 & H3 & H4 & H5).
      rewrite H1, H2, H3, H4, H5, !count_tag_cons.
      destruct (evl_next_gate_counters evl g) as (-> & -> & -> & ->).
      rewrite evl_next_gate_m_gate_ix.
      repeat split; try lia. apply gate_ix_steps.
Qed.

(** The bytes of one gate, in any configuration. *)
Lemma gen_next_gate_rows_len st g :
  Env_k <= 128 ->
  (forall b, length (Bytes_hash b Env_k) = key_size_in_bytes) ->
  length (m_o_bufr (gen_next_gate st g)) = length (m_o_bufr st) + rows_len g.
Proof.
  intros Hk Hhash. rewrite gen_next_gate_m_o_bufr.
  unfold gen_kernel, rows_len.
  assert (Hint : length (m_o_bufr (out_st (gen_internal g st)))
                 = length (m_o_bufr st)
                   + ((if FREE_XOR && is_xor g then 0
                       else if length (m_input_idx g) =? 2
                            then (if GRR then 3 else 4) * key_size_in_bytes
                            else (if GRR then 1 else 2) * key_size_in_bytes)
                      + out_tag_len g)).
  { rewrite gen_internal_o_bufr, length_app, length_gen_out_tag. unfold gen_rows.
    destruct (FREE_XOR && is_xor g); [cbn; lia|].
    destruct (length (m_input_idx g) =? 2).
    - rewrite gen_arity2_rows.
      destruct GRR; rewrite !length_app, !length_key_bytes by assumption; cbn [length]; lia.
    - destruct (gen_arity1_rows st g) as (row0 & row1 & ->).
      destruct GRR; rewrite !length_app, !length_key_bytes by assumption; cbn [length]; lia. }
  destruct (m_tag g); try exact Hint.
  - unfold gen_GEN_INP. fields. rewrite !length_app, !Hhash. lia.
  - unfold gen_EVL_INP. fields. rewrite !length_app, !length_key_bytes by assumption. lia.
Qed.

Lemma evl_next_gate_rows_len st g :
  m_i_bufr_ix (evl_next_gate st g) = m_i_bufr_ix st + rows_len g.
Proof.
  rewrite evl_next_gate_m_i_bufr_ix.
  unfold evl_kernel, rows_len, evl_internal, evl_rows, out_tag_len,
    evl_GEN_INP, evl_EVL_INP.
  destruct (m_tag g); fields; try lia.
  all: destruct (FREE_XOR && is_xor g); fields; try lia.
  all: destruct (length (m_input_idx g) =? 2);
    unfold evl_arity2, evl_arity1, evl_arity1_no_GRR; destruct GRR; fields; lia.
Qed.

(** X6. In every configuration the two parties agree on the size of the
    stream: over a list of gates [gen_next_gate] appends to [out_buffer],
    and [evl_next_gate] advances the read position of [in_buffer] by, the
    same number of bytes, the sum over the gates of [2K] for an input gate
    and, for any other gate, of the rows it has (none when it is free, else
    three or one with [GRR] and four or two without) and of one tagging byte
    when it is an output. *)
Theorem run_stream_length (gates : list Gate) (gen evl : GarbledCct3) :
  Env_k <= 128 ->
  (forall b, length (Bytes_hash b Env_k) = key_size_in_bytes) ->
  length (m_o_bufr (gen_run gen gates)) = length (m_o_bufr gen) + stream_len gates
  /\ m_i_bufr_ix (evl_run evl gates) = m_i_bufr_ix evl + stream_len gates.
Proof.
  intros Hk Hhash. unfold stream_len. split.
  - revert gen. induction gates as [|g gates IH]; intros gen; [cbn; lia|].
    rewrite gen_run_cons, IH, gen_next_gate_rows_len by assumption.
    change (list_sum (map rows_len (g :: gates)))
      with (rows_len g + list_sum (map rows_len gates)). lia.
  - revert evl. induction gates as [|g gates IH]; intros evl; [cbn; lia|].
    rewrite evl_run_cons, IH, evl_next_gate_rows_len.
    change (list_sum (map rows_len (g :: gates)))
      with (rows_len g + list_sum (map rows_len gates)). lia.
Qed.

(** X7. A run writes only the wires of its gates: after [gen_next_gate],
    or [evl_next_gate], on every gate of a list, the wire table has the size
    it had and every entry whose index is the output wire of none of the
    gates is what it was. *)
Theorem run_writes_only_its_wires (gates : list Gate) (gen evl : GarbledCct3) (j : nat) :
  ~ In j (map m_idx gates) ->
  (m_w (gen_run gen gates) !! j = m_w gen !! j
   /\ length (m_w (gen_run gen gates)) = length (m_w gen))
  /\ (m_w (evl_run evl gates) !! j = m_w evl !! j
      /\ length (m_w (evl_run evl gates)) = length (m_w evl)).
Proof.
  intros Hj. split.
  - revert gen. induction gates as [|g gates IH]; intros gen; [split; reflexivity|].
    rewrite gen_run_cons. cbn [map In] in Hj.
    destruct (IH (fun H => Hj (or_intror H)) (gen_next_gate gen g)) as [-> ->].
    rewrite gen_next_gate_m_w, length_insert. split; [|reflexivity].
    apply list_lookup_insert_ne. intros Heq. apply Hj. left. exact Heq.
  - revert evl. induction gates as [|g gates IH]; intros evl; [split; reflexivity|].
    rewrite evl_run_cons. cbn [map In] in Hj.
    destruct (IH (fun H => Hj (or_intror H)) (evl_next_gate evl g)) as [-> ->].
    rewrite evl_next_gate_m_w, length_insert. split; [|reflexivity].
    apply list_lookup_insert_ne. intros Heq. apply Hj. left. exact Heq.
Qed.

End RunProperties.
(** ** The generator's labels *)

Section GeneratorLabels.

Context {config : Config} {env : Env} {collab : Collab} {ok : CollabOk}.

Lemma gen_next_gate_stored st g :
  m_idx g < length (m_w st) ->
  m_w (gen_next_gate st g) !!! m_idx g = out_key (gen_kernel st g).
Proof.
  intros Hidx. rewrite gen_next_gate_m_w.
  now apply list_lookup_total_insert_eq.
Qed.

(** X8. The offset invariant with [GRR]. The label [gen_next_gate] stores
    for the gate's wire is the zero label of the pair it garbles with: for a
    [GEN_INP] gate and for every gate with inputs the array of the two
    output labels is the stored label and the stored label xor [R]; for an
    [EVL_INP] gate the two ciphertexts are the two keys of the oblivious
    transfer xor the stored label, respectively the stored label xor [R]. *)
Theorem grr_offset_invariant (st : GarbledCct3) (g : Gate) :
  GRR = true -> m_idx g < length (m_w st) ->
  let r := gen_kernel st g in
  let W := m_w (gen_next_gate st g) !!! m_idx g in
  match m_tag g with
  | EVL_INP =>
      out_Z r false
      = xor_si128 (loadu (resize 16 (m_ot_keys st !!! (2 * m_evl_inp_ix st + 0)))) W
      /\ out_Z r true
         = xor_si128 (loadu (resize 16 (m_ot_keys st !!! (2 * m_evl_inp_ix st + 1))))
             (xor_si128 W (m_R st))
  | _ => out_Z r false = W /\ out_Z r true = xor_si128 W (m_R st)
  end.
Proof.
  intros HGRR Hidx r W. unfold W, r. rewrite gen_next_gate_stored by exact Hidx.
  assert (Hint : out_Z (gen_internal g st) false = out_key (gen_internal g st)
                 /\ out_Z (gen_internal g st) true
                    = xor_si128 (out_key (gen_internal g st)) (m_R st)).
  { unfold gen_internal. fields.
    rewrite gen_rows_pair, (gen_rows_zero_key g st HGRR). split; reflexivity. }
  unfold gen_kernel. destruct (m_tag g); try exact Hint.
  - unfold gen_GEN_INP. fields. split; reflexivity.
  - unfold gen_EVL_INP. fields. split; reflexivity.
Qed.

(** X9. The generator's labels stay within [k] bits, gate by gate. With
    [GRR], an offset [R] below [2^k] and the mask of the low [k] bits, the
    label [gen_next_gate] stores is below [2^k] whenever the labels on the
    gate's input wires are: it is [k] random bits, a masked KDF output or
    that output xor [R], or the XOR of the input labels. *)
Theorem gen_label_within_k_bits (st : GarbledCct3) (g : Gate) :
  GRR = true -> m_idx g < length (m_w st) ->
  (0 <= m_R st < 2 ^ Z.of_nat Env_k)%Z ->
  m_clear_mask st = Z.ones (Z.of_nat Env_k) ->
  (forall i, In i (m_input_idx g) -> (0 <= m_w st !!! i < 2 ^ Z.of_nat Env_k)%Z) ->
  (is_input g = false -> length (m_input_idx g) = 1 \/ length (m_input_idx g) = 2) ->
  (0 <= m_w (gen_next_gate st g) !!! m_idx g < 2 ^ Z.of_nat Env_k)%Z.
Proof.
  intros HGRR Hidx HR Hmask Hin Harity. rewrite gen_next_gate_stored by exact Hidx.
  assert (Hint : is_input g = false ->
            (0 <= out_key (gen_internal g st) < 2 ^ Z.of_nat Env_k)%Z).
  { intros Hni. specialize (Harity Hni).
    unfold gen_internal. fields. unfold gen_rows.
    destruct (FREE_XOR && is_xor g).
    - fields. unfold free_xor_key.
      destruct (m_input_idx g) as [|i0 [|i1 [|i2 l]]]; cbn in Harity; try lia.
      + cbn. apply Hin. now left.
      + cbn. apply lxor_bound; [lia | apply Hin; now left | apply Hin; right; now left].
    - assert (He : forall C bit,
                (0 <= (gen_entry0 (and_si128 C (m_clear_mask st)) bit st).1.1.2
                 < 2 ^ Z.of_nat Env_k)%Z).
      { intros C bit. unfold gen_entry0. rewrite HGRR, Hmask. fields.
        unfold arr2_at. destruct bit; cbn [Bool.eqb].
        - apply lxor_bound; [lia | apply and_ones_bound | exact HR].
        - apply and_ones_bound. }
      destruct (length (m_input_idx g) =? 2).
      + unfold gen_arity2. fields. apply He.
      + unfold gen_arity1. fields. apply He. }
  unfold gen_kernel, is_input in *. destruct (m_tag g); try (apply Hint; reflexivity).
  - unfold gen_GEN_INP. fields. destruct (rand_value (m_prng st)) as [-> Hb]. exact Hb.
  - unfold gen_EVL_INP. fields. destruct (rand_value (m_prng st)) as [-> Hb]. exact Hb.
Qed.

End GeneratorLabels.
(** ** The running hash and the outputs *)

Section HashAndOutputs.

Context {config : Config} {env : Env} {collab : Collab}.

Lemma update_hash_spill st d :
  if RAND_SEED
  then (Z.of_nat (length (m_bufr (update_hash st d))) <= CIRCUIT_HASH_BUFFER_SIZE)%Z
  else m_hash (update_hash st d) = m_hash st
       /\ m_bufr (update_hash st d) = m_bufr st ++ d.
Proof.
  unfold update_hash. destruct RAND_SEED; cbn [andb].
  - destruct (Z.gtb_spec (Z.of_nat (length (m_bufr st ++ d))) CIRCUIT_HASH_BUFFER_SIZE).
    + fields. cbn. unfold CIRCUIT_HASH_BUFFER_SIZE. lia.
    + fields. lia.
  - fields. split; reflexivity.
Qed.

(** X10. The spill buffer of the running hash. With [RAND_SEED], after
    every [com_next_gate] and every [evl_next_gate] the spill buffer holds
    at most [CIRCUIT_HASH_BUFFER_SIZE] bytes, whatever it held before;
    without [RAND_SEED] the incremental hash is never fed and the spill
    buffer grows by the whole [out_buffer], respectively [in_buffer]. In
    both cases what has been absorbed and what is spilled, one after the
    other, grow by exactly those bytes. *)
Theorem spill_buffer_bounded (gen evl : GarbledCct3) (g : Gate) :
  (if RAND_SEED
   then (Z.of_nat (length (m_bufr (com_next_gate gen g))) <= CIRCUIT_HASH_BUFFER_SIZE)%Z
        /\ (Z.of_nat (length (m_bufr (evl_next_gate evl g))) <= CIRCUIT_HASH_BUFFER_SIZE)%Z
   else (m_hash (com_next_gate gen g) = m_hash gen
         /\ m_bufr (com_next_gate gen g) = m_bufr gen ++ m_o_bufr (gen_next_gate gen g))
        /\ (m_hash (evl_next_gate evl g) = m_hash evl
            /\ m_bufr (evl_next_gate evl g) = m_bufr evl ++ m_i_bufr evl))
  /\ hash_stream (com_next_gate gen g)
     = hash_stream gen ++ m_o_bufr (gen_next_gate gen g)
  /\ hash_stream (evl_next_gate evl g) = hash_stream evl ++ m_i_bufr evl.
Proof.
  assert (Hc : forall f : GarbledCct3 -> Bytes,
            (forall o s, f (set_m_o_bufr o s) = f s) ->
            f (com_next_gate gen g)
            = f (update_hash (gen_next_gate gen g) (m_o_bufr (gen_next_gate gen g))))
    by (intros f Hf; unfold com_next_gate; apply Hf).
  assert (He : forall f : GarbledCct3 -> Bytes,
            (forall x s, f (set_m_gate_ix x s) = f s) ->
            f (evl_next_gate evl g)
            = f (update_hash
                   (set_m_w (<[m_idx g := (evl_kernel evl g).1]> (m_w (evl_kernel evl g).2))
                      (evl_kernel evl g).2)
                   (m_i_bufr evl)))
    by (intros f Hf; unfold evl_next_gate; cbv zeta; rewrite Hf;
        cbn [m_i_bufr set_m_w]; now rewrite evl_kernel_m_i_bufr).
  destruct (gen_next_gate_hash gen g) as [Hgb Hgh].
  split; [|split].
  - rewrite !(Hc m_bufr), !(Hc m_hash), !(He m_bufr), !(He m_hash) by reflexivity.
    pose proof (update_hash_spill (gen_next_gate gen g) (m_o_bufr (gen_next_gate gen g)))
      as Hg.
    pose proof (update_hash_spill
                  (set_m_w (<[m_idx g := (evl_kernel evl g).1]> (m_w (evl_kernel evl g).2))
                     (evl_kernel evl g).2) (m_i_bufr evl)) as Hv.
    destruct RAND_SEED; [split; assumption|].
    destruct Hg as [-> ->], Hv as [-> ->]. cbn [m_hash m_bufr set_m_w].
    rewrite Hgb, Hgh, evl_kernel_m_bufr, evl_kernel_m_hash. repeat split.
  - destruct (com_next_gate_stream gen g) as [-> _].
    now rewrite gen_next_gate_emitted, app_assoc.
  - apply evl_next_gate_stream.
Qed.

(** X11. The output bits. An [EVL_OUT] gate writes bit [m_evl_out_ix] of
    [m_evl_out], and a [GEN_OUT] gate bit [m_gen_out_ix] of [m_gen_out]:
    the parity of the label the gate stores, xor the low bit of the tagging
    byte, which is the last byte the gate consumes. Every other bit of the
    two byte strings is left, and a gate with another tag leaves them
    all. *)
Theorem evl_output_bit (st : GarbledCct3) (g : Gate) (j : nat) :
  m_evl_out_ix st < 8 * length (m_evl_out st) ->
  m_gen_out_ix st < 8 * length (m_gen_out st) ->
  let st' := evl_next_gate st g in
  let tag := m_i_bufr st !!! (m_i_bufr_ix st' - 1) in
  let bit := Z.odd (Z.lxor (Z.b2z (Z.odd (evl_kernel st g).1)) (byte.unsigned tag)) in
  get_ith_bit (m_evl_out st') j
  = (if Tag_eqb (m_tag g) EVL_OUT && (j =? m_evl_out_ix st) then bit
     else get_ith_bit (m_evl_out st) j)
  /\ get_ith_bit (m_gen_out st') j
     = (if Tag_eqb (m_tag g) GEN_OUT && (j =? m_gen_out_ix st) then bit
        else get_ith_bit (m_gen_out st) j).
Proof.
  intros He Hg st' tag bit. unfold bit, tag, st'.
  rewrite (evl_next_gate_frame m_evl_out), (evl_next_gate_frame m_gen_out),
    evl_next_gate_m_i_bufr_ix by reflexivity.
  unfold evl_kernel, evl_internal.
  destruct (m_tag g); cbn [Tag_eqb andb]; fields;
    rewrite ?get_set_ith_bit by assumption;
    rewrite ?Nat.add_sub; unfold out_bit; rewrite ?perm_bit_odd; split; reflexivity.
Qed.

End HashAndOutputs.
(** ** More on the honest execution *)

Section HonestLabels.

Context {config : Config} {env : Env} {collab : Collab} {ok : CollabOk}.

(** X12. What the evaluator holds at the end of an honest execution. In a
    build with [GRR], on every wire that a gate of the circuit has written
    the evaluator's label is the generator's zero label when the wire
    carries 0 in the clear and that label xor [R] when it carries 1; the
    evaluator has consumed the generator's bytes to the last one, and it has
    counted as many generator and evaluator inputs as the generator. *)
Theorem honest_labels_track_values
    (alloc_g alloc_e : list Z) (st_g st_e : GarbledCct3) (ot_keys : list Bytes)
    (mask masked gen_in evl_in seed : Bytes) (evl_inp_cnt : nat)
    (gates : list Gate) (P' : Plain) :
  GRR = true ->
  length alloc_g = m_cnt -> length alloc_e = m_cnt ->
  m_w st_g = [] \/ length (m_w st_g) = m_cnt ->
  m_w st_e = [] \/ length (m_w st_e) = m_cnt ->
  (forall i, i < gen_inp_cnt ->
     get_ith_bit masked i = xorb (get_ith_bit gen_in i) (get_ith_bit mask i)) ->
  (forall j, j < 2 * evl_inp_cnt -> length (ot_keys !!! j) <= key_size_in_bytes) ->
  (forall g, In g gates -> (FREE_XOR && is_xor g) = true -> xor_shaped g) ->
  plain_run gen_in evl_in evl_inp_cnt plain_init gates = Some P' ->
  let G := honest_gen alloc_g st_g ot_keys mask seed gates in
  let E := honest_evl G alloc_e st_e ot_keys masked evl_in evl_inp_cnt gates in
  (forall i v, plain_read P' i = Some v ->
     m_w E !!! i = Z.lxor (m_w G !!! i) (if v then m_R G else 0))
  /\ m_i_bufr_ix E = length (m_i_bufr E)
  /\ m_i_bufr E = m_o_bufr G
  /\ m_gen_inp_ix E = m_gen_inp_ix G
  /\ m_evl_inp_ix E = m_evl_inp_ix G.
Proof.
  intros HGRR Hag Hae Hwg Hwe Hmasked Hot Hsound Hplain G E.
  pose proof (honest_prefix_sim alloc_g alloc_e st_g st_e ot_keys mask masked gen_in
                evl_in seed evl_inp_cnt HGRR Hag Hae Hwg Hwe Hmasked Hot
                gates [] P' Hsound Hplain) as HS.
  cbv zeta in HS. rewrite app_nil_r in HS. fold G in HS. fold E in HS.
  sim_destruct HS.
  repeat split.
  - intros i v Hr. destruct (Hwire i v Hr) as [_ ->]. reflexivity.
  - rewrite Hcur, Hstr. reflexivity.
  - exact Hstr.
  - congruence.
  - congruence.
Qed.

End HonestLabels.
(** ** The commitments of an honest execution *)

Section HonestCommitments.

Context {config : Config} {env : Env} {collab : Collab} {ok : CollabOk}.

Variables (ot_keys evl_keys decoms : list Bytes).
Variables (mask masked gen_in evl_in : Bytes).
Variable (evl_inp_cnt : nat).
Variable (stream : Bytes).

Hypothesis HGRR : GRR = true.
Hypothesis Hmatch : Matching ot_keys evl_keys mask masked gen_in evl_in evl_inp_cnt.

Lemma evl_next_gate_m_gen_inp_com st g :
  m_gen_inp_com (evl_next_gate st g)
  = if Tag_eqb (m_tag g) GEN_INP
    then <[m_gen_inp_ix st :=
             slice (m_i_bufr st)
               (m_i_bufr_ix st
                + b2n (get_ith_bit (m_gen_inp_mask st) (m_gen_inp_ix st)) * key_size_in_bytes)
               key_size_in_bytes]> (m_gen_inp_com st)
    else m_gen_inp_com st.
Proof.
  rewrite (evl_next_gate_frame m_gen_inp_com) by reflexivity.
  unfold evl_kernel, evl_internal, evl_GEN_INP, evl_EVL_INP.
  destruct (m_tag g); reflexivity.
Qed.

Lemma gen_GEN_INP_commitments (G : GarbledCct3) :
  let d := m_gen_inp_decom (out_st (gen_GEN_INP G)) in
  m_o_bufr (out_st (gen_GEN_INP G))
  = m_o_bufr G ++ Bytes_hash (d !!! (2 * m_gen_inp_ix G + 0)) Env_k
      ++ Bytes_hash (d !!! (2 * m_gen_inp_ix G + 1)) Env_k.
Proof. unfold gen_GEN_INP. fields. now rewrite app_assoc. Qed.

Lemma committed_step (G E : GarbledCct3) (P P' : Plain) (g : Gate) :
  Sim ot_keys evl_keys decoms mask masked evl_in stream G E P ->
  plain_next_gate gen_in evl_in evl_inp_cnt P g = Some P' ->
  (exists rest, stream = m_o_bufr (gen_next_gate G g) ++ rest) ->
  (m_tag g = GEN_INP ->
   decoms !!! m_gen_inp_ix G
   = m_gen_inp_decom (gen_next_gate G g)
       !!! (2 * m_gen_inp_ix G + b2n (get_ith_bit masked (m_gen_inp_ix G)))) ->
  committed E -> committed (evl_next_gate E g).
Proof.
  intros HS Hplain [rest Hstream] Hdec [Hlen Hcom].
  destruct (plain_next_gate_inv _ _ _ _ _ _ Hplain) as (_ & v & _ & Htag).
  sim_destruct HS.
  destruct (evl_next_gate_counters E g) as (Hgi & _).
  pose proof (evl_next_gate_m_gen_inp_decom E g) as Hd. unfold committed.
  rewrite Hgi, Hd, evl_next_gate_m_gen_inp_com.
  destruct (m_tag g) eqn:Etag; cbn [Tag_eqb];
    try (split; [exact Hlen | intros i Hi; apply Hcom; lia]).
  destruct Htag as [Hlt _].
  split; [now rewrite length_insert|].
  intros i Hi.
  destruct (Nat.eq_dec i (m_gen_inp_ix E)) as [->|Hne].
  - rewrite list_lookup_total_insert_eq by (rewrite Hlen, HgiE; exact Hlt).
    rewrite Hstr, Hstream, gen_next_gate_m_o_bufr. unfold gen_kernel. rewrite Etag.
    rewrite gen_GEN_INP_commitments. cbv zeta. rewrite <- !app_assoc, Hcur.
    specialize (Hdec eq_refl).
    rewrite (gen_next_gate_frame m_gen_inp_decom) in Hdec by reflexivity.
    unfold gen_kernel in Hdec. rewrite Etag in Hdec.
    rewrite Hdc, HgiE, <- HgiG, Hdec, Hmkd.
    set (d := m_gen_inp_decom (out_st (gen_GEN_INP G))).
    rewrite (slice_pair (m_o_bufr G) _ _ rest key_size_in_bytes
               (get_ith_bit masked (m_gen_inp_ix G)) (hash_length _) (hash_length _)).
    destruct (get_ith_bit masked (m_gen_inp_ix G)); reflexivity.
  - rewrite list_lookup_total_insert_ne by congruence. apply Hcom. lia.
Qed.

Lemma committed_run (gates : list Gate) : forall (G E : GarbledCct3) (P P' : Plain),
  Sim ot_keys evl_keys decoms mask masked evl_in stream G E P ->
  plain_run gen_in evl_in evl_inp_cnt P gates = Some P' ->
  (forall g, In g gates -> (FREE_XOR && is_xor g) = true -> xor_shaped g) ->
  (exists rest, stream = m_o_bufr (gen_run G gates) ++ rest) ->
  (forall i, i < gen_inp_cnt -> i < m_gen_inp_ix (gen_run G gates) ->
     decoms !!! i
     = m_gen_inp_decom (gen_run G gates) !!! (2 * i + b2n (get_ith_bit masked i))) ->
  committed E -> committed (evl_run E gates).
Proof.
  induction gates as [|g gates IH]; intros G E P P' HS Hplain Hsound Hstream Hdec Hc.
  - exact Hc.
  - cbn [plain_run] in Hplain.
    destruct (plain_next_gate gen_in evl_in evl_inp_cnt P g) as [P1|] eqn:Hstep;
      [|discriminate].
    rewrite evl_run_cons. rewrite gen_run_cons in Hstream, Hdec.
    assert (Hpre : exists rest, stream = m_o_bufr (gen_next_gate G g) ++ rest).
    { destruct Hstream as [rest ->].
      destruct (gen_run_appends gates (gen_next_gate G g)) as [more ->].
      rewrite <- app_assoc. now eexists. }
    assert (Hd : m_tag g = GEN_INP ->
              decoms !!! m_gen_inp_ix G
              = m_gen_inp_decom (gen_next_gate G g)
                  !!! (2 * m_gen_inp_ix G + b2n (get_ith_bit masked (m_gen_inp_ix G)))).
    { intros Htag.
      destruct (plain_next_gate_inv _ _ _ _ _ _ Hstep) as (_ & v & _ & Hv).
      rewrite Htag in Hv. destruct Hv as [Hlt _].
      pose proof (sim_gen_inp_ix_G _ _ _ _ _ _ _ _ _ _ HS) as HgiG.
      pose proof (gen_run_m_gen_inp_ix gates (gen_next_gate G g)) as Hmono.
      rewrite gen_next_gate_m_gen_inp_ix, Htag in Hmono. cbn [Tag_eqb] in Hmono.
      rewrite Hdec by lia.
      apply gen_run_decom. rewrite gen_next_gate_m_gen_inp_ix, Htag. cbn [Tag_eqb].
      destruct (get_ith_bit masked (m_gen_inp_ix G)); cbn [b2n]; lia. }
    apply (IH (gen_next_gate G g) _ P1 P'); try assumption.
    + apply (sim_step ot_keys evl_keys decoms mask masked gen_in evl_in evl_inp_cnt
               stream HGRR Hmatch G E P P1 g HS Hstep); try assumption.
      apply Hsound. now left.
    + intros g' Hg'. apply Hsound. now right.
    + now apply (committed_step G E P P1 g).
Qed.

End HonestCommitments.

Section HonestPassCheck.

Context {config : Config} {env : Env} {collab : Collab} {ok : CollabOk}.

Lemma pass_check_committed (evl : GarbledCct3) :
  committed evl -> m_gen_inp_ix evl = gen_inp_cnt -> pass_check evl = true.
Proof.
  intros [_ Hcom] Hix. unfold pass_check. rewrite fold_left_andb. cbn [andb].
  apply forallb_forall. intros i Hi. apply in_seq in Hi.
  apply bool_decide_eq_true_2. symmetry. apply Hcom. lia.
Qed.

Lemma honest_committed
    (alloc_g alloc_e : list Z) (st_g st_e : GarbledCct3) (ot_keys : list Bytes)
    (mask masked gen_in evl_in seed : Bytes) (evl_inp_cnt : nat)
    (gates : list Gate) (P' : Plain) :
  GRR = true ->
  length alloc_g = m_cnt -> length alloc_e = m_cnt ->
  m_w st_g = [] \/ length (m_w st_g) = m_cnt ->
  m_w st_e = [] \/ length (m_w st_e) = m_cnt ->
  (forall i, i < gen_inp_cnt ->
     get_ith_bit masked i = xorb (get_ith_bit gen_in i) (get_ith_bit mask i)) ->
  (forall j, j < 2 * evl_inp_cnt -> length (ot_keys !!! j) <= key_size_in_bytes) ->
  (forall g, In g gates -> (FREE_XOR && is_xor g) = true -> xor_shaped g) ->
  plain_run gen_in evl_in evl_inp_cnt plain_init gates = Some P' ->
  let G := honest_gen alloc_g st_g ot_keys mask seed gates in
  committed (honest_evl G alloc_e st_e ot_keys masked evl_in evl_inp_cnt gates).
Proof.
  intros HGRR Hag Hae Hwg Hwe Hmasked Hot Hsound Hplain G.
  unfold honest_evl.
  apply (committed_run ot_keys (chosen_ot_keys ot_keys evl_in evl_inp_cnt)
           (opened_decoms G masked) mask masked gen_in evl_in evl_inp_cnt (m_o_bufr G)
           HGRR (honest_matching ot_keys mask masked gen_in evl_in evl_inp_cnt Hmasked Hot)
           gates (gen_init alloc_g st_g ot_keys mask seed) _ plain_init P').
  - unfold honest_evl_init. now apply sim_init.
  - exact Hplain.
  - exact Hsound.
  - exists []. now rewrite app_nil_r.
  - intros i Hi _. unfold opened_decoms. now rewrite lookup_total_map_seq.
  - unfold committed, honest_evl_init, recv. rewrite evl_init_shape. fields.
    split; [apply length_vec_resize | intros i Hi; lia].
Qed.

(** X13. The commitment check passes on an honest execution. In a build
    with [GRR], when the circuit feeds every generator input (the plain
    evaluation ends with [gen_inp_cnt] of them read), the commitment that
    [evl_next_gate] stored at each [GEN_INP] gate is the hash of the
    decommitment the generator opens for that input, so that [pass_check]
    returns true. *)
Theorem honest_pass_check
    (alloc_g alloc_e : list Z) (st_g st_e : GarbledCct3) (ot_keys : list Bytes)
    (mask masked gen_in evl_in seed : Bytes) (evl_inp_cnt : nat)
    (gates : list Gate) (P' : Plain) :
  GRR = true ->
  length alloc_g = m_cnt -> length alloc_e = m_cnt ->
  m_w st_g = [] \/ length (m_w st_g) = m_cnt ->
  m_w st_e = [] \/ length (m_w st_e) = m_cnt ->
  (forall i, i < gen_inp_cnt ->
     get_ith_bit masked i = xorb (get_ith_bit gen_in i) (get_ith_bit mask i)) ->
  (forall j, j < 2 * evl_inp_cnt -> length (ot_keys !!! j) <= key_size_in_bytes) ->
  (forall g, In g gates -> (FREE_XOR && is_xor g) = true -> xor_shaped g) ->
  plain_run gen_in evl_in evl_inp_cnt plain_init gates = Some P' ->
  p_gen_inp_ix P' = gen_inp_cnt ->
  let G := honest_gen alloc_g st_g ot_keys mask seed gates in
  let E := honest_evl G alloc_e st_e ot_keys masked evl_in evl_inp_cnt gates in
  pass_check E = true
  /\ forall i, i < gen_inp_cnt ->
       m_gen_inp_com E !!! i
       = Bytes_hash (m_gen_inp_decom G !!! (2 * i + b2n (get_ith_bit masked i))) Env_k.
Proof.
  intros HGRR Hag Hae Hwg Hwe Hmasked Hot Hsound Hplain Hall G E.
  pose proof (honest_prefix_sim alloc_g alloc_e st_g st_e ot_keys mask masked gen_in
                evl_in seed evl_inp_cnt HGRR Hag Hae Hwg Hwe Hmasked Hot
                gates [] P' Hsound Hplain) as HS.
  cbv zeta in HS. rewrite app_nil_r in HS. fold G in HS. fold E in HS.
  pose proof (honest_committed alloc_g alloc_e st_g st_e ot_keys mask masked gen_in
                evl_in seed evl_inp_cnt gates P' HGRR Hag Hae Hwg Hwe Hmasked Hot
                Hsound Hplain) as Hc.
  cbv zeta in Hc. fold G in Hc. fold E in Hc.
  sim_destruct HS.
  split.
  - apply pass_check_committed; [exact Hc | congruence].
  - intros i Hi. destruct Hc as [_ Hcom]. rewrite Hcom by (rewrite HgiE, Hall; exact Hi).
    rewrite Hdc. unfold opened_decoms. now rewrite lookup_total_map_seq.
Qed.

Lemma pass_check_true_iff (st : GarbledCct3) :
  pass_check st = true <->
  forall i, i < gen_inp_cnt ->
    Bytes_hash (m_gen_inp_decom st !!! i) Env_k = m_gen_inp_com st !!! i.
Proof.
  unfold pass_check. rewrite fold_left_andb. cbn [andb]. rewrite forallb_forall. split.
  - intros H i Hi.
    assert (Hin : In i (seq 0 gen_inp_cnt)) by (apply in_seq; lia).
    apply H in Hin. now apply bool_decide_eq_true_1 in Hin.
  - intros H i Hi. apply in_seq in Hi. apply bool_decide_eq_true_2. apply H. lia.
Qed.

(** X14. The commitment check binds the generator to what it committed to.
    After an honest execution as in X13, if the decommitment of one
    generator input is replaced before the check, [pass_check] returns true
    exactly when the replacement hashes to the same [k] bits as the
    decommitment the generator committed to at that input's gate. *)
Theorem pass_check_detects_replacement
    (alloc_g alloc_e : list Z) (st_g st_e : GarbledCct3) (ot_keys : list Bytes)
    (mask masked gen_in evl_in seed : Bytes) (evl_inp_cnt : nat)
    (gates : list Gate) (P' : Plain) (i : nat) (d : Bytes) :
  GRR = true ->
  length alloc_g = m_cnt -> length alloc_e = m_cnt ->
  m_w st_g = [] \/ length (m_w st_g) = m_cnt ->
  m_w st_e = [] \/ length (m_w st_e) = m_cnt ->
  (forall i, i < gen_inp_cnt ->
     get_ith_bit masked i = xorb (get_ith_bit gen_in i) (get_ith_bit mask i)) ->
  (forall j, j < 2 * evl_inp_cnt -> length (ot_keys !!! j) <= key_size_in_bytes) ->
  (forall g, In g gates -> (FREE_XOR && is_xor g) = true -> xor_shaped g) ->
  plain_run gen_in evl_in evl_inp_cnt plain_init gates = Some P' ->
  p_gen_inp_ix P' = gen_inp_cnt ->
  i < gen_inp_cnt ->
  let G := honest_gen alloc_g st_g ot_keys mask seed gates in
  let E := honest_evl G alloc_e st_e ot_keys masked evl_in evl_inp_cnt gates in
  pass_check (set_m_gen_inp_decom (<[i := d]> (m_gen_inp_decom E)) E) = true
  <-> Bytes_hash d Env_k
      = Bytes_hash (m_gen_inp_decom G !!! (2 * i + b2n (get_ith_bit masked i))) Env_k.
Proof.
  intros HGRR Hag Hae Hwg Hwe Hmasked Hot Hsound Hplain Hall Hi G E.
  pose proof (honest_prefix_sim alloc_g alloc_e st_g st_e ot_keys mask masked gen_in
                evl_in seed evl_inp_cnt HGRR Hag Hae Hwg Hwe Hmasked Hot
                gates [] P' Hsound Hplain) as HS.
  cbv zeta in HS. rewrite app_nil_r in HS. fold G in HS. fold E in HS.
  pose proof (honest_committed alloc_g alloc_e st_g st_e ot_keys mask masked gen_in
                evl_in seed evl_inp_cnt gates P' HGRR Hag Hae Hwg Hwe Hmasked Hot
                Hsound Hplain) as Hc.
  cbv zeta in Hc. fold G in Hc. fold E in Hc.
  sim_destruct HS. destruct Hc as [Hlen Hcom].
  assert (Hdl' : length (m_gen_inp_decom E) = gen_inp_cnt).
  { rewrite Hdc. unfold opened_decoms. now rewrite length_map, length_seq. }
  assert (Hci : m_gen_inp_com E !!! i
                = Bytes_hash (m_gen_inp_decom G !!! (2 * i + b2n (get_ith_bit masked i)))
                    Env_k).
  { rewrite Hcom by (rewrite HgiE, Hall; exact Hi).
    rewrite Hdc. unfold opened_decoms. now rewrite lookup_total_map_seq. }
  rewrite pass_check_true_iff. fields. split.
  - intros H. specialize (H i Hi).
    rewrite list_lookup_total_insert_eq in H by (rewrite Hdl'; exact Hi).
    now rewrite H.
  - intros H j Hj. destruct (Nat.eq_dec j i) as [->|Hne].
    + rewrite list_lookup_total_insert_eq by (rewrite Hdl'; exact Hi). now rewrite H.
    + rewrite list_lookup_total_insert_ne by congruence.
      symmetry. apply Hcom. rewrite HgiE, Hall. exact Hj.
Qed.

End HonestPassCheck.
(** ** The committing generator *)

Section Committing.

Context {config : Config} {env : Env} {collab : Collab}.

Lemma gen_entry0_garbling (C : Z) (bit : bool) (st : GarbledCct3) :
  gen_entry0 C bit (garbling_part st) = gen_entry0 C bit st.
Proof. unfold gen_entry0, garbling_part. destruct GRR; reflexivity. Qed.

Lemma garbling_part_members (st : GarbledCct3) :
  m_R (garbling_part st) = m_R st /\ m_w (garbling_part st) = m_w st
  /\ m_gate_ix (garbling_part st) = m_gate_ix st
  /\ m_clear_mask (garbling_part st) = m_clear_mask st
  /\ m_o_bufr (garbling_part st) = [].
Proof. repeat split. Qed.

Lemma garbling_part_assign (st : GarbledCct3) p o o' :
  garbling_part (set_m_o_bufr o (set_m_prng p st))
  = garbling_part (set_m_o_bufr o' (set_m_prng p (garbling_part st))).
Proof. destruct st; reflexivity. Qed.

(** [gen_next_gate] reads neither [m_o_bufr] nor the running hash: it
    garbles as it would with all three empty, and appends. *)
Lemma gen_rows_garbling (st : GarbledCct3) (g : Gate) :
  garbling_part (out_st (gen_rows g st)) = garbling_part (out_st (gen_rows g (garbling_part st)))
  /\ m_o_bufr (out_st (gen_rows g st))
     = m_o_bufr st ++ m_o_bufr (out_st (gen_rows g (garbling_part st)))
  /\ out_key (gen_rows g st) = out_key (gen_rows g (garbling_part st)).
Proof.
  destruct (garbling_part_members st) as (HR & Hw & Hg & Hm & Ho).
  unfold gen_rows. destruct (FREE_XOR && is_xor g); [|destruct (length (m_input_idx g) =? 2)].
  - fields. unfold free_xor_key. rewrite Hw, Ho, app_nil_r.
    repeat split.
  - unfold gen_arity2. cbv zeta. cbn [out_st out_key].
    rewrite !gen_entry0_garbling, HR, Hw, Hg, Hm, Ho.
    split; [apply garbling_part_assign|]. split; [|reflexivity].
    cbn [m_o_bufr set_m_o_bufr]. now rewrite <- !app_assoc.
  - unfold gen_arity1. cbv zeta. cbn [out_st out_key].
    rewrite !gen_entry0_garbling, HR, Hw, Hg, Hm, Ho.
    split; [apply garbling_part_assign|]. split; [|reflexivity].
    cbn [m_o_bufr set_m_o_bufr]. now rewrite <- !app_assoc.
Qed.

Lemma garbling_part_store (s : GarbledCct3) (o : Bytes) :
  garbling_part
    (set_m_o_bufr o s)
  = garbling_part s
  /\ m_w (garbling_part s) = m_w s /\ m_gate_ix (garbling_part s) = m_gate_ix s.
Proof. destruct s; repeat split. Qed.

Lemma garbling_part_wire (s : GarbledCct3) (w : list Z) (x : Z) :
  garbling_part (set_m_gate_ix x (set_m_w w s))
  = set_m_gate_ix x (set_m_w w (garbling_part s)).
Proof. destruct s; reflexivity. Qed.

Lemma gen_next_gate_garbling (st : GarbledCct3) (g : Gate) :
  garbling_part (gen_next_gate st g) = garbling_part (gen_next_gate (garbling_part st) g)
  /\ m_o_bufr (gen_next_gate st g)
     = m_o_bufr st ++ m_o_bufr (gen_next_gate (garbling_part st) g).
Proof.
  assert (Hint : forall r r0 : GenOut,
            garbling_part (out_st r) = garbling_part (out_st r0) ->
            m_o_bufr (out_st r) = m_o_bufr st ++ m_o_bufr (out_st r0) ->
            out_key r = out_key r0 ->
            let fin (r : GenOut) :=
              let s := set_m_o_bufr (m_o_bufr (out_st r) ++ gen_out_tag g (out_key r))
                         (out_st r) in
              s |> set_m_w (<[m_idx g := out_key r]> (m_w s))
                |> set_m_gate_ix ((m_gate_ix s + 1) mod 2 ^ 64)%Z in
            garbling_part (fin r) = garbling_part (fin r0)
            /\ m_o_bufr (fin r) = m_o_bufr st ++ m_o_bufr (fin r0)).
  { intros r r0 Hgp Ho Hk fin. unfold fin. rewrite !garbling_part_wire.
    cbn [m_w m_gate_ix m_o_bufr set_m_o_bufr set_m_w set_m_gate_ix].
    destruct (garbling_part_store (out_st r) (m_o_bufr (out_st r) ++ gen_out_tag g (out_key r)))
      as (-> & Hw & Hg).
    destruct (garbling_part_store (out_st r0)
                (m_o_bufr (out_st r0) ++ gen_out_tag g (out_key r0))) as (-> & Hw0 & Hg0).
    rewrite <- Hw, <- Hg, <- Hw0, <- Hg0, Hgp, Hk, Ho. split; [reflexivity|].
    now rewrite app_assoc. }
  destruct (gen_rows_garbling st g) as (Hgp & Ho & Hk).
  specialize (Hint _ _ Hgp Ho Hk). cbv zeta in Hint.
  unfold gen_next_gate, gen_kernel.
  destruct (m_tag g); try exact Hint.
  - unfold gen_GEN_INP, garbling_part. destruct st. fields.
    split; [reflexivity | now rewrite <- ?app_assoc].
  - unfold gen_EVL_INP, garbling_part. destruct st. fields.
    split; [reflexivity | now rewrite <- ?app_assoc].
Qed.

Lemma com_next_gate_garbling (st : GarbledCct3) (g : Gate) :
  garbling_part (com_next_gate st g) = garbling_part (gen_next_gate st g).
Proof.
  unfold com_next_gate, update_hash. generalize (gen_next_gate st g). intros s.
  cbv zeta. destruct (RAND_SEED && _); destruct s; reflexivity.
Qed.

Lemma gen_emitted_garbling (st : GarbledCct3) (g : Gate) :
  gen_emitted st g = m_o_bufr (gen_next_gate (garbling_part st) g).
Proof.
  unfold gen_emitted. destruct (gen_next_gate_garbling st g) as [_ ->].
  apply drop_app_length.
Qed.

Lemma com_run_gen_run (gates : list Gate) (h : Bytes) : forall a b : GarbledCct3,
  garbling_part a = garbling_part b -> m_o_bufr a = [] ->
  hash_stream a = h ++ m_o_bufr b ->
  garbling_part (com_run a gates) = garbling_part (gen_run b gates)
  /\ m_o_bufr (com_run a gates) = []
  /\ hash_stream (com_run a gates) = h ++ m_o_bufr (gen_run b gates).
Proof.
  induction gates as [|g gates IH]; intros a b Hgp Ho Hh.
  - repeat split; assumption.
  - change (com_run a (g :: gates)) with (com_run (com_next_gate a g) gates).
    rewrite gen_run_cons. apply IH.
    + rewrite com_next_gate_garbling.
      destruct (gen_next_gate_garbling a g) as [-> _].
      destruct (gen_next_gate_garbling b g) as [-> _]. now rewrite Hgp.
    + apply com_next_gate_stream.
    + destruct (com_next_gate_stream a g) as [-> _].
      rewrite Ho, Hh, gen_emitted_garbling, Hgp.
      destruct (gen_next_gate_garbling b g) as [_ ->].
      cbn [app]. now rewrite app_assoc.
Qed.

(** X15. The committing generator garbles what the sending generator
    garbles and hashes what it would have sent. Started with an empty
    [out_buffer], [com_next_gate] on every gate of a list leaves every
    member but the buffers of the transport and of the hash as
    [gen_next_gate] on every gate does (the wire table, [R], the PRNG, the
    decommitments and the counters), leaves [out_buffer] empty, and has
    given the running hash, in order, exactly the bytes that the run of
    [gen_next_gate] accumulates in [out_buffer]. *)
Theorem com_run_hashes_the_stream (gates : list Gate) (gen : GarbledCct3) :
  m_o_bufr gen = [] ->
  garbling_part (com_run gen gates) = garbling_part (gen_run gen gates)
  /\ (m_w (com_run gen gates) = m_w (gen_run gen gates)
      /\ m_R (com_run gen gates) = m_R (gen_run gen gates)
      /\ m_gen_inp_decom (com_run gen gates) = m_gen_inp_decom (gen_run gen gates)
      /\ m_prng (com_run gen gates) = m_prng (gen_run gen gates))
  /\ m_o_bufr (com_run gen gates) = []
  /\ hash_stream (com_run gen gates) = hash_stream gen ++ m_o_bufr (gen_run gen gates).
Proof.
  intros Ho.
  destruct (com_run_gen_run gates (hash_stream gen) gen gen eq_refl Ho) as (Hgp & Ho' & Hh).
  { now rewrite Ho, app_nil_r. }
  split; [exact Hgp|]. split; [|split; assumption].
  repeat split.
  - apply (f_equal m_w) in Hgp. exact Hgp.
  - apply (f_equal m_R) in Hgp. exact Hgp.
  - apply (f_equal m_gen_inp_decom) in Hgp. exact Hgp.
  - apply (f_equal m_prng) in Hgp. exact Hgp.
Qed.

End Committing.
(** ** Input binding, end to end *)

Section XorOfBytes.

Lemma lxor_mod_pow2 (a b n : Z) :
  (0 <= n)%Z ->
  (Z.lxor a b mod 2 ^ n = Z.lxor (a mod 2 ^ n) (b mod 2 ^ n))%Z.
Proof.
  intros Hn. rewrite <- !Z.land_ones by exact Hn.
  apply Z.bits_inj'. intros i Hi.
  rewrite Z.lxor_spec, !Z.land_spec, Z.lxor_spec.
  destruct (Z.testbit (Z.ones n) i); [now rewrite !andb_true_r | now rewrite !andb_false_r].
Qed.

Lemma fold_lxor_mod (l : list Z) (n : Z) : forall a,
  (0 <= n)%Z ->
  (fold_left Z.lxor l a mod 2 ^ n
   = fold_left Z.lxor (map (fun x => x mod 2 ^ n) l) (a mod 2 ^ n))%Z.
Proof.
  induction l as [|x l IH]; intros a Hn; [reflexivity|].
  cbn [fold_left map]. rewrite IH by exact Hn. now rewrite lxor_mod_pow2.
Qed.

Lemma fold_lxor_mod_acc (l : list Z) (n : Z) (a : Z) :
  (0 <= n)%Z ->
  (fold_left Z.lxor l (a mod 2 ^ n) mod 2 ^ n = fold_left Z.lxor l a mod 2 ^ n)%Z.
Proof.
  intros Hn. rewrite !fold_lxor_mod by exact Hn. f_equal.
  apply Z.mod_mod. apply Z.pow_nonzero; lia.
Qed.

Lemma fold_xor_assign (l : list Bytes) : forall acc,
  length (fold_left xor_assign l acc) = length acc
  /\ le_combine (fold_left xor_assign l acc)
     = (fold_left Z.lxor (map le_combine l) (le_combine acc)
        mod 2 ^ (8 * Z.of_nat (length acc)))%Z.
Proof.
  induction l as [|x l IH]; intros acc.
  - split; [reflexivity|]. cbn [fold_left map]. symmetry. apply Z.mod_small.
    pose proof (le_combine_bound acc). lia.
  - cbn [fold_left map].
    assert (Hlen : length (xor_assign acc x) = length acc) by apply length_le_split.
    destruct (IH (xor_assign acc x)) as [Hl Hv]. rewrite Hl, Hv, Hlen.
    split; [reflexivity|].
    unfold xor_assign at 1. rewrite le_combine_split.
    replace (Z.of_nat (length acc) * 8)%Z with (8 * Z.of_nat (length acc))%Z by lia.
    apply fold_lxor_mod_acc. lia.
Qed.

(** The first [n] bytes of the XOR of byte strings, as a number. *)
Lemma le_combine_take_xor_all (n m : nat) (l : list Bytes) :
  n <= m ->
  le_combine (take n (xor_all m l))
  = fold_left Z.lxor (map (fun d => le_combine (take n d)) l) 0%Z.
Proof.
  intros Hnm. unfold xor_all.
  change (take n ?x) with (firstn n x).
  rewrite le_combine_firstn.
  destruct (fold_xor_assign l (zeros m)) as [_ ->].
  rewrite length_zeros, le_combine_zeros.
  rewrite mod_mod_pow2 by lia.
  rewrite fold_lxor_mod by lia. rewrite Z.mod_0_l by (apply Z.pow_nonzero; lia).
  rewrite map_map. f_equal. apply map_ext. intros d.
  now rewrite le_combine_firstn.
Qed.

Lemma get_ith_bit_0_take (n : nat) (b : Bytes) :
  0 < n -> get_ith_bit b 0 = perm_bit (le_combine (take n b)).
Proof.
  intros Hn. rewrite perm_bit_testbit. unfold get_ith_bit.
  change (take n b) with (firstn n b). rewrite le_combine_firstn.
  rewrite <- Z.land_ones by lia. rewrite Z.land_spec, Z.ones_spec_low by lia.
  now rewrite andb_true_r.
Qed.

Lemma fold_lab (R : Z) (z : nat -> Z) (v : nat -> bool) (l : list nat) : forall a p,
  fold_left Z.lxor (map (fun j => lab R (z j) (v j)) l) (lab R a p)
  = lab R (fold_left Z.lxor (map z l) a) (fold_left xorb (map v l) p).
Proof.
  induction l as [|j l IH]; intros a p; [reflexivity|].
  cbn [map fold_left].
  change (Z.lxor (lab R a p) (lab R (z j) (v j)))
    with (xor_si128 (lab R a p) (lab R (z j) (v j))).
  rewrite lab_xor. apply IH.
Qed.

Lemma fold_lxor_bound (n : Z) (l : list Z) : forall a,
  (0 <= n)%Z -> (0 <= a < 2 ^ n)%Z -> Forall (fun x => 0 <= x < 2 ^ n)%Z l ->
  (0 <= fold_left Z.lxor l a < 2 ^ n)%Z.
Proof.
  induction l as [|x l IH]; intros a Hn Ha Hl; [exact Ha|].
  cbn [fold_left]. apply Forall_cons in Hl. destruct Hl as [Hx Hl].
  apply IH; [exact Hn | now apply lxor_bound | exact Hl].
Qed.

End XorOfBytes.
Section DecommitmentLayout.

Context {config : Config} {env : Env} {collab : Collab} {ok : CollabOk}.

Lemma le_combine_key_bytes (x : Z) :
  (0 <= x < 2 ^ Z.of_nat Env_k)%Z -> le_combine (key_bytes x) = x.
Proof.
  intros Hx. rewrite <- (loadu_key_bytes x k_le_128 (bound_k_8K x Hx)) at 2.
  symmetry. apply loadu_resize.
  rewrite length_key_bytes by apply k_le_128. apply key_size_le_16, k_le_128.
Qed.

Lemma decoms_open_step (G : GarbledCct3) (g : Gate) :
  decoms_open G ->
  length (m_gen_inp_decom G) = 2 * gen_inp_cnt ->
  (0 <= m_R G < 2 ^ Z.of_nat Env_k)%Z ->
  (m_tag g = GEN_INP -> m_gen_inp_ix G < gen_inp_cnt) ->
  decoms_open (gen_next_gate G g).
Proof.
  intros Hopen Hlen HR Hroom j Hj.
  destruct (gen_next_gate_offset G g) as (HR' & Hmask' & _). rewrite HR', Hmask'.
  rewrite gen_next_gate_m_gen_inp_ix in Hj.
  destruct (Nat.lt_ge_cases j (m_gen_inp_ix G)) as [Hold|Hnew].
  - destruct (Hopen j Hold) as (z & Hz & Hb). exists z. split; [exact Hz|].
    intros b. rewrite gen_next_gate_decom by (destruct b; cbn [b2n]; lia). apply Hb.
  - destruct (m_tag g) eqn:Etag; cbn [Tag_eqb] in Hj; try lia.
    assert (j = m_gen_inp_ix G) as -> by lia. specialize (Hroom eq_refl).
    rewrite (gen_next_gate_frame m_gen_inp_decom) by reflexivity.
    unfold gen_kernel. rewrite Etag. unfold gen_GEN_INP. fields.
    destruct (rand_value (m_prng G)) as [Hload Hbound]. rewrite Hload.
    set (z0 := le_combine (Prng_rand (m_prng G) Env_k).1) in *.
    set (ix := m_gen_inp_ix G) in *.
    set (bit := get_ith_bit (m_gen_inp_mask G) ix).
    exists z0. split; [exact Hbound|].
    assert (Hlab : forall b, (0 <= arr2 z0 (xor_si128 z0 (m_R G)) b < 2 ^ Z.of_nat Env_k)%Z).
    { intros b. rewrite arr2_lab. now apply lab_bound. }
    assert (Hsel : forall (d0 d1 : Bytes) (b : bool),
      <[2 * ix + 1 := d1]> (<[2 * ix + 0 := d0]> (m_gen_inp_decom G)) !!! (2 * ix + b2n b)
      = if b then d1 else d0).
    { intros d0 d1 b. destruct b; cbn [b2n].
      - rewrite list_lookup_total_insert_eq by (rewrite length_insert; lia). reflexivity.
      - rewrite list_lookup_total_insert_ne by lia.
        rewrite list_lookup_total_insert_eq by lia. reflexivity. }
    intros b. rewrite Hsel.
    pose proof (key_size_le_16 k_le_128) as H16.
    destruct b; (split;
      [rewrite length_app, length_take_storeu, rand_length by exact H16; lia
      |rewrite take_key_bytes_app, le_combine_key_bytes by apply Hlab;
       rewrite arr2_lab; f_equal; destruct bit; reflexivity]).
Qed.

Lemma decoms_open_run (gen_in evl_in : Bytes) (evl_inp_cnt : nat) (gates : list Gate) :
  forall (G : GarbledCct3) (P P' : Plain),
  decoms_open G ->
  length (m_gen_inp_decom G) = 2 * gen_inp_cnt ->
  (0 <= m_R G < 2 ^ Z.of_nat Env_k)%Z ->
  m_gen_inp_ix G = p_gen_inp_ix P ->
  plain_run gen_in evl_in evl_inp_cnt P gates = Some P' ->
  decoms_open (gen_run G gates).
Proof.
  induction gates as [|g gates IH]; intros G P P' Hopen Hlen HR Hix Hplain; [exact Hopen|].
  cbn [plain_run] in Hplain.
  destruct (plain_next_gate gen_in evl_in evl_inp_cnt P g) as [P1|] eqn:Hstep;
    [|discriminate].
  destruct (plain_next_gate_inv _ _ _ _ _ _ Hstep) as (_ & v & -> & Htag).
  destruct (gen_next_gate_offset G g) as (HR' & _ & Hlen').
  rewrite gen_run_cons. apply (IH _ (plain_write g v P) P').
  - apply decoms_open_step; try assumption.
    intros Etag. rewrite Etag in Htag. rewrite Hix. apply Htag.
  - now rewrite Hlen'.
  - now rewrite HR'.
  - rewrite gen_next_gate_m_gen_inp_ix, Hix. reflexivity.
  - exact Hplain.
Qed.

End DecommitmentLayout.
Section BindingBit.

Context {config : Config} {env : Env} {collab : Collab} {ok : CollabOk}.

Lemma row_wires_lt (row : Bytes) (j : nat) : In j (row_wires row) -> j < gen_inp_cnt.
Proof.
  unfold row_wires. intros Hj. apply filter_In in Hj. destruct Hj as [Hj _].
  apply in_seq in Hj. lia.
Qed.

Lemma row_wires_room (row : Bytes) :
  row_wires row <> [] -> 0 < gen_inp_cnt.
Proof.
  destruct (row_wires row) as [|j l] eqn:E; [congruence|]. intros _.
  assert (Hj : In j (row_wires row)) by (rewrite E; now left).
  apply row_wires_lt in Hj. lia.
Qed.

(** The first [K] bytes of the XOR of the decommitments picked by [pick]
    over the wires of [row]. *)
Lemma xor_of_decoms (decom : list Bytes) (pick : nat -> nat) (row : Bytes) :
  (0 < gen_inp_cnt -> key_size_in_bytes <= length (decom !!! 0)) ->
  le_combine
    (take key_size_in_bytes
       (xor_all (length (decom !!! 0)) (map (fun j => decom !!! pick j) (row_wires row))))
  = fold_left Z.lxor
      (map (fun j => le_combine (take key_size_in_bytes (decom !!! pick j))) (row_wires row))
      0%Z.
Proof.
  intros Hroom.
  destruct (row_wires row) as [|j l] eqn:E.
  - cbn [map fold_left]. unfold xor_all. cbn [fold_left].
    change (take ?n ?x) with (firstn n x). rewrite le_combine_firstn, le_combine_zeros.
    apply Z.mod_0_l. apply Z.pow_nonzero; lia.
  - rewrite <- E. rewrite le_combine_take_xor_all.
    + now rewrite map_map.
    + apply Hroom, (row_wires_room row). rewrite E. discriminate.
Qed.

(** The zero label that the decommitments of input [j] carry. *)
Lemma decoms_open_values (G : GarbledCct3) (masked gen_in row : Bytes) :
  decoms_open G -> m_gen_inp_ix G = gen_inp_cnt ->
  (forall i, i < gen_inp_cnt ->
     get_ith_bit masked i
     = xorb (get_ith_bit gen_in i) (get_ith_bit (m_gen_inp_mask G) i)) ->
  let D := m_gen_inp_decom G in
  let zero j :=
    le_combine (take key_size_in_bytes
                  (D !!! (2 * j + b2n (get_ith_bit (m_gen_inp_mask G) j)))) in
  (0 < gen_inp_cnt -> length (D !!! 0) = 2 * key_size_in_bytes)
  /\ Forall (fun x => 0 <= x < 2 ^ Z.of_nat Env_k)%Z (map zero (row_wires row))
  /\ forall j, j < gen_inp_cnt ->
       le_combine (take key_size_in_bytes (D !!! (2 * j + b2n (get_ith_bit masked j))))
       = lab (m_R G) (zero j) (get_ith_bit gen_in j).
Proof.
  intros Hopen Hall Hmasked D zero.
  assert (Hz : forall j, j < gen_inp_cnt ->
            (0 <= zero j < 2 ^ Z.of_nat Env_k)%Z
            /\ forall b, le_combine (take key_size_in_bytes (D !!! (2 * j + b2n b)))
                         = lab (m_R G) (zero j)
                             (xorb b (get_ith_bit (m_gen_inp_mask G) j))).
  { intros j Hj. destruct (Hopen j) as (z & Hzb & Hb); [lia|].
    assert (Hzero : zero j = z).
    { unfold zero, D. destruct (Hb (get_ith_bit (m_gen_inp_mask G) j)) as [_ ->].
      rewrite xorb_nilpotent. apply lab_false. }
    rewrite Hzero. split; [exact Hzb | intros b; apply Hb]. }
  split; [|split].
  - intros Hpos. destruct (Hopen 0) as (z & _ & Hb); [lia|].
    destruct (Hb false) as [Hlen _]. exact Hlen.
  - apply Lists.List.Forall_forall. intros x Hx. apply in_map_iff in Hx.
    destruct Hx as (j & <- & Hj). apply Hz. now apply (row_wires_lt row).
  - intros j Hj.
    destruct (Hz j Hj) as [_ ->]. f_equal. rewrite Hmasked by exact Hj.
    now rewrite xorb_assoc, xorb_nilpotent, xorb_false_r.
Qed.

(** What [gen_next_gen_inp_com] appends, and what [evl_next_gen_inp_com]
    makes of it. *)
Lemma binding_bit (G E : GarbledCct3) (masked gen_in row rest : Bytes) (kx : nat) :
  decoms_open G -> m_gen_inp_ix G = gen_inp_cnt ->
  perm_bit (m_R G) = true -> (0 <= m_R G < 2 ^ Z.of_nat Env_k)%Z ->
  m_clear_mask G = Z.ones (Z.of_nat Env_k) ->
  m_clear_mask E = Z.ones (Z.of_nat Env_k) ->
  (forall i, i < gen_inp_cnt ->
     get_ith_bit masked i
     = xorb (get_ith_bit gen_in i) (get_ith_bit (m_gen_inp_mask G) i)) ->
  m_gen_inp_decom E = opened_decoms G masked ->
  m_i_bufr E
  = drop (length (m_o_bufr G)) (m_o_bufr (gen_next_gen_inp_com G row kx)) ++ rest ->
  m_i_bufr_ix E = 0 ->
  kx < 8 * length (m_gen_inp_hash E) ->
  get_ith_bit (m_gen_inp_hash (evl_next_gen_inp_com E row kx)) kx = row_parity row gen_in.
Proof.
  intros Hopen Hall HRp HR HmG HmE Hmasked HdE Hbuf Hcur Hkx.
  destruct (decoms_open_values G masked gen_in row Hopen Hall Hmasked) as (Hn & Hzb & Hval).
  cbv zeta in Hn, Hzb, Hval.
  pose proof (key_size_pos k_pos) as HK.
  set (zero := fun j =>
    le_combine (take key_size_in_bytes
      (m_gen_inp_decom G !!! (2 * j + b2n (get_ith_bit (m_gen_inp_mask G) j))))) in *.
  set (X := fold_left Z.lxor (map zero (row_wires row)) 0%Z).
  assert (HX : (0 <= X < 2 ^ Z.of_nat Env_k)%Z).
  { apply fold_lxor_bound; [lia | | exact Hzb]. split; [lia|]. apply Z.pow_pos_nonneg; lia. }
  (* the generator's [msg] *)
  assert (Hmsg : le_combine (take key_size_in_bytes
                   (gen_inp_com_msg (m_gen_inp_mask G) (m_gen_inp_decom G) row)) = X).
  { rewrite gen_inp_com_msg_spec.
    rewrite (xor_of_decoms (m_gen_inp_decom G)
               (fun j => 2 * j + b2n (get_ith_bit (m_gen_inp_mask G) j)) row)
      by (intros Hpos; rewrite Hn by exact Hpos; lia).
    reflexivity. }
  (* the evaluator's [out] *)
  assert (HdE0 : 0 < gen_inp_cnt ->
            length (m_gen_inp_decom E !!! 0) = 2 * key_size_in_bytes).
  { intros Hpos. rewrite HdE. unfold opened_decoms.
    rewrite lookup_total_map_seq by exact Hpos.
    destruct (Hopen 0) as (z & _ & Hb); [lia|]. apply Hb. }
  assert (Hout : le_combine (take key_size_in_bytes
                   (evl_inp_com_out (m_gen_inp_decom E) row))
                 = lab (m_R G) X (row_parity row gen_in)).
  { rewrite evl_inp_com_out_spec.
    rewrite (xor_of_decoms (m_gen_inp_decom E) (fun j => j) row)
      by (intros Hpos; rewrite HdE0 by exact Hpos; lia).
    rewrite (map_ext_in _ (fun j => lab (m_R G) (zero j) (get_ith_bit gen_in j))).
    - change 0%Z with (lab (m_R G) 0 false) at 1.
      rewrite (fold_lab (m_R G) zero (get_ith_bit gen_in)). reflexivity.
    - intros j Hj. pose proof (row_wires_lt row j Hj) as Hlt.
      rewrite HdE. unfold opened_decoms. rewrite lookup_total_map_seq by exact Hlt.
      apply Hval, Hlt. }
  (* the two ciphertexts of the generator *)
  set (pt := set1_epi64x (Z.of_nat kx)).
  set (out0 := Z.clearbit (le_combine (Prng_rand (m_prng G) Env_k).1) 0).
  assert (Hout0 : loadu (resize 16 (set_ith_bit (Prng_rand (m_prng G) Env_k).1 0 false))
                  = out0).
  { pose proof (rand_length (m_prng G)) as Hlen.
    pose proof (key_size_le_16 k_le_128).
    rewrite loadu_resize by (rewrite length_set_ith_bit; lia).
    apply le_combine_set_ith_bit. lia. }
  assert (Hb0 : (0 <= out0 < 2 ^ Z.of_nat Env_k)%Z).
  { apply (setbit_bound _ _ _ false).
    - pose proof k_pos. lia.
    - split; [apply le_combine_bound | apply rand_bound]. }
  set (okey := fun c : bool =>
    xor_si128 (lab (m_R G) out0 c)
      (and_si128 (KDF128 pt (lab (m_R G) X c)) (Z.ones (Z.of_nat Env_k)))).
  assert (Hok : forall c, (0 <= okey c < 2 ^ (8 * Z.of_nat key_size_in_bytes))%Z).
  { intros c. apply bound_k_8K. apply lxor_bound; [lia | now apply lab_bound |].
    apply and_ones_bound. }
  assert (Hemit : drop (length (m_o_bufr G)) (m_o_bufr (gen_next_gen_inp_com G row kx))
                  = key_bytes (okey (perm_bit X)) ++ key_bytes (okey (negb (perm_bit X)))).
  { unfold gen_next_gen_inp_com. fields.
    rewrite <- app_assoc, drop_app_length.
    rewrite (get_ith_bit_0_take key_size_in_bytes) by exact HK.
    rewrite loadu_take_key by apply k_le_128.
    rewrite Hmsg, Hout0, HmG. fold pt.
    unfold okey. destruct (perm_bit X); cbn [arr2 negb];
      rewrite ?lab_false; reflexivity. }
  (* the evaluator *)
  unfold evl_next_gen_inp_com. fields.
  rewrite get_set_ith_bit, Nat.eqb_refl by exact Hkx.
  rewrite (get_ith_bit_0_take key_size_in_bytes) by exact HK.
  rewrite loadu_take_key by apply k_le_128.
  rewrite Hout, HmE, Hbuf, Hemit, Hcur. fold pt.
  rewrite (perm_bit_lab _ _ _ HRp).
  set (par := row_parity row gen_in).
  assert (Hread : load_key_at
            ((key_bytes (okey (perm_bit X)) ++ key_bytes (okey (negb (perm_bit X)))) ++ rest)
            (0 + b2n (xorb (perm_bit X) par) * key_size_in_bytes) = okey par).
  { rewrite <- app_assoc. unfold load_key_at.
    pose proof (slice_pair [] (key_bytes (okey (perm_bit X)))
                  (key_bytes (okey (negb (perm_bit X)))) rest key_size_in_bytes
                  (xorb (perm_bit X) par)
                  (length_key_bytes _ k_le_128) (length_key_bytes _ k_le_128)) as Hs.
    cbn [app length] in Hs. rewrite Hs.
    destruct (perm_bit X), par; cbn [xorb negb];
      apply loadu_key_bytes; (apply k_le_128 || apply Hok). }
  rewrite Hread. unfold okey. rewrite xor_si128_cancel.
  rewrite (perm_bit_lab _ _ _ HRp). unfold out0. rewrite perm_bit_clearbit0. reflexivity.
Qed.

Lemma evl_run_m_gen_inp_hash (gates : list Gate) : forall evl,
  m_gen_inp_hash (evl_run evl gates) = m_gen_inp_hash evl.
Proof.
  induction gates as [|g gates IH]; intros evl; [reflexivity|].
  rewrite evl_run_cons, IH.
  rewrite (evl_next_gate_frame m_gen_inp_hash) by reflexivity.
  destruct (evl_kernel_shape evl g) as (c & it & gi & ei & eo & go & eox & gox & ->).
  reflexivity.
Qed.

(** X16. Input binding is linear in the generator's input. After an honest
    execution that has garbled every generator input, let the generator
    call [gen_next_gen_inp_com] on a row and the evaluator, handed the
    [2K] bytes this appends, call [evl_next_gen_inp_com] on the same row:
    the bit the evaluator writes at position [kx] of [gen_inp_hash] is the
    parity of the generator's input bits over the wires of the row,
    whatever the mask, the salts and the labels are. *)
Theorem input_binding_linearity
    (alloc_g alloc_e : list Z) (st_g st_e : GarbledCct3) (ot_keys : list Bytes)
    (mask masked gen_in evl_in seed : Bytes) (evl_inp_cnt : nat)
    (gates : list Gate) (P' : Plain) (row : Bytes) (kx : nat) :
  GRR = true ->
  length alloc_g = m_cnt -> length alloc_e = m_cnt ->
  m_w st_g = [] \/ length (m_w st_g) = m_cnt ->
  m_w st_e = [] \/ length (m_w st_e) = m_cnt ->
  (forall i, i < gen_inp_cnt ->
     get_ith_bit masked i = xorb (get_ith_bit gen_in i) (get_ith_bit mask i)) ->
  (forall j, j < 2 * evl_inp_cnt -> length (ot_keys !!! j) <= key_size_in_bytes) ->
  (forall g, In g gates -> (FREE_XOR && is_xor g) = true -> xor_shaped g) ->
  plain_run gen_in evl_in evl_inp_cnt plain_init gates = Some P' ->
  p_gen_inp_ix P' = gen_inp_cnt ->
  kx < 8 * key_size_in_bytes ->
  let G := honest_gen alloc_g st_g ot_keys mask seed gates in
  let E := honest_evl G alloc_e st_e ot_keys masked evl_in evl_inp_cnt gates in
  let sent := drop (length (m_o_bufr G)) (m_o_bufr (gen_next_gen_inp_com G row kx)) in
  length sent = 2 * key_size_in_bytes
  /\ get_ith_bit (m_gen_inp_hash (evl_next_gen_inp_com (recv E sent) row kx)) kx
     = row_parity row gen_in.
Proof.
  intros HGRR Hag Hae Hwg Hwe Hmasked Hot Hsound Hplain Hall Hkx G E sent.
  pose proof (honest_prefix_sim alloc_g alloc_e st_g st_e ot_keys mask masked gen_in
                evl_in seed evl_inp_cnt HGRR Hag Hae Hwg Hwe Hmasked Hot
                gates [] P' Hsound Hplain) as HS.
  cbv zeta in HS. rewrite app_nil_r in HS. fold G in HS. fold E in HS.
  sim_destruct HS.
  assert (Hopen : decoms_open G).
  { unfold G, honest_gen.
    apply (decoms_open_run gen_in evl_in evl_inp_cnt gates _ plain_init P').
    - intros j Hj. rewrite gen_init_shape in Hj. cbn in Hj. lia.
    - rewrite gen_init_shape. cbn [m_gen_inp_decom]. rewrite length_vec_resize. lia.
    - apply gen_init_R.
    - rewrite gen_init_shape. reflexivity.
    - exact Hplain. }
  split.
  - unfold sent, gen_next_gen_inp_com. fields.
    rewrite <- app_assoc, drop_app_length, length_app.
    rewrite !length_key_bytes by apply k_le_128. lia.
  - apply (binding_bit G (recv E sent) masked gen_in row []); try assumption.
    + congruence.
    + intros i Hi. rewrite Hmk. now apply Hmasked.
    + unfold recv. fields. now rewrite app_nil_r.
    + reflexivity.
    + unfold recv. fields. unfold E, honest_evl.
      rewrite evl_run_m_gen_inp_hash. unfold honest_evl_init, recv.
      rewrite evl_init_shape. fields. now rewrite length_resize.
Qed.

End BindingBit.
Section GateRoundTrip.

Context {config : Config} {env : Env} {collab : Collab} {ok : CollabOk}.

(** X17. One garbled gate decrypts to the right label. Let [g] be a gate
    that is not an input gate, in a build with GRR, and let the two parties
    agree on the gate counter and hold the [k]-bit mask. If on every wire
    with a plain value the evaluator holds the generator's zero label for
    0 and that label xor [R] for 1, and the evaluator's buffer holds at its
    cursor the bytes that [gen_next_gate] appends, then after
    [evl_next_gate] the evaluator holds on the gate's wire the generator's
    new label for the gate's plain value, its cursor is at the end of the
    generator's bytes, and the bit it writes for an output gate is the
    plain value. *)
Theorem gate_decrypts (G E : GarbledCct3) (P : Plain) (g : Gate) (v : bool)
    (rest : Bytes) :
  GRR = true ->
  is_input g = false ->
  (FREE_XOR && is_xor g = true -> xor_shaped g) ->
  perm_bit (m_R G) = true ->
  (0 <= m_R G < 2 ^ Z.of_nat Env_k)%Z ->
  m_clear_mask G = Z.ones (Z.of_nat Env_k) ->
  m_clear_mask E = Z.ones (Z.of_nat Env_k) ->
  m_gate_ix G = m_gate_ix E ->
  m_idx g < length (m_w G) ->
  m_idx g < length (m_w E) ->
  (forall i b, plain_read P i = Some b ->
     (0 <= m_w G !!! i < 2 ^ Z.of_nat Env_k)%Z
     /\ m_w E !!! i = lab (m_R G) (m_w G !!! i) b) ->
  plain_gate_value P g = Some v ->
  m_i_bufr E = m_o_bufr (gen_next_gate G g) ++ rest ->
  m_i_bufr_ix E = length (m_o_bufr G) ->
  let G' := gen_next_gate G g in
  let E' := evl_next_gate E g in
  (0 <= m_w G' !!! m_idx g < 2 ^ Z.of_nat Env_k)%Z
  /\ m_w E' !!! m_idx g = lab (m_R G) (m_w G' !!! m_idx g) v
  /\ m_i_bufr_ix E' = length (m_o_bufr G')
  /\ (m_tag g = EVL_OUT -> m_evl_out_ix E < 8 * length (m_evl_out E) ->
      get_ith_bit (m_evl_out E') (m_evl_out_ix E) = v)
  /\ (m_tag g = GEN_OUT -> m_gen_out_ix E < 8 * length (m_gen_out E) ->
      get_ith_bit (m_gen_out E') (m_gen_out_ix E) = v).
Proof.
  intros HGRR Hin Hsound HRp HR HmG HmE Hgix HiG HiE Hwire Hv Hbuf Hcur G' E'.
  subst G' E'.
  rewrite gen_next_gate_m_o_bufr in *.
  rewrite gen_next_gate_m_w, evl_next_gate_m_w, evl_next_gate_m_i_bufr_ix.
  rewrite !list_lookup_total_insert_eq by assumption.
  rewrite (evl_next_gate_frame m_evl_out), (evl_next_gate_frame m_gen_out) by reflexivity.
  rewrite (lockstep_cursor G E g HGRR k_le_128 hash_length Hcur).
  rewrite gen_kernel_internal, evl_kernel_internal in * by assumption.
  destruct (sim_internal G E P g v rest) as [Hb Hk]; try assumption.
  split; [exact Hb|]. split; [exact Hk|]. split; [reflexivity|].
  assert (Hbit : out_tag_len g = 1 ->
            out_bit (evl_rows g E).1 (m_i_bufr E !!! (evl_rows g E).2) = v).
  { intros Ht. now apply (sim_out_bit HGRR G E g v rest). }
  split; intros Ht Hlen.
  - unfold evl_internal. rewrite Ht. fields.
    rewrite get_set_ith_bit by assumption. rewrite Nat.eqb_refl.
    apply Hbit. unfold out_tag_len. now rewrite Ht.
  - unfold evl_internal. rewrite Ht. fields.
    rewrite get_set_ith_bit by assumption. rewrite Nat.eqb_refl.
    apply Hbit. unfold out_tag_len. now rewrite Ht.
Qed.

End GateRoundTrip.
Section Randomness.

Context {config : Config} {env : Env} {collab : Collab}.

Lemma prng_after_add (n m : nat) (p : Prng) :
  prng_after (n + m) p = prng_after m (prng_after n p).
Proof.
  unfold prng_after. rewrite Nat.add_comm. apply Nat.iter_add.
Qed.

Lemma gen_next_gate_m_prng st g :
  m_prng (gen_next_gate st g) = prng_after (prng_draws g) (m_prng st).
Proof.
  rewrite (gen_next_gate_frame m_prng) by reflexivity.
  unfold gen_kernel, prng_draws, gen_internal, gen_rows.
  destruct (m_tag g); try reflexivity;
    (destruct (FREE_XOR && is_xor g);
     [rewrite orb_true_r; reflexivity|rewrite orb_false_r];
     destruct (length (m_input_idx g) =? 2);
     unfold gen_arity2, gen_arity1, gen_entry0; destruct GRR; reflexivity).
Qed.

(** X18. The randomness a circuit takes. [gen_next_gate] calls the PRNG
    three times for a generator input (the zero label and the pads of the
    two decommitments), once for an evaluator input, and for any other gate
    not at all with [GRR] or when the gate is free, once otherwise; so after
    a run the PRNG stands where the sum of these calls puts it, while
    [evl_next_gate] never calls it, and each [gen_next_gen_inp_com] calls
    it once. *)
Theorem run_randomness (gates : list Gate) (gen evl : GarbledCct3) (row : Bytes)
    (kx : nat) :
  m_prng (gen_run gen gates)
  = prng_after (list_sum (map prng_draws gates)) (m_prng gen)
  /\ m_prng (evl_run evl gates) = m_prng evl
  /\ m_prng (gen_next_gen_inp_com gen row kx) = prng_after 1 (m_prng gen).
Proof.
  assert (Hg : forall gen, m_prng (gen_run gen gates)
            = prng_after (list_sum (map prng_draws gates)) (m_prng gen)).
  { induction gates as [|g gates IH]; intros st; [reflexivity|].
    change (gen_run st (g :: gates)) with (gen_run (gen_next_gate st g) gates).
    change (list_sum (map prng_draws (g :: gates)))
      with (prng_draws g + list_sum (map prng_draws gates)).
    rewrite IH, gen_next_gate_m_prng. symmetry. apply prng_after_add. }
  split; [apply Hg|]. split.
  - clear Hg. revert evl.
    induction gates as [|g gates IH]; intros st; [reflexivity|].
    change (evl_run st (g :: gates)) with (evl_run (evl_next_gate st g) gates).
    rewrite IH, (evl_next_gate_frame m_prng) by reflexivity.
    destruct (evl_kernel_shape st g) as (c & it & gi & ei & eo & go & eox & gox & ->).
    reflexivity.
  - reflexivity.
Qed.

End Randomness.

(** ** The statements on the small instance *)

#[local] Existing Instance Toy.grr_free_xor.
#[local] Existing Instance Toy.env.
#[local] Existing Instance Toy.collab.

Lemma toy_hash_length (b : Bytes) :
  length (Bytes_hash b Env_k) = key_size_in_bytes.
Proof. apply length_le_split. Qed.

Lemma row_count_witness :
  (GRR = true /\ FREE_XOR = true
   /\ Env_k <= 128
   /\ (is_input Toy.g_and = false ->
       length (m_input_idx Toy.g_and) = 1 \/ length (m_input_idx Toy.g_and) = 2))
  /\ (exists emitted,
        m_o_bufr (gen_next_gate ToyRun.gen2 Toy.g_and)
        = m_o_bufr ToyRun.gen2 ++ emitted
        /\ length emitted = 7)
  /\ m_i_bufr_ix (evl_next_gate ToyRun.evl2 Toy.g_and)
     = m_i_bufr_ix ToyRun.evl2 + 7.
Proof.
  assert (H1 : GRR = true) by reflexivity.
  assert (H2 : FREE_XOR = true) by reflexivity.
  assert (H3 : Env_k <= 128) by (vm_compute; lia).
  assert (H4 : is_input Toy.g_and = false ->
               length (m_input_idx Toy.g_and) = 1 \/ length (m_input_idx Toy.g_and) = 2)
    by (intros _; right; reflexivity).
  split; [repeat split; assumption|].
  exact (row_count ToyRun.gen2 ToyRun.evl2 Toy.g_and
           H1 H2 H3 toy_hash_length H4).
Defined.

Lemma free_xor_gate_witness :
  (FREE_XOR = true /\ is_xor Toy.g_xor = true
   /\ is_input Toy.g_xor = false)
  /\ m_w (gen_next_gate ToyRun.gen3 Toy.g_xor)
     = <[3 := Z.lxor (m_w ToyRun.gen3 !!! 2) (m_w ToyRun.gen3 !!! 0)]> (m_w ToyRun.gen3)
  /\ m_i_bufr_ix (evl_next_gate ToyRun.evl3 Toy.g_xor)
     = m_i_bufr_ix ToyRun.evl3 + 1.
Proof.
  assert (H1 : FREE_XOR = true) by reflexivity.
  assert (H2 : is_xor Toy.g_xor = true) by reflexivity.
  assert (H3 : is_input Toy.g_xor = false) by reflexivity.
  split; [repeat split; assumption|].
  destruct (free_xor_gate ToyRun.gen3 ToyRun.evl3
              Toy.g_xor H1 H2 H3) as ((_ & _ & Hg) & (He & _ & _)).
  split; [exact Hg | exact He].
Defined.

Lemma row_order_witness :
  (is_input Toy.g_and = false
   /\ FREE_XOR && is_xor Toy.g_and = false
   /\ length (m_input_idx Toy.g_and) = 2
   /\ GRR = true /\ Env_k <= 128
   /\ m_i_bufr ToyRun.evl2 = m_o_bufr (gen_next_gate ToyRun.gen2 Toy.g_and) ++ [Byte.x01]
   /\ m_i_bufr_ix ToyRun.evl2 = length (m_o_bufr ToyRun.gen2))
  /\ m_o_bufr (gen_next_gate ToyRun.gen2 Toy.g_and)
     = m_o_bufr ToyRun.gen2
       ++ [Byte.xb4; Byte.x0d; Byte.x6f; Byte.x03; Byte.xe6; Byte.x0b; Byte.x01]
  /\ garbled_ix_of ToyRun.evl2 Toy.g_and = 1
  /\ garbled_row ToyRun.gen2 Toy.g_and (out_Z (gen_kernel ToyRun.gen2 Toy.g_and)) 1
     = 3508%Z
  /\ (evl_kernel ToyRun.evl2 Toy.g_and).1 = Z.lxor 2282 3508.
Proof.
  assert (H1 : is_input Toy.g_and = false) by reflexivity.
  assert (H2 : FREE_XOR && is_xor Toy.g_and = false) by reflexivity.
  assert (H3 : length (m_input_idx Toy.g_and) = 2) by reflexivity.
  assert (H4 : GRR = true) by reflexivity.
  assert (H5 : Env_k <= 128) by (vm_compute; lia).
  assert (H6 : m_i_bufr ToyRun.evl2
               = m_o_bufr (gen_next_gate ToyRun.gen2 Toy.g_and) ++ [Byte.x01])
    by (vm_compute; reflexivity).
  assert (H7 : m_i_bufr_ix ToyRun.evl2 = length (m_o_bufr ToyRun.gen2))
    by (vm_compute; reflexivity).
  split; [split; [exact H1 | split; [exact H2 | split; [exact H3 | split;
          [exact H4 | split; [exact H5 | split; [exact H6 | exact H7]]]]]]|].
  destruct (row_order ToyRun.gen2 ToyRun.evl2 Toy.g_and H1 H2 H3) as (Hgen & Hgrr).
  destruct (Hgrr H4) as (_ & _ & Hread).
  specialize (Hread H5 [Byte.x01] H6 H7).
  split; [rewrite Hgen; vm_compute; reflexivity|].
  split; [vm_compute; reflexivity|].
  split; [vm_compute; reflexivity|].
  rewrite Hread. vm_compute. reflexivity.
Defined.

Lemma input_binding_rows_witness :
  let evl := recv ToyRun.evl_final [Byte.xc2; Byte.x0f; Byte.x64; Byte.x03] in
  (0 < Env_k /\ Env_k <= 128
   /\ length (Prng_rand (m_prng ToyRun.gen_final) (Env_k)).1 = key_size_in_bytes)
  /\ m_o_bufr (gen_next_gen_inp_com ToyRun.gen_final [Byte.x01] 5)
     = m_o_bufr ToyRun.gen_final ++ [Byte.xc2; Byte.x0f; Byte.x64; Byte.x03]
  /\ m_i_bufr_ix (evl_next_gen_inp_com evl [Byte.x01] 5) = 4
  /\ m_gen_inp_hash (evl_next_gen_inp_com evl [Byte.x01] 5) = [Byte.x20; Byte.x00].
Proof.
  intros evl.
  assert (H1 : 0 < Env_k) by (vm_compute; lia).
  assert (H2 : Env_k <= 128) by (vm_compute; lia).
  assert (H3 : length (Prng_rand (m_prng ToyRun.gen_final) (Env_k)).1
               = key_size_in_bytes) by reflexivity.
  split; [split; [exact H1 | split; [exact H2 | exact H3]]|].
  destruct (input_binding_rows ToyRun.gen_final evl [Byte.x01] 5 H1 H2 H3)
    as ((_ & Hgen & _) & (Hix & Hh & _)).
  split; [rewrite Hgen; vm_compute; reflexivity|].
  split; [rewrite Hix; vm_compute; reflexivity|].
  rewrite Hh. vm_compute. reflexivity.
Defined.

Lemma next_gate_writes_one_wire_witness :
  (m_idx Toy.g_a < length (m_w ToyRun.gen0)
   /\ (0 <= m_gate_ix ToyRun.gen0 < 2 ^ 64 - 1)%Z
   /\ m_idx Toy.g_a < length (m_w ToyRun.evl_start)
   /\ (0 <= m_gate_ix ToyRun.evl_start < 2 ^ 64 - 1)%Z)
  /\ m_gate_ix (gen_next_gate ToyRun.gen0 Toy.g_a) = 1%Z
  /\ m_gate_ix (evl_next_gate ToyRun.evl_start Toy.g_a) = 1%Z.
Proof.
  assert (H1 : m_idx Toy.g_a < length (m_w ToyRun.gen0)) by (vm_compute; lia).
  assert (H2 : (0 <= m_gate_ix ToyRun.gen0 < 2 ^ 64 - 1)%Z) by (vm_compute; split; congruence).
  assert (H3 : m_idx Toy.g_a < length (m_w ToyRun.evl_start)) by (vm_compute; lia).
  assert (H4 : (0 <= m_gate_ix ToyRun.evl_start < 2 ^ 64 - 1)%Z)
    by (vm_compute; split; congruence).
  split; [split; [exact H1 | split; [exact H2 | split; [exact H3 | exact H4]]]|].
  destruct (next_gate_writes_one_wire ToyRun.gen0 Toy.g_a H1 H2) as ((_ & _ & _ & Hg) & _).
  destruct (next_gate_writes_one_wire ToyRun.evl_start Toy.g_a H3 H4)
    as (_ & (_ & _ & _ & He)).
  split; [exact Hg | exact He].
Defined.

(** C8, as stated, fails: the evaluator of the small instance, with the
    opened decommitments installed and the 16 bytes of the circuit in
    [in_buffer], consumes the four bytes of the first [GEN_INP] gate, and the
    running hash absorbs all 16. *)
Lemma evl_folds_more_than_consumed :
  let evl := ToyRun.evl_start in
  let evl' := evl_next_gate evl Toy.g_a in
  length (m_i_bufr evl) = 16
  /\ m_i_bufr_ix evl' - m_i_bufr_ix evl = 4
  /\ hash_stream evl' = hash_stream evl ++ m_i_bufr evl
  /\ hash_stream evl'
     <> hash_stream evl
        ++ slice (m_i_bufr evl) (m_i_bufr_ix evl) (m_i_bufr_ix evl' - m_i_bufr_ix evl).
Proof. vm_compute. repeat split. intros H. discriminate H. Qed.

Lemma running_hash_folds_whole_buffers_witness :
  (m_o_bufr ToyRun.gen0 = [] /\ hash_stream ToyRun.gen0 = hash_stream ToyRun.evl_start)
  /\ hash_stream (com_run ToyRun.gen0 Toy.circuit)
     = hash_stream (lockstep_run ToyRun.gen0 ToyRun.evl_start Toy.circuit).2
  /\ hash_stream (lockstep_run ToyRun.gen0 ToyRun.evl_start Toy.circuit).2
     = m_o_bufr ToyRun.gen_final.
Proof.
  assert (H1 : m_o_bufr ToyRun.gen0 = []) by reflexivity.
  assert (H2 : hash_stream ToyRun.gen0 = hash_stream ToyRun.evl_start) by reflexivity.
  split; [split; [exact H1 | exact H2]|].
  split; [|vm_compute; reflexivity].
  exact (proj2 (proj2 (proj2
    (running_hash_folds_whole_buffers ToyRun.gen0 ToyRun.evl_start Toy.g_a Toy.circuit
       H1 H2)))).
Defined.

Lemma toy_ok : CollabOk.
Proof.
  split.
  - vm_compute. lia.
  - vm_compute. lia.
  - intros p. apply length_le_split.
  - intros p. cbn [Prng_rand Toy.collab fst]. rewrite le_combine_split.
    change (Z.of_nat ((Env_k + 7) / 8) * 8)%Z with 16%Z.
    change (Z.of_nat Env_k) with 12%Z.
    pose proof (Z.mod_pos_bound (p * 1103 + 12345) (2 ^ 12) eq_refl) as Hb.
    rewrite Z.mod_small; [apply Hb|]. split; [apply Hb|].
    apply Z.lt_trans with (2 ^ 12)%Z; [apply Hb | reflexivity].
  - intros b. apply length_le_split.
Qed.

#[local] Existing Instance toy_ok.


Lemma toy_masked (i : nat) :
  i < gen_inp_cnt ->
  get_ith_bit Toy.masked i = xorb (get_ith_bit Toy.gen_in i) (get_ith_bit Toy.mask i).
Proof. intros Hi. destruct i as [|[|i]]; [reflexivity | reflexivity |]. vm_compute in Hi. lia. Qed.

Lemma toy_ot (j : nat) :
  j < 2 * 0 -> length (([] : list Bytes) !!! j) <= key_size_in_bytes.
Proof. lia. Qed.

Lemma toy_sound (g : Gate) :
  In g Toy.circuit -> (FREE_XOR && is_xor g) = true -> xor_shaped g.
Proof.
  intros [<-|[<-|[<-|[<-|[]]]]] H; try discriminate H. reflexivity.
Qed.

Lemma toy_masked_evl (i : nat) :
  i < gen_inp_cnt ->
  get_ith_bit Toy.masked_evl i
  = xorb (get_ith_bit Toy.gen_in_evl i) (get_ith_bit Toy.mask i).
Proof. intros Hi. destruct i as [|[|i]]; [reflexivity | reflexivity |]. vm_compute in Hi. lia. Qed.

Lemma toy_ot_evl (j : nat) :
  j < 2 * 1 -> length (Toy.ot_keys !!! j) <= key_size_in_bytes.
Proof. intros Hj. destruct j as [|[|j]]; [vm_compute; lia | vm_compute; lia | lia]. Qed.

Lemma toy_sound_evl (g : Gate) :
  In g Toy.circuit_evl -> (FREE_XOR && is_xor g) = true -> xor_shaped g.
Proof.
  intros [<-|[<-|[<-|[<-|[]]]]] H; try discriminate H. reflexivity.
Qed.

Lemma honest_execution_correct_witness :
  let G := honest_gen Toy.alloc Toy.blank Toy.ot_keys Toy.mask Toy.seed Toy.circuit_evl in
  let E := honest_evl G Toy.alloc Toy.blank Toy.ot_keys Toy.masked_evl Toy.evl_in 1
             Toy.circuit_evl in
  plain_run Toy.gen_in_evl Toy.evl_in 1 plain_init Toy.circuit_evl
  = Some ToyRun.plain_final_evl
  /\ bits_of (m_evl_out E) (m_evl_out_ix E) = [true]
  /\ bits_of (m_gen_out E) (m_gen_out_ix E) = [false].
Proof.
  assert (H1 : GRR = true) by reflexivity.
  assert (H2 : length Toy.alloc = m_cnt) by reflexivity.
  assert (H3 : m_w Toy.blank = [] \/ length (m_w Toy.blank) = m_cnt) by (left; reflexivity).
  assert (H4 : plain_run Toy.gen_in_evl Toy.evl_in 1 plain_init Toy.circuit_evl
               = Some ToyRun.plain_final_evl) by reflexivity.
  split; [exact H4|].
  exact (proj2 (proj2
    (honest_execution_correct Toy.alloc Toy.alloc Toy.blank Toy.blank Toy.ot_keys Toy.mask
       Toy.masked_evl Toy.gen_in_evl Toy.evl_in Toy.seed 1 Toy.circuit_evl
       ToyRun.plain_final_evl
       H1 H2 H2 H3 H3 toy_masked_evl toy_ot_evl toy_sound_evl H4))).
Defined.



(** ** The further properties on the small instance *)

Lemma gen_init_establishes_witness :
  perm_bit (m_R ToyRun.gen0) = true
  /\ m_clear_mask ToyRun.gen0 = (2 ^ 12 - 1)%Z
  /\ length (m_gen_inp_decom ToyRun.gen0) = 4.
Proof.
  destruct (gen_init_establishes (ok := toy_ok) Toy.alloc Toy.blank [] Toy.mask Toy.seed)
    as ((_ & HR & _) & Hm & _ & Hd & _).
  split; [exact HR|]. split; [exact Hm | exact Hd].
Defined.

Lemma run_stream_length_witness :
  Env_k <= 128
  /\ length (m_o_bufr (gen_run ToyRun.gen0 Toy.circuit)) = 0 + 16
  /\ m_i_bufr_ix (evl_run ToyRun.evl_start Toy.circuit) = 0 + 16.
Proof.
  assert (H1 : Env_k <= 128) by (vm_compute; lia).
  split; [exact H1|].
  exact (run_stream_length Toy.circuit ToyRun.gen0 ToyRun.evl_start H1 toy_hash_length).
Defined.

Lemma run_writes_only_its_wires_witness :
  ~ In 3 (map m_idx [Toy.g_a; Toy.g_b; Toy.g_and])
  /\ m_w ToyRun.gen3 !! 3 = Some 0%Z
  /\ m_w ToyRun.evl3 !! 3 = Some 0%Z.
Proof.
  assert (H1 : ~ In 3 (map m_idx [Toy.g_a; Toy.g_b; Toy.g_and])).
  { cbn. intros [H|[H|[H|[]]]]; discriminate H. }
  split; [exact H1|].
  destruct (run_writes_only_its_wires [Toy.g_a; Toy.g_b; Toy.g_and]
              ToyRun.gen0 ToyRun.evl_start 3 H1) as ((Hg & _) & (He & _)).
  split; [exact Hg | exact He].
Defined.

Lemma grr_offset_invariant_witness :
  (GRR = true /\ m_idx Toy.g_and < length (m_w ToyRun.gen2))
  /\ out_Z (gen_kernel ToyRun.gen2 Toy.g_and) true
     = xor_si128 (m_w ToyRun.gen3 !!! 2) (m_R ToyRun.gen2).
Proof.
  assert (H1 : GRR = true) by reflexivity.
  assert (H2 : m_idx Toy.g_and < length (m_w ToyRun.gen2)) by (vm_compute; lia).
  split; [split; assumption|].
  exact (proj2 (grr_offset_invariant ToyRun.gen2 Toy.g_and H1 H2)).
Defined.

Lemma gen_label_within_k_bits_witness :
  (GRR = true /\ m_idx Toy.g_and < length (m_w ToyRun.gen2)
   /\ (0 <= m_R ToyRun.gen2 < 2 ^ Z.of_nat Env_k)%Z
   /\ m_clear_mask ToyRun.gen2 = Z.ones (Z.of_nat Env_k))
  /\ (0 <= m_w ToyRun.gen3 !!! 2%nat < 2 ^ Z.of_nat Env_k)%Z.
Proof.
  assert (H1 : GRR = true) by reflexivity.
  assert (H2 : m_idx Toy.g_and < length (m_w ToyRun.gen2)) by (vm_compute; lia).
  assert (H3 : (0 <= m_R ToyRun.gen2 < 2 ^ Z.of_nat Env_k)%Z)
    by (vm_compute; split; [discriminate | reflexivity]).
  assert (H4 : m_clear_mask ToyRun.gen2 = Z.ones (Z.of_nat Env_k)) by reflexivity.
  assert (H5 : forall i, In i (m_input_idx Toy.g_and) ->
                 (0 <= m_w ToyRun.gen2 !!! i < 2 ^ Z.of_nat Env_k)%Z).
  { intros i [<-|[<-|[]]]; vm_compute; (split; [discriminate | reflexivity]). }
  assert (H6 : is_input Toy.g_and = false ->
               length (m_input_idx Toy.g_and) = 1 \/ length (m_input_idx Toy.g_and) = 2)
    by (intros _; right; reflexivity).
  split; [repeat split; assumption || apply H3|].
  exact (gen_label_within_k_bits ToyRun.gen2 Toy.g_and H1 H2 H3 H4 H5 H6).
Defined.

Lemma evl_output_bit_witness :
  (m_evl_out_ix ToyRun.evl2 < 8 * length (m_evl_out ToyRun.evl2)
   /\ m_gen_out_ix ToyRun.evl2 < 8 * length (m_gen_out ToyRun.evl2))
  /\ get_ith_bit (m_evl_out (evl_next_gate ToyRun.evl2 Toy.g_and)) 0 = true
  /\ get_ith_bit (m_gen_out (evl_next_gate ToyRun.evl2 Toy.g_and)) 0
     = get_ith_bit (m_gen_out ToyRun.evl2) 0.
Proof.
  assert (H1 : m_evl_out_ix ToyRun.evl2 < 8 * length (m_evl_out ToyRun.evl2))
    by (vm_compute; lia).
  assert (H2 : m_gen_out_ix ToyRun.evl2 < 8 * length (m_gen_out ToyRun.evl2))
    by (vm_compute; lia).
  split; [split; assumption|].
  destruct (evl_output_bit ToyRun.evl2 Toy.g_and 0 H1 H2) as [He Hg].
  split; [rewrite He; vm_compute; reflexivity | exact Hg].
Defined.

Lemma evl_init_establishes_witness :
  m_clear_mask ToyRun.evl0 = (2 ^ 12 - 1)%Z
  /\ length (m_gen_inp_com ToyRun.evl0) = 2
  /\ length (m_evl_out ToyRun.evl0) = 1.
Proof.
  destruct (evl_init_establishes (ok := toy_ok) Toy.alloc Toy.blank [] Toy.masked [])
    as (Hm & _ & _ & (Hc & _) & (Ho & _) & _).
  split; [exact Hm|]. split; [exact Hc | exact Ho].
Defined.

Lemma honest_labels_track_values_witness :
  let G := honest_gen Toy.alloc Toy.blank Toy.ot_keys Toy.mask Toy.seed Toy.circuit_evl in
  let E := honest_evl G Toy.alloc Toy.blank Toy.ot_keys Toy.masked_evl Toy.evl_in 1
             Toy.circuit_evl in
  plain_run Toy.gen_in_evl Toy.evl_in 1 plain_init Toy.circuit_evl
  = Some ToyRun.plain_final_evl
  /\ m_w E !!! 2 = Z.lxor (m_w G !!! 2) (m_R G)
  /\ m_i_bufr_ix E = length (m_i_bufr E).
Proof.
  assert (H1 : GRR = true) by reflexivity.
  assert (H2 : length Toy.alloc = m_cnt) by reflexivity.
  assert (H3 : m_w Toy.blank = [] \/ length (m_w Toy.blank) = m_cnt) by (left; reflexivity).
  assert (H4 : plain_run Toy.gen_in_evl Toy.evl_in 1 plain_init Toy.circuit_evl
               = Some ToyRun.plain_final_evl) by reflexivity.
  split; [exact H4|].
  destruct (honest_labels_track_values Toy.alloc Toy.alloc Toy.blank Toy.blank Toy.ot_keys
              Toy.mask Toy.masked_evl Toy.gen_in_evl Toy.evl_in Toy.seed 1 Toy.circuit_evl
              ToyRun.plain_final_evl
              H1 H2 H2 H3 H3 toy_masked_evl toy_ot_evl toy_sound_evl H4)
    as (Hw & Hc & _).
  split; [exact (Hw 2 true eq_refl) | exact Hc].
Defined.

Lemma honest_pass_check_witness :
  let G := honest_gen Toy.alloc Toy.blank [] Toy.mask Toy.seed Toy.circuit in
  let E := honest_evl G Toy.alloc Toy.blank [] Toy.masked [] 0 Toy.circuit in
  (plain_run Toy.gen_in [] 0 plain_init Toy.circuit = Some ToyRun.plain_final
   /\ p_gen_inp_ix ToyRun.plain_final = gen_inp_cnt)
  /\ pass_check E = true.
Proof.
  assert (H1 : GRR = true) by reflexivity.
  assert (H2 : length Toy.alloc = m_cnt) by reflexivity.
  assert (H3 : m_w Toy.blank = [] \/ length (m_w Toy.blank) = m_cnt) by (left; reflexivity).
  assert (H4 : plain_run Toy.gen_in [] 0 plain_init Toy.circuit = Some ToyRun.plain_final)
    by reflexivity.
  assert (H5 : p_gen_inp_ix ToyRun.plain_final = gen_inp_cnt) by reflexivity.
  split; [split; assumption|].
  exact (proj1
    (honest_pass_check Toy.alloc Toy.alloc Toy.blank Toy.blank [] Toy.mask Toy.masked
       Toy.gen_in [] Toy.seed 0 Toy.circuit ToyRun.plain_final
       H1 H2 H2 H3 H3 toy_masked toy_ot toy_sound H4 H5)).
Defined.

Lemma pass_check_detects_replacement_witness :
  let G := honest_gen Toy.alloc Toy.blank [] Toy.mask Toy.seed Toy.circuit in
  let E := honest_evl G Toy.alloc Toy.blank [] Toy.masked [] 0 Toy.circuit in
  (plain_run Toy.gen_in [] 0 plain_init Toy.circuit = Some ToyRun.plain_final
   /\ p_gen_inp_ix ToyRun.plain_final = gen_inp_cnt /\ 1 < gen_inp_cnt)
  /\ pass_check (set_m_gen_inp_decom (<[1 := [Byte.x05]]> (m_gen_inp_decom E)) E) <> true.
Proof.
  assert (H1 : GRR = true) by reflexivity.
  assert (H2 : length Toy.alloc = m_cnt) by reflexivity.
  assert (H3 : m_w Toy.blank = [] \/ length (m_w Toy.blank) = m_cnt) by (left; reflexivity).
  assert (H4 : plain_run Toy.gen_in [] 0 plain_init Toy.circuit = Some ToyRun.plain_final)
    by reflexivity.
  assert (H5 : p_gen_inp_ix ToyRun.plain_final = gen_inp_cnt) by reflexivity.
  assert (H6 : 1 < gen_inp_cnt) by (vm_compute; lia).
  split; [repeat split; assumption|].
  intros Hp.
  apply (pass_check_detects_replacement Toy.alloc Toy.alloc Toy.blank Toy.blank [] Toy.mask
           Toy.masked Toy.gen_in [] Toy.seed 0 Toy.circuit ToyRun.plain_final 1 [Byte.x05]
           H1 H2 H2 H3 H3 toy_masked toy_ot toy_sound H4 H5 H6) in Hp.
  vm_compute in Hp. discriminate Hp.
Defined.

Lemma com_run_hashes_the_stream_witness :
  m_o_bufr ToyRun.gen0 = []
  /\ m_w (com_run ToyRun.gen0 Toy.circuit) = m_w (gen_run ToyRun.gen0 Toy.circuit)
  /\ hash_stream (com_run ToyRun.gen0 Toy.circuit)
     = hash_stream ToyRun.gen0 ++ m_o_bufr (gen_run ToyRun.gen0 Toy.circuit).
Proof.
  assert (H1 : m_o_bufr ToyRun.gen0 = []) by reflexivity.
  split; [exact H1|].
  destruct (com_run_hashes_the_stream Toy.circuit ToyRun.gen0 H1)
    as (_ & (Hw & _) & _ & Hh).
  split; [exact Hw | exact Hh].
Defined.

Lemma input_binding_linearity_witness :
  let G := honest_gen Toy.alloc Toy.blank [] Toy.mask Toy.seed Toy.circuit in
  let E := honest_evl G Toy.alloc Toy.blank [] Toy.masked [] 0 Toy.circuit in
  let sent := drop (length (m_o_bufr G))
                (m_o_bufr (gen_next_gen_inp_com G [Byte.x01] 5)) in
  (plain_run Toy.gen_in [] 0 plain_init Toy.circuit = Some ToyRun.plain_final
   /\ p_gen_inp_ix ToyRun.plain_final = gen_inp_cnt /\ 5 < 8 * key_size_in_bytes)
  /\ get_ith_bit (m_gen_inp_hash (evl_next_gen_inp_com (recv E sent) [Byte.x01] 5)) 5
     = row_parity [Byte.x01] Toy.gen_in.
Proof.
  assert (H1 : GRR = true) by reflexivity.
  assert (H2 : length Toy.alloc = m_cnt) by reflexivity.
  assert (H3 : m_w Toy.blank = [] \/ length (m_w Toy.blank) = m_cnt) by (left; reflexivity).
  assert (H4 : plain_run Toy.gen_in [] 0 plain_init Toy.circuit = Some ToyRun.plain_final)
    by reflexivity.
  assert (H5 : p_gen_inp_ix ToyRun.plain_final = gen_inp_cnt) by reflexivity.
  assert (H6 : 5 < 8 * key_size_in_bytes) by (vm_compute; lia).
  split; [repeat split; assumption|].
  exact (proj2
    (input_binding_linearity Toy.alloc Toy.alloc Toy.blank Toy.blank [] Toy.mask Toy.masked
       Toy.gen_in [] Toy.seed 0 Toy.circuit ToyRun.plain_final [Byte.x01] 5
       H1 H2 H2 H3 H3 toy_masked toy_ot toy_sound H4 H5 H6)).
Defined.

Lemma gate_decrypts_witness :
  let P := {| p_wire := [Some true; Some true; None; None]; p_gen_inp_ix := 2;
              p_evl_inp_ix := 0; p_evl_out := []; p_gen_out := [] |} in
  (plain_gate_value P Toy.g_and = Some true
   /\ m_i_bufr ToyRun.evl2
      = m_o_bufr (gen_next_gate ToyRun.gen2 Toy.g_and)
        ++ drop 15 (m_o_bufr ToyRun.gen_final)
   /\ m_i_bufr_ix ToyRun.evl2 = length (m_o_bufr ToyRun.gen2))
  /\ m_w (evl_next_gate ToyRun.evl2 Toy.g_and) !!! 2
     = lab (m_R ToyRun.gen2) (m_w (gen_next_gate ToyRun.gen2 Toy.g_and) !!! 2) true
  /\ get_ith_bit (m_evl_out (evl_next_gate ToyRun.evl2 Toy.g_and)) 0 = true.
Proof.
  intros P.
  assert (H1 : GRR = true) by reflexivity.
  assert (H2 : is_input Toy.g_and = false) by reflexivity.
  assert (H3 : FREE_XOR && is_xor Toy.g_and = true -> xor_shaped Toy.g_and)
    by (intros H; discriminate H).
  assert (H4 : perm_bit (m_R ToyRun.gen2) = true) by reflexivity.
  assert (H5 : (0 <= m_R ToyRun.gen2 < 2 ^ Z.of_nat Env_k)%Z)
    by (vm_compute; split; [discriminate | reflexivity]).
  assert (H6 : m_clear_mask ToyRun.gen2 = Z.ones (Z.of_nat Env_k)) by reflexivity.
  assert (H7 : m_clear_mask ToyRun.evl2 = Z.ones (Z.of_nat Env_k)) by reflexivity.
  assert (H8 : m_gate_ix ToyRun.gen2 = m_gate_ix ToyRun.evl2) by reflexivity.
  assert (H9 : m_idx Toy.g_and < length (m_w ToyRun.gen2)) by (vm_compute; lia).
  assert (H10 : m_idx Toy.g_and < length (m_w ToyRun.evl2)) by (vm_compute; lia).
  assert (H11 : forall i b, plain_read P i = Some b ->
            (0 <= m_w ToyRun.gen2 !!! i < 2 ^ Z.of_nat Env_k)%Z
            /\ m_w ToyRun.evl2 !!! i = lab (m_R ToyRun.gen2) (m_w ToyRun.gen2 !!! i) b).
  { intros [|[|[|[|i]]]] b Hb; try discriminate Hb;
      injection Hb as <-; vm_compute; (split; [split; [discriminate|]|]; reflexivity). }
  assert (H12 : plain_gate_value P Toy.g_and = Some true) by reflexivity.
  assert (H13 : m_i_bufr ToyRun.evl2
                = m_o_bufr (gen_next_gate ToyRun.gen2 Toy.g_and)
                  ++ drop 15 (m_o_bufr ToyRun.gen_final)) by (vm_compute; reflexivity).
  assert (H14 : m_i_bufr_ix ToyRun.evl2 = length (m_o_bufr ToyRun.gen2))
    by (vm_compute; reflexivity).
  split; [split; [exact H12 | split; [exact H13 | exact H14]]|].
  destruct (gate_decrypts ToyRun.gen2 ToyRun.evl2 P Toy.g_and true
              (drop 15 (m_o_bufr ToyRun.gen_final))
              H1 H2 H3 H4 H5 H6 H7 H8 H9 H10 H11 H12 H13 H14)
    as (_ & Hk & _ & Ho & _).
  split; [exact Hk|].
  apply (Ho eq_refl). vm_compute. lia.
Defined.
